(** * quiz.py: an interactive terminal quiz runner

    A shallow embedding of [src/quiz.py] and the properties of its question
    parser, its menus, its per-question loop, its scoring and its summary.

    Python values are modelled as follows.
    - [int] is [Z]; [%] on ints is [Z.modulo] (the result has the sign of the
      divisor, as in Python) with [ZeroDivisionError] written out.
    - [str] is the list of its Unicode code points, [list N].
    - [float] is IEEE binary64, through [SpecFloat] at precision 53.
    - a [dict] keyed by ints is a [gmap Z _]; a [set] of ints is a [gset Z];
      [list(s)] of a set [s] is [elements s] (Python fixes no order either).
    - the methods of [Quiz] mutate [self], read the keyboard and print: they
      are computations in a state and error monad over [state]. *)

From Stdlib Require Import ZArith NArith Lia List Permutation.
From Stdlib Require Import String Ascii.
From Stdlib Require Import SpecFloat.
From stdpp Require Import base option list gmap sets sorting.

Local Open Scope Z_scope.

(* ===================================================================== *)
(** * Python builtins used by the program *)
(* ===================================================================== *)

(** ** Strings *)

Abbreviation str := (list N).

(** A literal: the code points of an ASCII Rocq string. *)
Fixpoint lit (s : string) : str :=
  match s with
  | EmptyString => []
  | String c r => N_of_ascii c :: lit r
  end.

Module PyStr.

(** [str.isspace] on one code point: the characters [str.strip()] removes
    ([_Py_ascii_whitespace] below 128, [_PyUnicode_IsWhitespace] above). *)
Definition isspace (c : N) : bool :=
  ((9 <=? c) && (c <=? 13) || (28 <=? c) && (c <=? 32)
   || (c =? 133) || (c =? 160) || (c =? 5760)
   || (8192 <=? c) && (c <=? 8202)
   || (c =? 8232) || (c =? 8233) || (c =? 8239) || (c =? 8287)
   || (c =? 12288))%N.

Fixpoint lstrip (s : str) : str :=
  match s with
  | [] => []
  | c :: r => if isspace c then lstrip r else s
  end.

Definition rstrip (s : str) : str := rev (lstrip (rev s)).

(** [s.strip()] *)
Definition strip (s : str) : str := rstrip (lstrip s).

(** [s.split(sep)] for a one-character separator: every occurrence splits,
    empty pieces are kept, and the result is never empty. *)
Fixpoint split (sep : N) (s : str) : list str :=
  match s with
  | [] => [[]]
  | c :: r =>
      if (c =? sep)%N then [] :: split sep r
      else match split sep r with
           | h :: t => (c :: h) :: t
           | [] => [[c]]
           end
  end.

(** [s.split(sep, 1)]: at most one split, at the first occurrence. *)
Fixpoint split1 (sep : N) (s : str) : list str :=
  match s with
  | [] => [[]]
  | c :: r =>
      if (c =? sep)%N then [[]; r]
      else match split1 sep r with
           | h :: t => (c :: h) :: t
           | [] => [[c]]
           end
  end.

(** [s.startswith(p)] *)
Fixpoint startswith (p s : str) : bool :=
  match p, s with
  | [], _ => true
  | _ :: _, [] => false
  | a :: p', b :: s' => (a =? b)%N && startswith p' s'
  end.

(** [int(s)] in base 10. [None] is [ValueError].

    The white space that [int()] skips at both ends is not that of
    [str.strip()]: it is C's ASCII white space (9 to 13, and 32) and the
    Unicode white space above 127, so U+001C to U+001F, which [strip]
    removes, are an error here. *)
Definition int_space (c : N) : bool :=
  (isspace c && negb ((28 <=? c) && (c <=? 31)))%N.

Fixpoint int_lstrip (s : str) : str :=
  match s with
  | [] => []
  | c :: r => if int_space c then int_lstrip r else s
  end.

Definition int_strip (s : str) : str :=
  rev (int_lstrip (rev (int_lstrip s))).

(** The decimal digits of Unicode 14.0 (CPython 3.11) come in runs of ten,
    from a zero up to a nine; these are the zeros. *)
Definition decimal_zeros : list N :=
  [
   48; 1632; 1776; 1984; 2406; 2534; 2662; 2790; 2918; 3046; 3174; 3302;
   3430; 3558; 3664; 3792; 3872; 4160; 4240; 6112; 6160; 6470; 6608;
   6784; 6800; 6992; 7088; 7232; 7248; 42528; 43216; 43264; 43472;
   43504; 43600; 44016; 65296; 66720; 68912; 69734; 69872; 69942; 70096;
   70384; 70736; 70864; 71248; 71360; 71472; 71904; 72016; 72784; 73040;
   73120; 92768; 92864; 93008; 120782; 120792; 120802; 120812; 120822;
   123200; 123632; 125264; 130032
  ]%N.

Definition digit (c : N) : option Z :=
  match find (fun z => (z <=? c) && (c <? z + 10))%N decimal_zeros with
  | Some z => Some (Z.of_N (c - z))
  | None => None
  end.

(** Digits with single underscores between them. *)
Fixpoint int_digits (acc : Z) (after_digit : bool) (s : str) : option Z :=
  match s with
  | [] => if after_digit then Some acc else None
  | c :: r =>
      if (c =? 95)%N then
        if after_digit then int_digits acc false r else None
      else match digit c with
           | Some d => int_digits (10 * acc + d) true r
           | None => None
           end
  end.

(** [sys.get_int_max_str_digits()], as CPython sets it from 3.11 on: a
    numeral of more digits is a [ValueError]. *)
Definition max_str_digits : nat := 4300.

Definition int (s : str) : option Z :=
  let body := int_strip s in
  if (max_str_digits <? length (filter (fun c => is_Some (digit c)) body))%nat
  then None
  else
    match body with
    | [] => None
    | c :: r =>
        if (c =? 43)%N then int_digits 0 false r
        else if (c =? 45)%N then Z.opp <$> int_digits 0 false r
        else int_digits 0 false (c :: r)
    end.

End PyStr.

(* ===================================================================== *)
(** * The data model *)
(* ===================================================================== *)

(** [@dataclass class Question] *)
Record Question := mkQuestion {
  id : Z;
  text : str;
  options : list str;
  correct_indices : list Z;
}.

(* ===================================================================== *)
(** * QuestionParser *)
(* ===================================================================== *)

Section QuestionParser.

(** The builtin [int] on a [str]; [None] is the [ValueError] that the
    parser catches. *)
Variable int : str -> option Z.

(** The inner loop, lines 54-59: one segment after the prompt. *)
Definition parse_segment (acc : list str * list Z) (seg : str)
  : list str * list Z :=
  let '(options, correct_indices) := acc in
  if PyStr.startswith (lit "[X]") seg then
    let options := options ++ [drop 3 seg] in
    (options, correct_indices ++ [Z.of_nat (length options) - 1])
  else (options ++ [seg], correct_indices).

(** The body of [for line in f], lines 30-67; each [continue] returns the
    mapping as it is. *)
Definition parse_line (questions : gmap Z Question) (line : str)
  : gmap Z Question :=
  let line := PyStr.strip line in
  if bool_decide (line = []) then questions else
  let parts := PyStr.split1 32 line in
  if (length parts <? 2)%nat then questions else
  match int (nth 0 parts []) with
  | None => questions
  | Some q_id =>
      let text_and_options := nth 1 parts [] in
      let segments := PyStr.split 42 text_and_options in
      if (length segments <? 2)%nat then questions else
      let question_text := nth 0 segments [] in
      let '(options, correct_indices) :=
        fold_left parse_segment (tail segments) ([], []) in
      if bool_decide (options = []) then questions
      else <[q_id := mkQuestion q_id question_text options correct_indices]>
             questions
  end.

(** [parse_questions], on the lines of the file. *)
Definition parse_questions (lines : list str) : gmap Z Question :=
  fold_left parse_line lines ∅.

End QuestionParser.


(* ===================================================================== *)
(** * The machine: the [Quiz] object and its terminal *)
(* ===================================================================== *)

(** An entry of [self.modules]. *)
Record Module_ := mkModule {
  name : str;
  description : str;
  mquestions : list Z;   (* the 'questions' key *)
}.

(** [self.stats] *)
Record Stats := mkStats {
  correct : Z;
  wrong : Z;
  total : Z;
}.

(** [sys.platform == 'win32'] or not. *)
Inductive Platform := Win32 | Posix.

(** The strings [get_arrow_key] returns. *)
Inductive Key := Up | Down | Enter | Esc | Space | NoKey.

(** The four markers of the feedback screen. *)
Inductive Marker := MarkBoth | MarkCorrect | MarkWrong | MarkBlank.

Inductive Tier := Top | Middle | Bottom.

(** What is printed, one constructor per screen with the data it shows. *)
Inductive Screen :=
| ScrModeMenu (selected : Z)
| ScrModuleMenu (module_list : list Z) (selected : Z)
| ScrQuestion (number shown_total : Z) (q : Question)
              (selected : Z) (checked : gset Z)
| ScrResult (is_correct : bool) (q : Question) (markers : list Marker)
| ScrSummaryCounts (total_ correct_ pct_correct wrong_ pct_wrong : Z)
| ScrSummaryTier (t : Tier)
| ScrExit (answered of_total correct_ wrong_ : Z)
| ScrNoQuestions.

(** The fields of [self], then the world around it: the platform, the
    characters the user is still to type, the draws the random generator
    is still to make, and what has been printed so far (oldest first). *)
Record state := mkState {
  questions : gmap Z Question;
  modules : gmap Z Module_;
  current_index : Z;
  quiz_questions : list Z;
  stats : Stats;
  platform : Platform;
  stdin : list N;
  rng : list nat;
  stdout : list Screen;
}.

Definition with_current_index (i : Z) (s : state) : state :=
  mkState (questions s) (modules s) i (quiz_questions s) (stats s)
          (platform s) (stdin s) (rng s) (stdout s).
Definition with_quiz_questions (l : list Z) (s : state) : state :=
  mkState (questions s) (modules s) (current_index s) l (stats s)
          (platform s) (stdin s) (rng s) (stdout s).
Definition with_stats (t : Stats) (s : state) : state :=
  mkState (questions s) (modules s) (current_index s) (quiz_questions s) t
          (platform s) (stdin s) (rng s) (stdout s).
Definition with_stdin (i : list N) (s : state) : state :=
  mkState (questions s) (modules s) (current_index s) (quiz_questions s)
          (stats s) (platform s) i (rng s) (stdout s).
Definition with_rng (r : list nat) (s : state) : state :=
  mkState (questions s) (modules s) (current_index s) (quiz_questions s)
          (stats s) (platform s) (stdin s) r (stdout s).
Definition with_stdout (o : list Screen) (s : state) : state :=
  mkState (questions s) (modules s) (current_index s) (quiz_questions s)
          (stats s) (platform s) (stdin s) (rng s) o.

(** [Quiz.__init__] *)
Definition Quiz_init (questions : gmap Z Question) (modules : gmap Z Module_)
    (platform : Platform) (stdin : list N) (rng : list nat) : state :=
  mkState questions modules 0 [] (mkStats 0 0 0) platform stdin rng [].

Inductive exn :=
| ZeroDivisionError | ValueError | OverflowError | IndexError | KeyError
| TypeError | RecursionError.

(** How a computation ends: it returns, it raises, it waits for a key that
    is never typed, or the model's fuel is spent (shown below not to
    happen, but for a pick of positions that would draw for ever). *)
Inductive result (A : Type) :=
| Ok (a : A) (s : state)
| Raised (e : exn) (s : state)
| Blocked (s : state)
| OutOfFuel.
Arguments Ok {A} a s.
Arguments Raised {A} e s.
Arguments Blocked {A} s.
Arguments OutOfFuel {A}.

Definition M (A : Type) : Type := state -> result A.

Definition ret {A} (a : A) : M A := fun s => Ok a s.
Definition raise {A} (e : exn) : M A := fun s => Raised e s.
Definition bind {A B} (c : M A) (k : A -> M B) : M B :=
  fun s => match c s with
           | Ok a s' => k a s'
           | Raised e s' => Raised e s'
           | Blocked s' => Blocked s'
           | OutOfFuel => OutOfFuel
           end.
Definition get : M state := fun s => Ok s s.
Definition modify (f : state -> state) : M unit := fun s => Ok tt (f s).

Notation "'do' x <- c ; k" := (bind c (fun x => k))
  (at level 10, x name, c at level 100, k at level 200).
Notation "c ;; k" := (bind c (fun _ => k))
  (at level 100, k at level 200, right associativity).

(** The control of a [while True] loop after one pass. *)
Inductive control (S A : Type) :=
| Continue (st : S)
| Return (a : A).
Arguments Continue {S A} st.
Arguments Return {S A} a.

Definition print (x : Screen) : M unit :=
  modify (fun s => with_stdout (stdout s ++ [x]) s).

Definition len {A} (l : list A) : Z := Z.of_nat (length l).

(** [a % b] on ints. *)
Definition py_mod (a b : Z) : M Z :=
  if b =? 0 then raise ZeroDivisionError else ret (a mod b).

(** [l[i]] on a list, with Python's negative indices. *)
Definition py_index {A} (l : list A) (i : Z) : M A :=
  let j := if i <? 0 then i + len l else i in
  if j <? 0 then raise IndexError
  else match l !! Z.to_nat j with
       | Some x => ret x
       | None => raise IndexError
       end.

(** ** Floats: IEEE binary64 *)

Module PyFloat.

Definition prec : Z := 53.
Definition emax : Z := 1024.

(** [float(z)], exact for [|z| <= 2^53]. *)
Definition of_int (z : Z) : spec_float := binary_normalize prec emax z 0 false.

(** [a / b] on ints: true division. Python rounds the exact quotient
    once; for operands up to [2^53], which are floats exactly, that is
    the float quotient. *)
Definition truediv (a b : Z) : M spec_float :=
  if b =? 0 then raise ZeroDivisionError
  else ret (SFdiv prec emax (of_int a) (of_int b)).

(** [x * z] for a float [x] and an int [z]. *)
Definition mul_int (x : spec_float) (z : Z) : spec_float :=
  SFmul prec emax x (of_int z).

(** [int(x)]: truncation towards zero. *)
Definition to_int (x : spec_float) : M Z :=
  match x with
  | S754_zero _ => ret 0
  | S754_finite sg m e =>
      let a := if 0 <=? e then Z.pos m * 2 ^ e else Z.pos m / 2 ^ (- e) in
      ret (if sg then - a else a)
  | S754_infinity _ => raise OverflowError
  | S754_nan => raise ValueError
  end.

(** [x >= y] *)
Definition ge (x y : spec_float) : bool := SFleb y x.

(** The literals [0.8] and [0.6]: the doubles nearest to them,
    [0x1.999999999999ap-1] and [0x1.3333333333333p-1]. *)
Definition lit_0_8 : spec_float := S754_finite false 7205759403792794 (-53).
Definition lit_0_6 : spec_float := S754_finite false 5404319552844595 (-53).

End PyFloat.

(** ** [random.sample]

    CPython's selection from a pool: [k] draws, each moving the last
    unselected item into the vacancy. This is the branch CPython takes
    whenever [k = len(population)], as in [run_quiz]. (For a [k] that is
    small against a large population it draws positions again until they
    are new, which also yields [k] items of distinct positions; [main]'s
    pick of 20 is the only such call, and its result is overwritten.)
    [randbelow n] takes the next draw of the generator, reduced below
    [n]; a generator without draws left gives 0. *)

Definition randbelow (n : nat) : M nat :=
  fun s => match rng s with
           | [] => Ok 0%nat s
           | r :: rest => Ok (r mod n)%nat (with_rng rest s)
           end.

(** [for i in range(k)], from [i] on with [todo = k - i] passes left. *)
Fixpoint sample_loop {A} (todo i n : nat) (pool : list A) : M (list A) :=
  match todo with
  | O => ret []
  | S todo' =>
      do j <- randbelow (n - i);
      match pool !! j, pool !! (n - i - 1)%nat with
      | Some x, Some y =>
          do rest <- sample_loop todo' (S i) n (<[j := y]> pool);
          ret (x :: rest)
      | _, _ => raise IndexError
      end
  end.

Definition random_sample {A} (population : list A) (k : Z) : M (list A) :=
  if (0 <=? k) && (k <=? len population)
  then sample_loop (Z.to_nat k) 0 (length population) population
  else raise ValueError.

(** ** The input reader

    The terminal gives the characters of [stdin] one by one; a read with
    nothing left to give waits for a key for ever. The switch to raw mode
    and back around each read is not modelled. *)

Definition read1 : M N :=
  fun s => match stdin s with
           | [] => Blocked s
           | c :: r => Ok c (with_stdin r s)
           end.

(** [get_arrow_key]: [msvcrt.getch()] on win32, [sys.stdin.read(1)] in raw
    mode elsewhere. *)
Definition get_arrow_key : M Key :=
  do s <- get;
  match platform s with
  | Win32 =>
      do key <- read1;
      if (key =? 224)%N then
        do key2 <- read1;
        if (key2 =? 72)%N then ret Up
        else if (key2 =? 80)%N then ret Down
        else ret NoKey
      else if (key =? 13)%N then ret Enter
      else if (key =? 27)%N then ret Esc
      else if (key =? 32)%N then ret Space
      else if (key =? 106)%N then ret Down
      else if (key =? 107)%N then ret Up
      else ret NoKey
  | Posix =>
      do key <- read1;
      if (key =? 27)%N then
        do next1 <- read1;
        if (next1 =? 91)%N then
          do next2 <- read1;
          if (next2 =? 65)%N then ret Up
          else if (next2 =? 66)%N then ret Down
          else ret Esc
        else ret Esc
      else if (key =? 13)%N then ret Enter
      else if (key =? 32)%N then ret Space
      else ret NoKey
  end.

(** [wait_for_enter]: read until a carriage return. *)
Fixpoint skip_to_enter (input : list N) : option (list N) :=
  match input with
  | [] => None
  | c :: r => if (c =? 13)%N then Some r else skip_to_enter r
  end.

Definition wait_for_enter : M unit :=
  fun s => match skip_to_enter (stdin s) with
           | Some r => Ok tt (with_stdin r s)
           | None => Blocked (with_stdin [] s)
           end.

(* ===================================================================== *)
(** * Quiz *)
(* ===================================================================== *)

(** ** [check_answers]: [set(user_answers) == set(correct_indices)] *)
Definition check_answers (user_answers correct_indices : list Z) : bool :=
  bool_decide ((list_to_set user_answers : gset Z) = list_to_set correct_indices).

(** ** [show_question] *)

(** The [if]/[elif] chain on the key, lines 251-264. *)
Definition show_question_on_key (question : Question) (key : Key)
    (selected : Z) (checked : gset Z)
  : M (control (Z * gset Z) (option (list Z))) :=
  match key with
  | Up =>
      do selected <- py_mod (selected - 1) (len (options question));
      ret (Continue (selected, checked))
  | Down =>
      do selected <- py_mod (selected + 1) (len (options question));
      ret (Continue (selected, checked))
  | Space =>
      if decide (selected ∈ checked)
      then ret (Continue (selected, checked ∖ {[selected]}))
      else ret (Continue (selected, checked ∪ {[selected]}))
  | Enter =>
      if decide (checked ≠ ∅) then ret (Return (Some (elements checked)))
      else ret (Continue (selected, checked))
  | Esc => ret (Return None)
  | NoKey => ret (Continue (selected, checked))
  end.

(** One pass of the [while True] of [show_question], lines 225-264. *)
Definition show_question_body (question : Question) (number : Z)
    (selected : Z) (checked : gset Z)
  : M (control (Z * gset Z) (option (list Z))) :=
  do s <- get;
  print (ScrQuestion number (len (quiz_questions s)) question selected checked);;
  do key <- get_arrow_key;
  show_question_on_key question key selected checked.

Fixpoint show_question_loop (fuel : nat) (question : Question) (number : Z)
    (selected : Z) (checked : gset Z) : M (option (list Z)) :=
  match fuel with
  | O => fun _ => OutOfFuel
  | S fuel =>
      do c <- show_question_body question number selected checked;
      match c with
      | Continue (selected, checked) =>
          show_question_loop fuel question number selected checked
      | Return a => ret a
      end
  end.

(** The loop from a given highlight and checked set; every pass reads at
    least one character, so one pass more than there are characters is
    fuel enough. *)
Definition show_question_from (question : Question) (number : Z)
    (selected : Z) (checked : gset Z) : M (option (list Z)) :=
  fun s => show_question_loop (S (length (stdin s))) question number
             selected checked s.

Definition show_question (question : Question) (number : Z)
  : M (option (list Z)) :=
  show_question_from question number 0 ∅.

(** ** [show_result] *)

Definition marker_of (is_correct_answer was_selected : bool) : Marker :=
  if is_correct_answer && was_selected then MarkBoth
  else if is_correct_answer then MarkCorrect
  else if was_selected then MarkWrong
  else MarkBlank.

Definition result_markers (question : Question) (user_answers : list Z)
  : list Marker :=
  imap (fun idx _ =>
          marker_of (bool_decide (Z.of_nat idx ∈ correct_indices question))
                    (bool_decide (user_answers ≠ [])
                     && bool_decide (Z.of_nat idx ∈ user_answers)))
       (options question).

Definition show_result (is_correct : bool) (question : Question)
    (user_answers : list Z) : M unit :=
  print (ScrResult is_correct question (result_markers question user_answers));;
  wait_for_enter.

(** ** [show_summary] *)

(** [int(n/total*100) if total > 0 else 0] *)
Definition percent (n total : Z) : M Z :=
  if total >? 0 then
    do r <- PyFloat.truediv n total;
    PyFloat.to_int (PyFloat.mul_int r 100)
  else ret 0.

Definition show_summary : M unit :=
  do s <- get;
  do pct_correct <- percent (correct (stats s)) (total (stats s));
  do pct_wrong <- percent (wrong (stats s)) (total (stats s));
  print (ScrSummaryCounts (total (stats s)) (correct (stats s)) pct_correct
                          (wrong (stats s)) pct_wrong);;
  do r <- PyFloat.truediv (correct (stats s)) (total (stats s));
  (if PyFloat.ge r PyFloat.lit_0_8 then print (ScrSummaryTier Top)
   else
     do r <- PyFloat.truediv (correct (stats s)) (total (stats s));
     if PyFloat.ge r PyFloat.lit_0_6 then print (ScrSummaryTier Middle)
     else print (ScrSummaryTier Bottom));;
  wait_for_enter.

(** ** [show_exit_confirmation] *)
Definition show_exit_confirmation : M unit :=
  do s <- get;
  print (ScrExit (current_index s) (len (quiz_questions s))
                 (correct (stats s)) (wrong (stats s)));;
  wait_for_enter.

(** ** [run_quiz] *)

(** Lines 189-191. *)
Definition run_quiz_init (question_ids : list Z) : M unit :=
  do sample <- random_sample question_ids
                 (Z.min (len question_ids) (len question_ids));
  modify (with_quiz_questions sample);;
  modify (with_current_index 0);;
  do s <- get;
  modify (with_stats (mkStats 0 0 (len (quiz_questions s)))).

Definition add_correct : M unit :=
  modify (fun s => with_stats (mkStats (correct (stats s) + 1) (wrong (stats s))
                                       (total (stats s))) s).
Definition add_wrong : M unit :=
  modify (fun s => with_stats (mkStats (correct (stats s)) (wrong (stats s) + 1)
                                       (total (stats s))) s).
Definition advance : M unit :=
  modify (fun s => with_current_index (current_index s + 1) s).

(** One pass of the [while] of lines 193-215: [Return] when the loop test
    fails or at [break], [Continue] otherwise. *)
Definition run_quiz_body : M (control unit unit) :=
  do s <- get;
  if current_index s <? len (quiz_questions s) then
    do q_id <- py_index (quiz_questions s) (current_index s);
    match questions s !! q_id with
    | None => advance;; ret (Continue tt)
    | Some question =>
        do user_answers <- show_question question (current_index s + 1);
        match user_answers with
        | None => show_exit_confirmation;; ret (Return tt)
        | Some user_answers =>
            let is_correct :=
              check_answers user_answers (correct_indices question) in
            show_result is_correct question user_answers;;
            (if is_correct then add_correct else add_wrong);;
            advance;;
            ret (Continue tt)
        end
    end
  else ret (Return tt).

Fixpoint run_quiz_loop (fuel : nat) : M unit :=
  match fuel with
  | O => fun _ => OutOfFuel
  | S fuel =>
      do c <- run_quiz_body;
      match c with
      | Continue _ => run_quiz_loop fuel
      | Return _ => ret tt
      end
  end.

(** Every pass but the last advances the cursor, so one pass more than
    there are questions left is fuel enough. *)
Definition run_quiz_while : M unit :=
  fun s => run_quiz_loop (S (Z.to_nat (len (quiz_questions s) - current_index s))) s.

Definition run_quiz (question_ids : list Z) : M unit :=
  run_quiz_init question_ids;;
  run_quiz_while;;
  show_summary.

(** ** The menus *)

(** The three fixed rows of the top-level menu. *)
Inductive ModeEntry := RandomQuestions | FromModule | ExitProgram.

Definition mode_options : list ModeEntry :=
  [RandomQuestions; FromModule; ExitProgram].

(** The [mode] string of [select_mode]'s result. *)
Inductive Mode := ModeRandom | ModeModule (module_name : str).

(** The [if]/[elif] chain of [select_mode], lines 132-139; [break] returns
    the highlighted row, escape returns [None]. *)
Definition select_mode_on_key (key : Key) (selected : Z)
  : M (control Z (option Z)) :=
  match key with
  | Up =>
      do selected <- py_mod (selected - 1) (len mode_options);
      ret (Continue selected)
  | Down =>
      do selected <- py_mod (selected + 1) (len mode_options);
      ret (Continue selected)
  | Enter => ret (Return (Some selected))
  | Esc => ret (Return None)
  | _ => ret (Continue selected)
  end.

(** One pass of the [while True] of [select_mode], lines 117-139. *)
Definition select_mode_body (selected : Z) : M (control Z (option Z)) :=
  print (ScrModeMenu selected);;
  do key <- get_arrow_key;
  select_mode_on_key key selected.

Fixpoint select_mode_loop (fuel : nat) (selected : Z) : M (option Z) :=
  match fuel with
  | O => fun _ => OutOfFuel
  | S fuel =>
      do c <- select_mode_body selected;
      match c with
      | Continue selected => select_mode_loop fuel selected
      | Return a => ret a
      end
  end.

(** The [if]/[elif] chain of [select_module], lines 178-185. *)
Definition select_module_on_key (module_list : list Z) (key : Key)
    (selected : Z) : M (control Z (option Z)) :=
  match key with
  | Up =>
      do selected <- py_mod (selected - 1) (len module_list);
      ret (Continue selected)
  | Down =>
      do selected <- py_mod (selected + 1) (len module_list);
      ret (Continue selected)
  | Enter =>
      do m_id <- py_index module_list selected;
      ret (Return (Some m_id))
  | Esc => ret (Return None)
  | _ => ret (Continue selected)
  end.

(** One pass of the [while True] of [select_module], lines 161-185. *)
Definition select_module_body (module_list : list Z) (selected : Z)
  : M (control Z (option Z)) :=
  print (ScrModuleMenu module_list selected);;
  do key <- get_arrow_key;
  select_module_on_key module_list key selected.

Fixpoint select_module_loop (fuel : nat) (module_list : list Z) (selected : Z)
  : M (option Z) :=
  match fuel with
  | O => fun _ => OutOfFuel
  | S fuel =>
      do c <- select_module_body module_list selected;
      match c with
      | Continue selected => select_module_loop fuel module_list selected
      | Return a => ret a
      end
  end.

Definition select_module : M (option Z) :=
  fun s =>
    let module_list := merge_sort Z.le (elements (dom (modules s))) in
    select_module_loop (S (length (stdin s))) module_list 0 s.

(** [select_mode]. [keys] is [list(self.questions.keys())]: the ids of
    the store in the order in which they were inserted, an order that the
    mapping of the model does not keep.

    Line 147 calls [select_mode] from within itself each time the module
    menu is escaped, and each such call is one more frame for the
    interpreter, which admits 1000 of them unless told otherwise. With
    [limit] nested calls of [select_mode] to go, the call after them is
    the one in which CPython raises [RecursionError], at its entry or at
    a call that it makes in turn; the model raises it at the entry. *)
Fixpoint select_mode (keys : list Z) (limit : nat)
  : M (option (list Z * Mode)) :=
  match limit with
  | O => raise RecursionError
  | S limit =>
      do choice <- (fun s => select_mode_loop (S (length (stdin s))) 0 s);
      match choice with
      | None => ret None
      | Some selected =>
          if selected =? 0 then ret (Some (keys, ModeRandom))
          else if selected =? 1 then
            do module_id <- select_module;
            match module_id with
            | None => select_mode keys limit
            | Some module_id =>
                do s <- get;
                match modules s !! module_id with
                | Some m => ret (Some (mquestions m, ModeModule (name m)))
                | None => raise KeyError
                end
            end
          else ret None
      end
  end.

(** ** [random.sample], both branches

    [random_sample] above is the branch that moves items within a pool.
    CPython takes it when the population is no longer than [setsize k];
    for a longer one it draws positions of the population itself, and
    draws again while the position has been taken. A pick of at most 20
    takes the pool up to 85 items and the positions from 86 on.
    (CPython computes the exponent in [setsize] as
    [ceil(log(3 * k, 4))] on floats, which is this exponent for every [k]
    below [10 ^ 14].) *)
Module Random.

Definition setsize (k : Z) : Z :=
  21 + (if 5 <? k then 4 ^ ((Z.log2_up (3 * k) + 1) / 2) else 0).

(** [j = randbelow(n)], then [while j in selected: j = randbelow(n)]. The
    draws are those of the list [rng]; once they are used up the
    generator gives 0 for ever, and then a loop that finds 0 taken does
    not end: that is the one computation of the model that runs out of
    fuel. *)
Fixpoint draw_new (fuel : nat) (n : nat) (selected : gset nat) : M nat :=
  match fuel with
  | O => fun _ => OutOfFuel
  | S fuel =>
      do j <- randbelow n;
      if decide (j ∈ selected) then draw_new fuel n selected else ret j
  end.

(** [for i in range(k)] of the second branch, with [todo] passes left. *)
Fixpoint sample_positions {A} (todo n : nat) (selected : gset nat)
    (population : list A) : M (list A) :=
  match todo with
  | O => ret []
  | S todo' =>
      do j <- (fun s => draw_new (S (length (rng s))) n selected s);
      match population !! j with
      | Some x =>
          do rest <- sample_positions todo' n ({[j]} ∪ selected) population;
          ret (x :: rest)
      | None => raise IndexError
      end
  end.

Definition sample {A} (population : list A) (k : Z) : M (list A) :=
  if (0 <=? k) && (k <=? len population) then
    if len population <=? setsize k
    then sample_loop (Z.to_nat k) 0 (length population) population
    else sample_positions (Z.to_nat k) (length population) ∅ population
  else raise ValueError.

End Random.

(** ** [main], from the menu loop on *)

(** Lines 458-459 up to the start of the run: the pick of at most 20
    questions, by the pool, then lines 189-191. (For more than 85 ids
    CPython's pick draws positions instead, as in [main_start] below, and
    uses up other draws; what is proved of these lines holds in every
    state of the generator.) *)
Definition main_start_init (question_ids : list Z) : M unit :=
  do sample <- random_sample question_ids (Z.min 20 (len question_ids));
  modify (with_quiz_questions sample);;
  run_quiz_init question_ids.

(** Lines 458-459. *)
Definition main_start (question_ids : list Z) : M unit :=
  do sample <- Random.sample question_ids (Z.min 20 (len question_ids));
  modify (with_quiz_questions sample);;
  run_quiz question_ids.

(** The [while True] of lines 445-459. Each call of [select_mode] from
    here starts at the same depth, with [limit] nested calls to go. *)
Fixpoint main_loop (keys : list Z) (limit : nat) (fuel : nat) : M unit :=
  match fuel with
  | O => fun _ => OutOfFuel
  | S fuel =>
      do result <- select_mode keys limit;
      match result with
      | None => ret tt
      | Some (question_ids, _) =>
          if bool_decide (question_ids = []) then
            print ScrNoQuestions;; main_loop keys limit fuel
          else main_start question_ids;; main_loop keys limit fuel
      end
  end.

(* ===================================================================== *)
(** * Runs on concrete inputs *)
(* ===================================================================== *)

Definition q1 : Question := mkQuestion 1 (lit "Q1") [lit "a"; lit "b"] [0].
Definition q2 : Question :=
  mkQuestion 2 (lit "Q2") [lit "a"; lit "b"; lit "c"] [1; 2].
Definition bank : gmap Z Question := <[2 := q2]> (<[1 := q1]> ∅).

Definition boot (input : list N) (draws : list nat) : state :=
  Quiz_init bank ∅ Posix input draws.

Definition final_stats {A} (r : result A) : option Stats :=
  match r with
  | Ok _ s | Raised _ s | Blocked s => Some (stats s)
  | OutOfFuel => None
  end.

Definition printed {A} (r : result A) : list Screen :=
  match r with
  | Ok _ s | Raised _ s | Blocked s => stdout s
  | OutOfFuel => []
  end.

(** ** Malformed lines, in the words of the specification

    A line is malformed when it is blank, when what is left of it after
    stripping has no space, when the part before the first space is not an
    integer, or when the part after the first space has no [*]. *)
Inductive Malformed (int : str -> option Z) (line : str) : Prop :=
| Blank :
    Forall (fun c => PyStr.isspace c = true) line -> Malformed int line
| OnePart :
    32%N ∉ PyStr.strip line -> Malformed int line
| BadId before after :
    PyStr.strip line = before ++ 32%N :: after -> 32%N ∉ before ->
    int before = None -> Malformed int line
| NoStar before after :
    PyStr.strip line = before ++ 32%N :: after -> 32%N ∉ before ->
    42%N ∉ after -> Malformed int line.

(** The correct indices of a question point into its options. *)
Definition indices_in_range (q : Question) : Prop :=
  Forall (fun i => 0 <= i < len (options q)) (correct_indices q).

(** ** The wrapping cursor, in the words of the specification

    In a menu of [n] rows, up from row 0 goes to row [n - 1] and otherwise
    one row up; down from row [n - 1] goes to row 0 and otherwise one row
    down. *)
Definition cursor_up (n selected : Z) : Z :=
  if selected =? 0 then n - 1 else selected - 1.
Definition cursor_down (n selected : Z) : Z :=
  if selected =? n - 1 then 0 else selected + 1.

(** ** Reasoning about computations *)

(** [wp c Q E s]: run from [s], the computation [c] does not exhaust the
    model's fuel; if it returns [a] in [s'] then [Q a s']; if it raises
    [e] in [s'] then [E (Some e) s']; if it blocks on the keyboard in [s']
    then [E None s']. *)
Definition wp {A} (c : M A) (Q : A -> state -> Prop)
    (E : option exn -> state -> Prop) (s : state) : Prop :=
  match c s with
  | Ok a s' => Q a s'
  | Raised e s' => E (Some e) s'
  | Blocked s' => E None s'
  | OutOfFuel => False
  end.

(** [s'] differs from [s] at most in what has been printed and in what is
    left to type, which has not grown. *)
Definition io_eq (s s' : state) : Prop :=
  s' = with_stdout (stdout s') (with_stdin (stdin s') s)
  /\ (length (stdin s') <= length (stdin s))%nat.

(** A predicate that every outcome of a result satisfies; fuel never runs
    out. *)
Definition finally {A} (r : result A) (P : state -> Prop) : Prop :=
  match r with
  | Ok _ s | Raised _ s | Blocked s => P s
  | OutOfFuel => False
  end.

(** The per-question loop keeps the highlight on a row and only checks
    rows. *)
Definition on_rows (question : Question) (selected : Z) (checked : gset Z)
  : Prop :=
  0 <= selected < len (options question)
  /\ forall i, i ∈ checked -> 0 <= i < len (options question).

(** [s'] differs from [s] at most in the draws left to the generator. *)
Definition rng_eq (s s' : state) : Prop := s' = with_rng (rng s') s.

(** ** The tally during a run *)

(** The ids of a list that the Question Store holds: the others are stale
    and are skipped. *)
Definition answerable (store : gmap Z Question) (ids : list Z) : list Z :=
  filter (fun k => is_Some (store !! k)) ids.

(** The questions before the cursor. *)
Definition passed (s : state) : list Z :=
  take (Z.to_nat (current_index s)) (quiz_questions s).

(** Between passes of the run's loop: [total] is the length of the whole
    order, the cursor is within it, and [correct] and [wrong] count the
    questions before the cursor that the store holds. *)
Definition tally_inv (s : state) : Prop :=
  total (stats s) = len (quiz_questions s)
  /\ 0 <= current_index s <= len (quiz_questions s)
  /\ 0 <= correct (stats s) /\ 0 <= wrong (stats s)
  /\ correct (stats s) + wrong (stats s)
     = len (answerable (questions s) (passed s)).

(** What a run never changes once it has started; and what is left to
    type does not grow. *)
Definition same_run (s s' : state) : Prop :=
  questions s' = questions s /\ quiz_questions s' = quiz_questions s
  /\ total (stats s') = total (stats s)
  /\ (length (stdin s') <= length (stdin s))%nat.

(** At most [n] passes of the run's loop, keeping the state reached. *)
Fixpoint run_quiz_passes (n : nat) : M (control unit unit) :=
  match n with
  | O => ret (Continue tt)
  | S n =>
      do c <- run_quiz_body;
      match c with
      | Continue _ => run_quiz_passes n
      | Return _ => ret (Return tt)
      end
  end.

(* ===================================================================== *)
(** * ModuleLoader *)
(* ===================================================================== *)

(** ** The loader on a document of the expected shape

    A module record of the decoded document. A field that the record
    lacks is [None]; a field that is there has the type the program uses
    it at (an int id, two strings, a list of int ids). Documents of any
    other shape are the matter of [load_modules_json] below, of which
    this loader is the restriction to this shape
    ([load_modules_json_of_document]). *)
Record RawModule := mkRawModule {
  raw_id : option Z;
  raw_name : option str;
  raw_description : option str;
  raw_questions : option (list Z);
}.

(** The body of [for module in data['modules']], lines 83-87: a missing
    key raises [KeyError]. *)
Definition load_module (modules : gmap Z Module_) (module : RawModule)
  : exn + gmap Z Module_ :=
  match raw_name module, raw_description module, raw_questions module,
        raw_id module with
  | Some name, Some description, Some questions, Some id =>
      inr (<[id := mkModule name description questions]> modules)
  | _, _, _, _ => inl KeyError
  end.

Fixpoint load_module_list (modules : gmap Z Module_) (l : list RawModule)
  : exn + gmap Z Module_ :=
  match l with
  | [] => inr modules
  | module :: l =>
      match load_module modules module with
      | inr modules => load_module_list modules l
      | inl e => inl e
      end
  end.

(** [load_modules], on the decoded document: [None] is a document without
    the 'modules' key. *)
Definition load_modules (data : option (list RawModule))
  : exn + gmap Z Module_ :=
  match data with
  | None => inl KeyError
  | Some l => load_module_list ∅ l
  end.

(** ** The loader on any decoded document

    What [json.load] returns: [None], a bool, an int, a float, a string,
    a list, or a dict with string keys, given by its items. Reading and
    decoding the file, which can fail on its own, come before line 81 and
    are not modelled. *)
#[warnings="-register-all"]
Inductive json :=
| JNull
| JBool (b : bool)
| JInt (z : Z)
| JFloat (f : spec_float)
| JStr (s : str)
| JArr (items : list json)
| JObj (members : list (str * json)).

Fixpoint str_eqb (a b : str) : bool :=
  match a, b with
  | [], [] => true
  | x :: a', y :: b' => (x =? y)%N && str_eqb a' b'
  | _, _ => false
  end.

(** The value under a key of a dict. *)
Fixpoint member (key : str) (members : list (str * json)) : option json :=
  match members with
  | [] => None
  | (k, v) :: rest => if str_eqb k key then Some v else member key rest
  end.

(** [v[key]] for a string [key]: only a dict can be asked. *)
Definition subscript (v : json) (key : str) : exn + json :=
  match v with
  | JObj members =>
      match member key members with
      | Some x => inr x
      | None => inl KeyError
      end
  | _ => inl TypeError
  end.

(** What [for x in v] goes through: the items of a list, the keys of a
    dict, the characters of a string. *)
Definition iterate (v : json) : exn + list json :=
  match v with
  | JArr items => inr items
  | JObj members => inr ((fun kv => JStr (fst kv)) <$> members)
  | JStr s => inr ((fun c => JStr [c]) <$> s)
  | _ => inl TypeError
  end.

(** A list or a dict cannot be a key. *)
Definition hashable (v : json) : bool :=
  match v with
  | JArr _ | JObj _ => false
  | _ => true
  end.

(** Keys as a dict compares them: numbers by value, so that [1], [1.0]
    and [True] are one key; the one [NaN] of the decoder is the same key
    each time. *)
Definition as_int (v : json) : option Z :=
  match v with
  | JBool b => Some (if b then 1 else 0)
  | JInt z => Some z
  | _ => None
  end.

Definition float_eq_int (f : spec_float) (z : Z) : bool :=
  match f with
  | S754_zero _ => z =? 0
  | S754_finite sg m e =>
      let v := if sg then Z.neg m else Z.pos m in
      if 0 <=? e then z =? v * 2 ^ e else z * 2 ^ (- e) =? v
  | _ => false
  end.

Definition float_eq (f g : spec_float) : bool :=
  match f, g with
  | S754_nan, S754_nan => true
  | _, _ => SFeqb f g
  end.

Definition py_eq (a b : json) : bool :=
  match a, b with
  | JNull, JNull => true
  | JStr s, JStr t => str_eqb s t
  | JFloat f, JFloat g => float_eq f g
  | JFloat f, _ =>
      match as_int b with Some z => float_eq_int f z | None => false end
  | _, JFloat g =>
      match as_int a with Some z => float_eq_int g z | None => false end
  | _, _ =>
      match as_int a, as_int b with
      | Some y, Some z => y =? z
      | _, _ => false
      end
  end.

(** A dict, by its items in the order of insertion. [d[k] = v] puts [v]
    under the key that equals [k], which stays as it is, or else adds the
    item at the end. *)
Fixpoint dict_set {V} (k : json) (v : V) (d : list (json * V))
  : list (json * V) :=
  match d with
  | [] => [(k, v)]
  | (k', v') :: rest =>
      if py_eq k' k then (k', v) :: rest else (k', v') :: dict_set k v rest
  end.

Fixpoint dict_get {V} (k : json) (d : list (json * V)) : option V :=
  match d with
  | [] => None
  | (k', v') :: rest => if py_eq k' k then Some v' else dict_get k rest
  end.

(** The dict that lines 84-86 build for one module. *)
Record Entry := mkEntry {
  entry_name : json;
  entry_description : json;
  entry_questions : json;
}.

(** Lines 83-87, one pass: the three values of the right-hand side are
    taken first, in their order, then the id, and then the id is hashed
    for the assignment. *)
Definition load_entry (modules : list (json * Entry)) (module : json)
  : exn + list (json * Entry) :=
  match subscript module (lit "name") with
  | inl e => inl e
  | inr name =>
      match subscript module (lit "description") with
      | inl e => inl e
      | inr description =>
          match subscript module (lit "questions") with
          | inl e => inl e
          | inr questions =>
              match subscript module (lit "id") with
              | inl e => inl e
              | inr id =>
                  if hashable id
                  then inr (dict_set id
                              (mkEntry name description questions) modules)
                  else inl TypeError
              end
          end
      end
  end.

Fixpoint load_entries (modules : list (json * Entry)) (l : list json)
  : exn + list (json * Entry) :=
  match l with
  | [] => inr modules
  | module :: l =>
      match load_entry modules module with
      | inr modules => load_entries modules l
      | inl e => inl e
      end
  end.

(** [load_modules], lines 81-88, on the value that [json.load] gave. *)
Definition load_modules_json (data : json) : exn + list (json * Entry) :=
  match subscript data (lit "modules") with
  | inl e => inl e
  | inr v =>
      match iterate v with
      | inl e => inl e
      | inr l => load_entries [] l
      end
  end.

(** A document of the expected shape as a decoded value, and a module of
    the typed loader as an entry of the dict. *)
Definition json_of_module (m : RawModule) : json :=
  JObj (match raw_id m with Some k => [(lit "id", JInt k)] | None => [] end
        ++ match raw_name m with
           | Some n => [(lit "name", JStr n)]
           | None => []
           end
        ++ match raw_description m with
           | Some d => [(lit "description", JStr d)]
           | None => []
           end
        ++ match raw_questions m with
           | Some q => [(lit "questions", JArr (JInt <$> q))]
           | None => []
           end).

Definition json_of_document (data : option (list RawModule)) : json :=
  JObj (match data with
        | Some l => [(lit "modules", JArr (json_of_module <$> l))]
        | None => []
        end).

Definition entry_of_module (m : Module_) : Entry :=
  mkEntry (JStr (name m)) (JStr (description m))
    (JArr (JInt <$> mquestions m)).

(** A record that a pass of the loop accepts: a dict with the four keys
    whose id can be a key. *)
Definition complete (module : json) : Prop :=
  exists members id,
    module = JObj members
    /\ is_Some (member (lit "name") members)
    /\ is_Some (member (lit "description") members)
    /\ is_Some (member (lit "questions") members)
    /\ member (lit "id") members = Some id
    /\ hashable id = true.

(** A record that is a dict without one of the four keys. *)
Definition lacks_a_key (module : json) : Prop :=
  exists members,
    module = JObj members
    /\ (member (lit "name") members = None
        \/ member (lit "description") members = None
        \/ member (lit "questions") members = None
        \/ member (lit "id") members = None).

(** ** Further notions used in the statements *)

(** An option segment without its marker, and the rows of the marked
    segments, counted from [i]. *)
Definition unmark (seg : str) : str :=
  if PyStr.startswith (lit "[X]") seg then drop 3 seg else seg.

Fixpoint marked_from (i : Z) (segs : list str) : list Z :=
  match segs with
  | [] => []
  | seg :: segs =>
      if PyStr.startswith (lit "[X]") seg then i :: marked_from (i + 1) segs
      else marked_from (i + 1) segs
  end.

(** The text of a record after its id: the prompt, then each option
    segment behind a [*]. *)
Definition record_text (prompt : str) (segs : list str) : str :=
  prompt ++ concat ((fun seg => 42%N :: seg) <$> segs).

(** A line in the format of the question bank: once stripped, it is an
    id without spaces that [int] reads as [k], a space, a prompt without
    [*], and at least one option segment, each without [*]. *)
Definition Formatted (int : str -> option Z) (line : str) (k : Z)
    (prompt : str) (segs : list str) : Prop :=
  exists idstr,
    PyStr.strip line = idstr ++ 32%N :: record_text prompt segs
    /\ (32%N ∉ idstr) /\ int idstr = Some k
    /\ (42%N ∉ prompt) /\ Forall (fun seg => 42%N ∉ seg) segs /\ segs <> [].

(** The question that such a line describes. *)
Definition question_of (k : Z) (prompt : str) (segs : list str) : Question :=
  mkQuestion k prompt (unmark <$> segs) (marked_from 0 segs).

(** Every stored question has options. *)
Definition store_ok (store : gmap Z Question) : Prop :=
  map_Forall (fun _ q => options q <> []) store.

(** Data on which a session is safe: every stored question has options,
    there is a module, and neither the ids of the store nor the question
    list of a module are more than 85, the most for which the pick of 20
    takes the pool. *)
Definition session_ok (keys : list Z) (s : state) : Prop :=
  store_ok (questions s)
  /\ modules s <> ∅
  /\ len keys <= 85
  /\ map_Forall (fun _ md => len (mquestions md) <= 85) (modules s).

(** The tier by the exact quotient: top from 80%, middle from 60%. *)
Definition exact_tier (correct total : Z) : Tier :=
  if 4 * total <=? 5 * correct then Top
  else if 3 * total <=? 5 * correct then Middle
  else Bottom.

(** The tier as [show_summary] tests it, on floats. *)
Definition float_tier (correct total : Z) : Tier :=
  let r := SFdiv PyFloat.prec PyFloat.emax
             (PyFloat.of_int correct) (PyFloat.of_int total) in
  if PyFloat.ge r PyFloat.lit_0_8 then Top
  else if PyFloat.ge r PyFloat.lit_0_6 then Middle
  else Bottom.

(** The percentage as [show_summary] computes it for a positive total. *)
Definition float_percent (n total : Z) : option Z :=
  match PyFloat.mul_int
          (SFdiv PyFloat.prec PyFloat.emax
             (PyFloat.of_int n) (PyFloat.of_int total)) 100 with
  | S754_zero _ => Some 0
  | S754_finite sg m e =>
      let a := if 0 <=? e then Z.pos m * 2 ^ e else Z.pos m / 2 ^ (- e) in
      Some (if sg then - a else a)
  | _ => None
  end.

#[global] Instance Tier_eq_dec : EqDecision Tier.
Proof. solve_decision. Defined.

(** The percentage is the floor of the exact one, or one less where the
    exact one is a whole number. *)
Definition percent_near_floor (n total : Z) : bool :=
  match float_percent n total with
  | Some p =>
      (p =? 100 * n / total)
      || (((100 * n) mod total =? 0) && (p =? 100 * n / total - 1))
  | None => false
  end.

(** A check of [test n total] for every [total] from 1 to [bound] and
    every [n] from 0 to [total]. *)
Definition for_all_tallies (bound : Z) (test : Z -> Z -> bool) : bool :=
  forallb (fun total => forallb (fun n => test n total) (seqZ 0 (total + 1)))
    (seqZ 1 bound).

(* ===================================================================== *)
(** * Properties of the builtins *)
(* ===================================================================== *)

Arguments PyStr.isspace : simpl never.
Arguments lit : simpl never.

Lemma lstrip_head c r s : PyStr.lstrip s = c :: r -> PyStr.isspace c = false.
Proof.
  induction s as [|a s IH]; simpl; [discriminate|].
  destruct (PyStr.isspace a) eqn:Ha; [exact IH|].
  intros [= <- _]. exact Ha.
Qed.

Lemma lstrip_nil s :
  PyStr.lstrip s = [] <-> Forall (fun c => PyStr.isspace c = true) s.
Proof.
  induction s as [|a s IH]; simpl.
  - split; [constructor | reflexivity].
  - destruct (PyStr.isspace a) eqn:Ha.
    + rewrite IH. split; [by constructor | by inversion 1].
    + split; [discriminate | inversion 1; congruence].
Qed.

Lemma rstrip_nil s :
  PyStr.rstrip s = [] <-> Forall (fun c => PyStr.isspace c = true) s.
Proof.
  unfold PyStr.rstrip. split.
  - intros H. apply (f_equal (@rev N)) in H. rewrite rev_involutive in H.
    simpl in H. apply lstrip_nil in H.
    apply Forall_forall. intros x Hx. rewrite Forall_forall in H.
    apply H. apply list_elem_of_In, in_rev. rewrite rev_involutive.
    by apply list_elem_of_In.
  - intros H. assert (Hr : PyStr.lstrip (rev s) = []); [|by rewrite Hr].
    apply lstrip_nil, Forall_forall. intros x Hx. rewrite Forall_forall in H.
    apply H. by apply list_elem_of_In, in_rev, list_elem_of_In.
Qed.

Lemma strip_nil s :
  PyStr.strip s = [] <-> Forall (fun c => PyStr.isspace c = true) s.
Proof.
  unfold PyStr.strip. rewrite rstrip_nil. split.
  - intros H. apply lstrip_nil.
    destruct (PyStr.lstrip s) as [|c r] eqn:E; [done|].
    apply lstrip_head in E. inversion H; congruence.
  - intros H. apply lstrip_nil in H. rewrite H. constructor.
Qed.

Lemma split1_no_sep sep s : sep ∉ s -> PyStr.split1 sep s = [s].
Proof.
  induction s as [|c s IH]; simpl; [done|].
  intros H. apply not_elem_of_cons in H as [Hc Hs].
  destruct (N.eqb_spec c sep); [congruence|].
  by rewrite IH.
Qed.

Lemma split1_at_sep sep before after :
  sep ∉ before ->
  PyStr.split1 sep (before ++ sep :: after) = [before; after].
Proof.
  induction before as [|c s IH]; simpl.
  - by rewrite N.eqb_refl.
  - intros H. apply not_elem_of_cons in H as [Hc Hs].
    destruct (N.eqb_spec c sep); [congruence|].
    by rewrite IH.
Qed.

Lemma split_no_sep sep s : sep ∉ s -> PyStr.split sep s = [s].
Proof.
  induction s as [|c s IH]; simpl; [done|].
  intros H. apply not_elem_of_cons in H as [Hc Hs].
  destruct (N.eqb_spec c sep); [congruence|].
  by rewrite IH.
Qed.

Lemma split_length_pos sep s : (1 <= length (PyStr.split sep s))%nat.
Proof.
  induction s as [|c s IH]; simpl; [lia|].
  destruct (c =? sep)%N; simpl; [lia|].
  destruct (PyStr.split sep s); simpl in *; lia.
Qed.

Lemma split_with_sep sep s : sep ∈ s -> (2 <= length (PyStr.split sep s))%nat.
Proof.
  induction s as [|c s IH]; simpl; [by intros ?%elem_of_nil|].
  intros H. destruct (N.eqb_spec c sep) as [->|Hne].
  - simpl. pose proof (split_length_pos sep s). lia.
  - apply elem_of_cons in H as [?|H]; [congruence|].
    specialize (IH H). destruct (PyStr.split sep s); simpl in *; lia.
Qed.

(* ===================================================================== *)
(** * The question parser *)
(* ===================================================================== *)

Lemma parse_segment_range opts corr seg opts' corr' :
  parse_segment (opts, corr) seg = (opts', corr') ->
  Forall (fun i => 0 <= i < len opts) corr ->
  length opts' = S (length opts)
  /\ Forall (fun i => 0 <= i < len opts') corr'.
Proof.
  unfold parse_segment. intros H Hr.
  assert (Hw : Forall (fun i => 0 <= i < len (opts ++ [drop 3 seg])) corr
               /\ Forall (fun i => 0 <= i < len (opts ++ [seg])) corr).
  { split; (eapply Forall_impl; [exact Hr|]); unfold len; intros i Hi;
      rewrite length_app; simpl; lia. }
  destruct Hw as [Hw1 Hw2].
  destruct (PyStr.startswith _ seg); injection H as <- <-.
  - split; [rewrite length_app; simpl; lia|].
    apply Forall_app. split; [done|].
    constructor; [|constructor]. unfold len. rewrite length_app. simpl. lia.
  - split; [rewrite length_app; simpl; lia | done].
Qed.

Lemma parse_segments_range segs : forall opts corr opts' corr',
  fold_left parse_segment segs (opts, corr) = (opts', corr') ->
  Forall (fun i => 0 <= i < len opts) corr ->
  length opts' = (length opts + length segs)%nat
  /\ Forall (fun i => 0 <= i < len opts') corr'.
Proof.
  induction segs as [|seg segs IH]; intros opts corr opts' corr' H Hr.
  - simpl in H. injection H as <- <-. split; [simpl; lia | done].
  - cbn [fold_left] in H.
    destruct (parse_segment (opts, corr) seg) as [o c] eqn:E.
    apply parse_segment_range in E as [El Ef]; [|done].
    apply IH in H as [Hl Hf]; [|done].
    split; [|done]. rewrite Hl, El. simpl. lia.
Qed.

(** What one line can do to the mapping: leave an entry alone, or store a
    question under its own id, with options and with indices in range. *)
Lemma parse_line_lookup int qs line k q :
  parse_line int qs line !! k = Some q ->
  qs !! k = Some q
  \/ (id q = k /\ options q <> [] /\ indices_in_range q).
Proof.
  unfold parse_line.
  case_bool_decide; [by left|].
  destruct (_ <? _)%nat; [by left|].
  destruct (int _) as [q_id|]; [|by left].
  destruct (_ <? _)%nat; [by left|].
  destruct (fold_left _ _ _) as [opts corr] eqn:E.
  case_bool_decide as Hne; [by left|].
  destruct (decide (q_id = k)) as [->|Hk].
  - rewrite lookup_insert_eq. intros [= <-]. right. simpl.
    split; [done|]. split; [done|].
    apply parse_segments_range in E as [_ E]; [exact E | constructor].
  - rewrite lookup_insert_ne by done. by left.
Qed.

Lemma parse_lines_lookup int lines : forall qs k q,
  fold_left (parse_line int) lines qs !! k = Some q ->
  qs !! k = Some q
  \/ (id q = k /\ options q <> [] /\ indices_in_range q).
Proof.
  induction lines as [|line lines IH]; intros qs k q H; simpl in H.
  - by left.
  - apply IH in H as [H|H]; [|by right].
    by apply parse_line_lookup in H.
Qed.

Lemma parsed_question_ok int lines k q :
  parse_questions int lines !! k = Some q ->
  id q = k /\ options q <> [] /\ indices_in_range q.
Proof.
  intros H. apply parse_lines_lookup in H as [H|H]; [|done].
  by rewrite lookup_empty in H.
Qed.

Lemma malformed_line_skipped int qs line :
  Malformed int line -> parse_line int qs line = qs.
Proof.
  intros [Hb | Hone | before after Hs Hb Hi | before after Hs Hb Hstar];
    unfold parse_line.
  - apply strip_nil in Hb. rewrite Hb. done.
  - case_bool_decide; [done|]. by rewrite split1_no_sep.
  - case_bool_decide; [done|]. rewrite Hs, split1_at_sep by done. simpl.
    by rewrite Hi.
  - case_bool_decide; [done|]. rewrite Hs, split1_at_sep by done. simpl.
    destruct (int before); [|done]. by rewrite split_no_sep.
Qed.

(** The four kinds are all there is: any other line stores a question. *)
Lemma wellformed_line_stored int qs line :
  ~ Malformed int line ->
  exists q, parse_line int qs line = <[id q := q]> qs /\ options q <> [].
Proof.
  intros Hw. unfold parse_line.
  case_bool_decide as Hblank;
    [exfalso; by apply Hw, Blank, strip_nil|].
  destruct (decide (32%N ∈ PyStr.strip line)) as [Hin|Hnin];
    [|exfalso; by apply Hw, OnePart].
  apply list_elem_of_split_l in Hin as (before & after & Hs & Hnb).
  rewrite Hs, split1_at_sep by done. simpl.
  destruct (int before) as [q_id|] eqn:Hid;
    [|exfalso; by eapply Hw, BadId].
  destruct (decide (42%N ∈ after)) as [Hstar|Hnostar];
    [|exfalso; by eapply Hw, NoStar].
  apply (split_with_sep 42) in Hstar.
  destruct (Nat.ltb_spec (length (PyStr.split 42 after)) 2); [lia|].
  destruct (fold_left _ _ _) as [opts corr] eqn:E.
  apply parse_segments_range in E as [Hlen _]; [|constructor].
  assert (Hopts : opts <> []).
  { intros ->. destruct (PyStr.split 42 after) as [|? [|? ?]];
      simpl in *; lia. }
  rewrite bool_decide_eq_false_2 by done.
  by eexists (mkQuestion q_id _ opts corr).
Qed.

(** C3, as amended. Every question stored in the mapping that
    [parse_questions] returns has all its correct indices inside the range
    of its option indices, 0 up to the number of options less one,
    whatever [int] does; and that set of indices can be empty, as it is
    for a line whose options carry no [[X]] marker. *)
Theorem parsed_correct_indices_in_range :
  (forall int lines k q,
     parse_questions int lines !! k = Some q ->
     Forall (fun i => 0 <= i < len (options q)) (correct_indices q))
  /\ (exists q,
        parse_questions PyStr.int [lit "5 Q*yes*no"] !! 5 = Some q
        /\ options q = [lit "yes"; lit "no"]
        /\ correct_indices q = []).
Proof.
  split.
  - intros int lines k q H. by apply parsed_question_ok in H as (_ & _ & H).
  - eexists. split; [vm_compute; reflexivity|]. by split.
Qed.

Lemma parsed_correct_indices_in_range_witness :
  parse_questions PyStr.int [lit "7 Q*a*[X]b*[X]c"] !! 7
  = Some (mkQuestion 7 (lit "Q") [lit "a"; lit "b"; lit "c"] [1; 2])
  /\ Forall (fun i => 0 <= i < 3) [1; 2].
Proof.
  split; [vm_compute; reflexivity|].
  apply (proj1 parsed_correct_indices_in_range PyStr.int
           [lit "7 Q*a*[X]b*[X]c"] 7
           (mkQuestion 7 (lit "Q") [lit "a"; lit "b"; lit "c"] [1; 2])).
  vm_compute. reflexivity.
Defined.

(** C3 as stated fails: a line none of whose options carries the [[X]]
    marker is stored with an empty list of correct indices. *)
Lemma parser_stores_empty_correct_set :
  parse_questions PyStr.int [lit "1 Q*a*b"] !! 1
  = Some (mkQuestion 1 (lit "Q") [lit "a"; lit "b"] []).
Proof. vm_compute. reflexivity. Qed.

(** C8. A malformed line (blank, without a space once stripped, with a
    part before the first space that [int] rejects, or without [*] after
    the first space) leaves the mapping as it was, whatever [int] does on
    other strings; the parser, a total function here, raises nothing, and
    the lines before and after are parsed as if the line were not there. *)
Theorem malformed_line_adds_no_entry int line :
  Malformed int line ->
  (forall qs, parse_line int qs line = qs)
  /\ (forall before after,
        parse_questions int (before ++ line :: after)
        = parse_questions int (before ++ after)).
Proof.
  intros Hm. split.
  - intros qs. by apply malformed_line_skipped.
  - intros before after. unfold parse_questions.
    rewrite !fold_left_app. cbn [fold_left].
    by rewrite malformed_line_skipped.
Qed.

Lemma malformed_line_adds_no_entry_witness :
  Malformed PyStr.int (lit "x12 Q*a")
  /\ parse_questions PyStr.int [lit "1 Q*[X]a"; lit "x12 Q*a"; lit "2 R*b"]
     = parse_questions PyStr.int [lit "1 Q*[X]a"; lit "2 R*b"].
Proof.
  assert (Hm : Malformed PyStr.int (lit "x12 Q*a")).
  { apply (BadId PyStr.int (lit "x12 Q*a") (lit "x12") (lit "Q*a")).
    - vm_compute. reflexivity.
    - apply (bool_decide_unpack _). vm_compute. exact I.
    - vm_compute. reflexivity. }
  split; [exact Hm|].
  exact (proj2 (malformed_line_adds_no_entry PyStr.int (lit "x12 Q*a") Hm)
           [lit "1 Q*[X]a"] [lit "2 R*b"]).
Defined.

(** C4. [check_answers] holds exactly when the submitted list and the
    correct list have the same elements: the order and the repetitions of
    the submission do not matter, and a submission that misses a correct
    index or holds an incorrect one is judged wrong. *)
Theorem check_answers_iff_same_set :
  (forall user_answers correct_indices,
     check_answers user_answers correct_indices = true
     <-> (forall i, i ∈ user_answers <-> i ∈ correct_indices))
  /\ check_answers [2; 0] [0; 2] = true
  /\ check_answers [0; 2; 0] [0; 2] = true
  /\ check_answers [0] [0; 2] = false
  /\ check_answers [0; 1; 2] [0; 2] = false.
Proof.
  split; [|by vm_compute].
  intros u c. unfold check_answers. rewrite bool_decide_eq_true.
  rewrite set_eq. by setoid_rewrite elem_of_list_to_set.
Qed.

(* ===================================================================== *)
(** * Computations *)
(* ===================================================================== *)

Lemma wp_ret {A} (a : A) Q E s : Q a s -> wp (ret a) Q E s.
Proof. done. Qed.

Lemma wp_raise {A} e (Q : A -> state -> Prop) E s :
  E (Some e) s -> wp (raise e) Q E s.
Proof. done. Qed.

Lemma wp_bind {A B} (c : M A) (k : A -> M B) Q E s :
  wp c (fun a s' => wp (k a) Q E s') E s -> wp (bind c k) Q E s.
Proof. unfold wp, bind. by destruct (c s). Qed.

Lemma wp_get Q E s : Q s s -> wp get Q E s.
Proof. done. Qed.

Lemma wp_modify f Q E s : Q tt (f s) -> wp (modify f) Q E s.
Proof. done. Qed.

Lemma wp_mono {A} (c : M A) (Q Q' : A -> state -> Prop) E E' s :
  wp c Q E s ->
  (forall a s', Q a s' -> Q' a s') ->
  (forall e s', E e s' -> E' e s') ->
  wp c Q' E' s.
Proof. unfold wp. destruct (c s); auto. Qed.

Lemma wp_finally {A} (c : M A) (P : state -> Prop) s :
  wp c (fun _ => P) (fun _ => P) s <-> finally (c s) P.
Proof. unfold wp, finally. by destruct (c s). Qed.

Lemma io_eq_refl s : io_eq s s.
Proof. by destruct s. Qed.

Lemma io_eq_trans s1 s2 s3 : io_eq s1 s2 -> io_eq s2 s3 -> io_eq s1 s3.
Proof.
  unfold io_eq. intros [H12 L12] [H23 L23]. split; [|lia].
  rewrite H23 at 1. rewrite H12 at 1. by destruct s1.
Qed.

Lemma io_eq_stdin i s :
  (length i <= length (stdin s))%nat -> io_eq s (with_stdin i s).
Proof. by destruct s. Qed.

Lemma io_eq_stdout o s : io_eq s (with_stdout o s).
Proof. by destruct s. Qed.

Lemma io_eq_fields s s' :
  io_eq s s' ->
  questions s' = questions s /\ modules s' = modules s
  /\ current_index s' = current_index s
  /\ quiz_questions s' = quiz_questions s /\ stats s' = stats s
  /\ platform s' = platform s /\ rng s' = rng s.
Proof. unfold io_eq. intros [-> _]. by destruct s. Qed.

Lemma io_eq_reads s s' :
  io_eq s s' -> (length (stdin s') <= length (stdin s))%nat.
Proof. by intros [_ ?]. Qed.

(** *** The input reader *)

Lemma wp_print x Q E s :
  Q tt (with_stdout (stdout s ++ [x]) s) -> wp (print x) Q E s.
Proof. done. Qed.

Lemma wp_read1 Q E s :
  (forall c r, stdin s = c :: r -> Q c (with_stdin r s)) ->
  (stdin s = [] -> E None s) ->
  wp read1 Q E s.
Proof.
  unfold wp, read1. intros HQ HE. destruct (stdin s) eqn:Hs; auto.
Qed.

(** [get_arrow_key] raises nothing, reads at least one character when it
    returns, and prints nothing. *)
Lemma wp_get_arrow_key Q (E : option exn -> state -> Prop) s :
  (forall key s', io_eq s s' -> stdout s' = stdout s ->
                  (length (stdin s') < length (stdin s))%nat -> Q key s') ->
  (forall s', io_eq s s' -> stdout s' = stdout s -> E None s') ->
  wp get_arrow_key Q E s.
Proof.
  intros HQ HE. unfold get_arrow_key. apply wp_bind, wp_get.
  (* after reading down to [i], a proper suffix of the input *)
  assert (Hq : forall k i, (length i < length (stdin s))%nat ->
                           Q k (with_stdin i s)).
  { intros k i Hi. apply HQ; [apply io_eq_stdin; lia | by destruct s|].
    by destruct s. }
  assert (He : forall i, (length i <= length (stdin s))%nat ->
                         E None (with_stdin i s)).
  { intros i Hi. apply HE; [by apply io_eq_stdin | by destruct s]. }
  assert (He0 : E None s) by (apply HE; [apply io_eq_refl | done]).
  assert (Hw : forall i j, with_stdin i (with_stdin j s) = with_stdin i s)
    by (intros; by destruct s).
  destruct (platform s).
  - apply wp_bind, wp_read1; [|done].
    intros key r Hs. destruct (key =? 224)%N.
    + apply wp_bind, wp_read1.
      * intros key2 r2 Hs2. simpl in Hs2. subst r. rewrite Hw.
        repeat (destruct (_ =? _)%N;
                [apply wp_ret, Hq; rewrite Hs; simpl; lia|]).
        apply wp_ret, Hq. rewrite Hs. simpl. lia.
      * intros _. apply He. rewrite Hs. simpl. lia.
    + repeat (destruct (_ =? _)%N;
              [apply wp_ret, Hq; rewrite Hs; simpl; lia|]).
      apply wp_ret, Hq. rewrite Hs. simpl. lia.
  - apply wp_bind, wp_read1; [|done].
    intros key r Hs. destruct (key =? 27)%N.
    + apply wp_bind, wp_read1.
      * intros next1 r1 Hs1. simpl in Hs1. subst r. rewrite Hw.
        destruct (next1 =? 91)%N;
          [|apply wp_ret, Hq; rewrite Hs; simpl; lia].
        apply wp_bind, wp_read1.
        -- intros next2 r2 Hs2. simpl in Hs2. subst r1. rewrite Hw.
           repeat (destruct (_ =? _)%N;
                   [apply wp_ret, Hq; rewrite Hs; simpl; lia|]).
           apply wp_ret, Hq. rewrite Hs. simpl. lia.
        -- intros _. apply He. rewrite Hs. simpl. lia.
      * intros _. apply He. rewrite Hs. simpl. lia.
    + repeat (destruct (_ =? _)%N;
              [apply wp_ret, Hq; rewrite Hs; simpl; lia|]).
      apply wp_ret, Hq. rewrite Hs. simpl. lia.
Qed.

Lemma skip_to_enter_shorter input r :
  skip_to_enter input = Some r -> (length r < length input)%nat.
Proof.
  induction input as [|c input IH]; simpl; [discriminate|].
  destruct (c =? 13)%N.
  - intros [= ->]. lia.
  - intros H%IH. lia.
Qed.

Lemma wp_wait_for_enter Q (E : option exn -> state -> Prop) s :
  (forall s', io_eq s s' -> stdout s' = stdout s ->
              (length (stdin s') < length (stdin s))%nat -> Q tt s') ->
  (forall s', io_eq s s' -> stdout s' = stdout s -> E None s') ->
  wp wait_for_enter Q E s.
Proof.
  intros HQ HE. unfold wp, wait_for_enter.
  destruct (skip_to_enter (stdin s)) as [r|] eqn:Hr.
  - apply skip_to_enter_shorter in Hr.
    apply HQ; [apply io_eq_stdin; lia | by destruct s|].
    by destruct s.
  - apply HE; [apply io_eq_stdin; simpl; lia | by destruct s].
Qed.

Lemma wp_py_mod a b Q (E : option exn -> state -> Prop) s :
  (b <> 0 -> Q (a mod b) s) ->
  (b = 0 -> E (Some ZeroDivisionError) s) ->
  wp (py_mod a b) Q E s.
Proof.
  intros HQ HE. unfold py_mod. destruct (Z.eqb_spec b 0); [apply HE | apply HQ]; done.
Qed.

(** *** The per-question loop *)

(** What the key does, whatever the question: the state is untouched, and
    an answer comes only from enter on a checked set that is not empty. *)
Lemma show_question_on_key_returns question key selected checked s :
  wp (show_question_on_key question key selected checked)
     (fun c s' => s' = s /\
        match c with
        | Continue _ => True
        | Return None => key = Esc
        | Return (Some answer) =>
            key = Enter /\ checked <> ∅ /\ answer = elements checked
        end)
     (fun e s' => s' = s) s.
Proof.
  destruct key; unfold show_question_on_key.
  - apply wp_bind, wp_py_mod; [intros _; by apply wp_ret | done].
  - apply wp_bind, wp_py_mod; [intros _; by apply wp_ret | done].
  - case_decide; by apply wp_ret.
  - by apply wp_ret.
  - case_decide; by apply wp_ret.
  - by apply wp_ret.
Qed.

(** On a question with options, the key raises nothing and keeps the
    highlight and the checked set on the rows of the question. *)
Lemma show_question_on_key_rows question key selected checked s :
  on_rows question selected checked ->
  wp (show_question_on_key question key selected checked)
     (fun c s' =>
        match c with
        | Continue (selected', checked') => on_rows question selected' checked'
        | Return _ => True
        end)
     (fun _ _ => False) s.
Proof.
  intros [Hsel Hchk].
  assert (Hn : len (options question) <> 0) by lia.
  destruct key; unfold show_question_on_key.
  - apply wp_bind, wp_py_mod; [intros _|done]. apply wp_ret. split; [|done].
    apply Z.mod_pos_bound. lia.
  - apply wp_bind, wp_py_mod; [intros _|done]. apply wp_ret. split; [|done].
    apply Z.mod_pos_bound. lia.
  - case_decide; by apply wp_ret.
  - by apply wp_ret.
  - case_decide; apply wp_ret; (split; [done|]); intros i Hi.
    + apply elem_of_difference in Hi as [Hi _]. by apply Hchk.
    + apply elem_of_union in Hi as [Hi|Hi]; [by apply Hchk|].
      apply elem_of_singleton in Hi. by subst.
  - by apply wp_ret.
Qed.

Lemma wp_and {A} (c : M A) (Q1 Q2 : A -> state -> Prop) E1 E2 s :
  wp c Q1 E1 s -> wp c Q2 E2 s ->
  wp c (fun a s' => Q1 a s' /\ Q2 a s') (fun e s' => E1 e s' /\ E2 e s') s.
Proof. unfold wp. by destruct (c s). Qed.

(** One pass reads at least one character when it goes on or returns. *)
Lemma show_question_body_spec question number selected checked s :
  wp (show_question_body question number selected checked)
     (fun c s' =>
        io_eq s s' /\ (length (stdin s') < length (stdin s))%nat
        /\ stdout s' = stdout s ++ [ScrQuestion number (len (quiz_questions s))
                                      question selected checked]
        /\ match c with
           | Continue (selected', checked') =>
               on_rows question selected checked ->
               on_rows question selected' checked'
           | Return None => True
           | Return (Some answer) =>
               checked <> ∅ /\ answer = elements checked
           end)
     (fun e s' =>
        io_eq s s'
        /\ (on_rows question selected checked -> e = None)) s.
Proof.
  unfold show_question_body. apply wp_bind, wp_get, wp_bind, wp_print.
  set (s1 := with_stdout _ s).
  assert (H1 : io_eq s s1) by apply io_eq_stdout.
  assert (Hin : stdin s1 = stdin s) by by destruct s.
  assert (Hout : stdout s1 = stdout s ++ [ScrQuestion number
             (len (quiz_questions s)) question selected checked])
    by by destruct s.
  apply wp_bind, wp_get_arrow_key.
  - intros key s2 H2 Ho2 Hl2. rewrite Hin in Hl2.
    pose proof (show_question_on_key_returns question key selected checked s2)
      as Hret.
    destruct (decide (on_rows question selected checked)) as [Hrows|Hrows].
    + pose proof (show_question_on_key_rows question key selected checked s2
                    Hrows) as Hr.
      eapply wp_mono; [exact (wp_and _ _ _ _ _ _ Hret Hr)| |].
      * intros c s' [[-> Hc] Hc']. split; [by eapply io_eq_trans|].
        split; [lia|]. split; [congruence|].
        destruct c as [[sel' chk']|[ans|]]; [done| |done].
        by destruct Hc as (_ & ? & ?).
      * by intros e s' [_ []].
    + eapply wp_mono; [exact Hret| |].
      * intros c s' [-> Hc]. split; [by eapply io_eq_trans|].
        split; [lia|]. split; [congruence|].
        destruct c as [[sel' chk']|[ans|]]; [done| |done].
        by destruct Hc as (_ & ? & ?).
      * intros e s' ->. split; [by eapply io_eq_trans | done].
  - intros s2 H2 Ho2. split; [by eapply io_eq_trans | done].
Qed.

Lemma elements_answer (checked : gset Z) :
  checked <> ∅ -> elements checked <> [] /\ NoDup (elements checked).
Proof.
  intros Hne. split; [|apply NoDup_elements].
  intros He. apply Hne. by apply elements_empty_inv, leibniz_equiv in He.
Qed.

(** With fuel beyond the characters left, the loop never runs out of it;
    it raises nothing on a question with options; and what it returns,
    when it returns an answer, is a valid answer. *)
Lemma show_question_loop_spec question number fuel :
  forall selected checked s,
  (length (stdin s) < fuel)%nat ->
  wp (show_question_loop fuel question number selected checked)
     (fun r s' =>
        io_eq s s' /\ (length (stdin s') < length (stdin s))%nat
        /\ forall answer, r = Some answer ->
             answer <> [] /\ NoDup answer
             /\ (on_rows question selected checked ->
                 Forall (fun i => 0 <= i < len (options question)) answer))
     (fun e s' =>
        io_eq s s' /\ (on_rows question selected checked -> e = None)) s.
Proof.
  induction fuel as [|fuel IH]; intros selected checked s Hfuel; [lia|].
  cbn [show_question_loop]. apply wp_bind.
  eapply wp_mono;
    [apply show_question_body_spec | | intros e s' H; exact H].
  intros c s1 (Hio & Hlen & _ & Hc).
  destruct c as [[selected' checked']|r].
  - eapply wp_mono; [apply (IH selected' checked' s1); lia | |].
    + intros r s2 (Hio2 & Hlen2 & Hans).
      split; [by eapply io_eq_trans|]. split; [lia|].
      intros answer Hr. destruct (Hans answer Hr) as (? & ? & Hrange).
      split; [done|]. split; [done|]. intros Hrows. by apply Hrange, Hc.
    + intros e s2 [Hio2 He]. split; [by eapply io_eq_trans|].
      intros Hrows. by apply He, Hc.
  - apply wp_ret. split; [done|]. split; [done|].
    intros answer ->. destruct Hc as [Hne ->].
    destruct (elements_answer checked Hne) as [? ?].
    split; [done|]. split; [done|]. intros [_ Hrows].
    apply Forall_forall. intros i Hi. apply Hrows. by apply elem_of_elements.
Qed.

Lemma show_question_loop_fuel question number fuel1 :
  forall fuel2 selected checked s,
  (length (stdin s) < fuel1)%nat -> (length (stdin s) < fuel2)%nat ->
  show_question_loop fuel1 question number selected checked s
  = show_question_loop fuel2 question number selected checked s.
Proof.
  induction fuel1 as [|fuel1 IH]; intros fuel2 selected checked s H1 H2;
    [lia|].
  destruct fuel2 as [|fuel2]; [lia|].
  cbn [show_question_loop]. unfold bind.
  pose proof (show_question_body_spec question number selected checked s)
    as Hb.
  unfold wp in Hb.
  destruct (show_question_body question number selected checked s)
    as [c s1|e s1|s1|]; try done.
  destruct c as [[selected' checked']|r]; [|done].
  destruct Hb as (_ & Hlen & _). apply IH; lia.
Qed.

(** The loop, one pass at a time. *)
Lemma show_question_from_unfold question number selected checked s :
  show_question_from question number selected checked s
  = (do c <- show_question_body question number selected checked;
     match c with
     | Continue (selected', checked') =>
         show_question_from question number selected' checked'
     | Return a => ret a
     end) s.
Proof.
  unfold show_question_from at 1. cbn [show_question_loop]. unfold bind.
  pose proof (show_question_body_spec question number selected checked s)
    as Hb.
  unfold wp in Hb.
  destruct (show_question_body question number selected checked s)
    as [c s1|e s1|s1|]; try done.
  destruct c as [[selected' checked']|r]; [|done].
  destruct Hb as (_ & Hlen & _). unfold show_question_from.
  apply show_question_loop_fuel; lia.
Qed.

Lemma show_question_from_spec question number selected checked s :
  wp (show_question_from question number selected checked)
     (fun r s' =>
        io_eq s s' /\ (length (stdin s') < length (stdin s))%nat
        /\ forall answer, r = Some answer ->
             answer <> [] /\ NoDup answer
             /\ (on_rows question selected checked ->
                 Forall (fun i => 0 <= i < len (options question)) answer))
     (fun e s' =>
        io_eq s s' /\ (on_rows question selected checked -> e = None)) s.
Proof.
  unfold show_question_from.
  pose proof (show_question_loop_spec question number (S (length (stdin s)))
                selected checked s) as H.
  unfold wp in *. apply H. lia.
Qed.

(** What one pass does when the key read is [key]. *)
Lemma show_question_body_key question number selected checked s key s1 :
  get_arrow_key
    (with_stdout (stdout s ++ [ScrQuestion number (len (quiz_questions s))
                                 question selected checked]) s)
  = Ok key s1 ->
  show_question_body question number selected checked s
  = show_question_on_key question key selected checked s1.
Proof.
  intros Hk. unfold show_question_body, bind, get, print, modify.
  by rewrite Hk.
Qed.

(** C7. In each of the three cursor loops (the mode menu, the module menu
    and the options of a question), with [n] rows and the cursor on a row:
    up from row 0 goes to row [n - 1], down from row [n - 1] goes to row 0,
    and otherwise up and down move the cursor by one; nothing else
    changes and nothing is raised. *)
Theorem menu_cursor_wraps (n selected : Z) question module_list checked s :
  0 <= selected < n ->
  (n = len mode_options ->
   select_mode_on_key Up selected s
   = Ok (Continue (cursor_up n selected)) s
   /\ select_mode_on_key Down selected s
      = Ok (Continue (cursor_down n selected)) s)
  /\ (n = len module_list ->
      select_module_on_key module_list Up selected s
      = Ok (Continue (cursor_up n selected)) s
      /\ select_module_on_key module_list Down selected s
         = Ok (Continue (cursor_down n selected)) s)
  /\ (n = len (options question) ->
      show_question_on_key question Up selected checked s
      = Ok (Continue (cursor_up n selected, checked)) s
      /\ show_question_on_key question Down selected checked s
         = Ok (Continue (cursor_down n selected, checked)) s).
Proof.
  intros Hsel.
  assert (Hup : (selected - 1) mod n = cursor_up n selected).
  { unfold cursor_up. destruct (Z.eqb_spec selected 0) as [->|Hne].
    - replace (0 - 1) with (-1 * n + (n - 1)) by lia.
      rewrite Z.add_comm, Z.mod_add by lia. apply Z.mod_small. lia.
    - apply Z.mod_small. lia. }
  assert (Hdown : (selected + 1) mod n = cursor_down n selected).
  { unfold cursor_down. destruct (Z.eqb_spec selected (n - 1)) as [->|Hne].
    - replace (n - 1 + 1) with (0 + 1 * n) by lia.
      rewrite Z.mod_add by lia. apply Z.mod_small. lia.
    - apply Z.mod_small. lia. }
  assert (Hn : (n =? 0) = false) by (apply Z.eqb_neq; lia).
  split; [|split]; intros Hlen;
    unfold select_mode_on_key, select_module_on_key, show_question_on_key;
    rewrite <- Hlen; unfold py_mod, bind, ret;
    rewrite Hn, Hup, Hdown; split; reflexivity.
Qed.

Lemma menu_cursor_wraps_witness :
  0 <= 0 < 3
  /\ select_mode_on_key Up 0 (boot [] []) = Ok (Continue 2) (boot [] [])
  /\ select_module_on_key [10; 20; 30] Down 2 (boot [] [])
     = Ok (Continue 0) (boot [] [])
  /\ show_question_on_key q2 Up 0 ∅ (boot [] [])
     = Ok (Continue (2, ∅)) (boot [] []).
Proof.
  split; [lia|]. split; [|split].
  - apply (menu_cursor_wraps 3 0 q2 [10; 20; 30] ∅ (boot [] []));
      [lia | reflexivity].
  - apply (menu_cursor_wraps 3 2 q2 [10; 20; 30] ∅ (boot [] []));
      [lia | reflexivity].
  - apply (menu_cursor_wraps 3 0 q2 [10; 20; 30] ∅ (boot [] []));
      [lia | reflexivity].
Defined.

(** C6. In the per-question loop, when the key read is enter and the
    checked set is not empty, the loop returns the checked set; when the
    key is enter and the checked set is empty, nothing is confirmed and
    the loop goes on from the same highlight and the same empty set; when
    the key is escape, the loop returns the absent answer [None], which is
    no checked set. An answer that the loop returns is never empty. *)
Theorem enter_submits_only_a_checked_set
    question number selected checked s key s1 :
  get_arrow_key
    (with_stdout (stdout s ++ [ScrQuestion number (len (quiz_questions s))
                                 question selected checked]) s)
  = Ok key s1 ->
  (key = Enter -> checked <> ∅ ->
   show_question_from question number selected checked s
   = Ok (Some (elements checked)) s1)
  /\ (key = Enter -> checked = ∅ ->
      show_question_from question number selected checked s
      = show_question_from question number selected checked s1)
  /\ (key = Esc ->
      show_question_from question number selected checked s = Ok None s1)
  /\ (forall answer s',
        show_question_from question number selected checked s
        = Ok (Some answer) s' -> answer <> [])
  /\ (forall answer : list Z, None <> Some answer).
Proof.
  intros Hkey.
  pose proof (show_question_body_key _ _ _ _ _ _ _ Hkey) as Hbody.
  repeat split.
  - intros -> Hne. rewrite show_question_from_unfold. unfold bind.
    rewrite Hbody. unfold show_question_on_key. by rewrite decide_True.
  - intros -> He. rewrite show_question_from_unfold. unfold bind.
    rewrite Hbody. unfold show_question_on_key.
    rewrite decide_False by (intros Hne; by apply Hne). done.
  - intros ->. rewrite show_question_from_unfold. unfold bind.
    by rewrite Hbody.
  - intros answer s' Hr.
    pose proof (show_question_from_spec question number selected checked s)
      as H.
    unfold wp in H. rewrite Hr in H. destruct H as (_ & _ & H).
    by destruct (H answer eq_refl).
  - done.
Qed.

Lemma enter_submits_only_a_checked_set_witness :
  get_arrow_key
    (with_stdout [ScrQuestion 1 0 q1 0 {[0]}] (boot [13; 13]%N []))
  = Ok Enter (with_stdout [ScrQuestion 1 0 q1 0 {[0]}] (boot [13]%N []))
  /\ show_question_from q1 1 0 {[0]} (boot [13; 13]%N [])
     = Ok (Some (elements ({[0]} : gset Z)))
          (with_stdout [ScrQuestion 1 0 q1 0 {[0]}] (boot [13]%N [])).
Proof.
  split; [reflexivity|].
  apply (enter_submits_only_a_checked_set q1 1 0 {[0]} (boot [13; 13]%N [])
           Enter (with_stdout [ScrQuestion 1 0 q1 0 {[0]}] (boot [13]%N [])));
    [reflexivity | reflexivity | ].
  apply (bool_decide_unpack _). vm_compute. exact I.
Defined.

Lemma first_row question : options question <> [] -> on_rows question 0 ∅.
Proof.
  intros Hopt. split; [|set_solver]. unfold len.
  destruct (options question); [done|]. simpl. lia.
Qed.

(** C10, amended. Whenever [show_question] returns a present answer, the
    answer is not empty and has no repeated element. For a question that
    has options it holds only option indices of that question, 0 up to
    the number of options less one; on such a question the loop raises
    nothing, and it never exhausts the fuel of the model. Every question
    that the parser stores is such a question, so all of this holds of
    every question that a run over a parsed store displays. For a
    question without options the indices are not in range, as the
    example after the witness shows. *)
Theorem returned_answer_is_valid number s :
  (forall question,
     options question <> [] ->
     (forall answer s',
        show_question question number s = Ok (Some answer) s' ->
        answer <> [] /\ NoDup answer
        /\ Forall (fun i => 0 <= i < len (options question)) answer)
     /\ (forall e s', show_question question number s <> Raised e s')
     /\ show_question question number s <> OutOfFuel)
  /\ (forall int lines k question answer s',
        parse_questions int lines !! k = Some question ->
        show_question question number s = Ok (Some answer) s' ->
        answer <> [] /\ NoDup answer
        /\ Forall (fun i => 0 <= i < len (options question)) answer)
  /\ (forall question answer s',
        show_question question number s = Ok (Some answer) s' ->
        answer <> [] /\ NoDup answer).
Proof.
  assert (Hvalid : forall question answer s',
            options question <> [] ->
            show_question question number s = Ok (Some answer) s' ->
            answer <> [] /\ NoDup answer
            /\ Forall (fun i => 0 <= i < len (options question)) answer).
  { intros question answer s' Hopt Hr.
    pose proof (show_question_from_spec question number 0 ∅ s) as H.
    unfold wp in H. fold (show_question question number) in H.
    rewrite Hr in H. destruct H as (_ & _ & H).
    destruct (H answer eq_refl) as (Hne & Hnd & Hrange).
    auto using first_row. }
  split.
  - intros question Hopt.
    pose proof (show_question_from_spec question number 0 ∅ s) as H.
    unfold wp in H. fold (show_question question number) in H.
    split; [|split].
    + intros answer s'. by apply Hvalid.
    + intros e s' Hr. rewrite Hr in H. destruct H as [_ H].
      by specialize (H (first_row question Hopt)).
    + intros Hr. by rewrite Hr in H.
  - split.
    + intros int lines k question answer s' Hstored.
      apply parsed_question_ok in Hstored as (_ & Hopt & _).
      by apply Hvalid.
    + intros question answer s' Hr.
      pose proof (show_question_from_spec question number 0 ∅ s) as H.
      unfold wp in H. fold (show_question question number) in H.
      rewrite Hr in H. destruct H as (_ & _ & H).
      destruct (H answer eq_refl) as (Hne & Hnd & _). done.
Qed.

Lemma returned_answer_is_valid_witness :
  options q2 <> []
  /\ show_question q2 1 (boot [32; 27; 91; 66; 32; 13]%N [])
     = Ok (Some (elements ({[0; 1]} : gset Z)))
          (with_stdin [] (with_stdout
             [ScrQuestion 1 0 q2 0 ∅; ScrQuestion 1 0 q2 0 {[0]};
              ScrQuestion 1 0 q2 1 {[0]}; ScrQuestion 1 0 q2 1 {[0; 1]}]
             (boot [] [])))
  /\ elements ({[0; 1]} : gset Z) <> []
  /\ NoDup (elements ({[0; 1]} : gset Z))
  /\ Forall (fun i => 0 <= i < 3) (elements ({[0; 1]} : gset Z)).
Proof.
  split; [discriminate|].
  split; [vm_compute; reflexivity|].
  refine (proj1 (proj1 (returned_answer_is_valid 1
                          (boot [32; 27; 91; 66; 32; 13]%N [])) q2 _) _ _ _);
    [discriminate|].
  vm_compute. reflexivity.
Defined.

(** C10, as the claim stands, fails for a question without options, which
    the parser never stores but a caller can build: space then enter
    returns row 0, which the question does not have. Up or down on it
    divides by zero, and so does up in a module menu without modules. *)
Example question_without_options :
  show_question (mkQuestion 9 (lit "Q") [] []) 1 (boot [32; 13]%N [])
  = Ok (Some [0])
       (with_stdin [] (with_stdout
          [ScrQuestion 1 0 (mkQuestion 9 (lit "Q") [] []) 0 ∅;
           ScrQuestion 1 0 (mkQuestion 9 (lit "Q") [] []) 0 {[0]}]
          (boot [] [])))
  /\ show_question_on_key (mkQuestion 9 (lit "Q") [] []) Up 0 ∅ (boot [] [])
     = Raised ZeroDivisionError (boot [] [])
  /\ select_module_on_key [] Up 0 (boot [] [])
     = Raised ZeroDivisionError (boot [] []).
Proof. split; [vm_compute; reflexivity | by split]. Qed.

(* ===================================================================== *)
(** * [random.sample] *)
(* ===================================================================== *)

Lemma rng_eq_refl s : rng_eq s s.
Proof. by destruct s. Qed.

Lemma rng_eq_trans s1 s2 s3 : rng_eq s1 s2 -> rng_eq s2 s3 -> rng_eq s1 s3.
Proof.
  unfold rng_eq. intros H12 H23. rewrite H23 at 1. rewrite H12 at 1.
  by destruct s1.
Qed.

Lemma wp_randbelow n Q (E : option exn -> state -> Prop) s :
  (0 < n)%nat ->
  (forall j s', (j < n)%nat -> rng_eq s s' -> Q j s') ->
  wp (randbelow n) Q E s.
Proof.
  intros Hn HQ. unfold wp, randbelow. destruct (rng s) as [|r rest] eqn:Hr.
  - apply HQ; [done | apply rng_eq_refl].
  - apply HQ; [apply Nat.mod_upper_bound; lia | by destruct s].
Qed.

(** Overwriting one item of a list by another moves the first out. *)
Lemma insert_swaps_out {A} (l : list A) j x y :
  l !! j = Some x -> x :: <[j := y]> l ≡ₚ y :: l.
Proof.
  intros Hj. rewrite insert_take_drop by (by eapply lookup_lt_Some).
  rewrite <- (take_drop_middle l j x Hj) at 3.
  rewrite <- !Permutation_middle. apply perm_swap.
Qed.

(** One pass on a pool whose first [S m] items are unselected: the item
    drawn, then the [m] items left unselected, are those [S m] items. *)
Lemma pool_step {A} (pool : list A) m j x y :
  (j <= m)%nat -> pool !! j = Some x -> pool !! m = Some y ->
  x :: take m (<[j := y]> pool) ≡ₚ take (S m) pool.
Proof.
  intros Hj Hx Hy. rewrite (take_S_r pool m y Hy).
  destruct (decide (j = m)) as [->|Hne].
  - rewrite list_insert_id by done. assert (x = y) as -> by congruence.
    apply Permutation_cons_append.
  - rewrite take_insert_lt by lia.
    rewrite insert_swaps_out by (rewrite lookup_take_lt by lia; done).
    apply Permutation_cons_append.
Qed.

(** The selection loop raises nothing, returns as many items as it makes
    passes, and, when it runs down the whole pool, returns the unselected
    part of the pool in some order. *)
Lemma sample_loop_spec {A} (n : nat) todo :
  forall i (pool : list A) s,
  (todo + i <= n)%nat -> (n <= length pool)%nat ->
  wp (sample_loop todo i n pool)
     (fun res s' =>
        rng_eq s s' /\ length res = todo
        /\ ((todo + i)%nat = n -> res ≡ₚ take (n - i) pool))
     (fun _ _ => False) s.
Proof.
  induction todo as [|todo IH]; intros i pool s Hi Hn.
  - apply wp_ret. split; [apply rng_eq_refl|]. split; [done|].
    intros Hfull. replace (n - i)%nat with 0%nat by lia. by rewrite take_0.
  - cbn [sample_loop]. apply wp_bind, wp_randbelow; [lia|].
    intros j s1 Hj Hs1.
    destruct (lookup_lt_is_Some_2 pool j) as [x Hx]; [lia|].
    destruct (lookup_lt_is_Some_2 pool (n - i - 1)) as [y Hy]; [lia|].
    rewrite Hx, Hy. apply wp_bind.
    eapply wp_mono;
      [apply (IH (S i) (<[j := y]> pool) s1); [lia | by rewrite length_insert]
      | | done].
    intros res s2 (Hs2 & Hlen & Hperm). apply wp_ret.
    split; [by eapply rng_eq_trans|]. split; [simpl; lia|].
    intros Hfull. rewrite Hperm by lia.
    replace (n - i)%nat with (S (n - i - 1)) by lia.
    replace (n - S i)%nat with (n - i - 1)%nat by lia.
    apply pool_step; [lia | done | done].
Qed.

(** Every order of the unselected items comes out for some draws. *)
Lemma sample_loop_reaches {A} (n : nat) (order : list A) :
  forall i pool,
  (length order + i)%nat = n -> (n <= length pool)%nat ->
  order ≡ₚ take (n - i) pool ->
  exists draws,
    forall rest s,
      sample_loop (length order) i n pool (with_rng (draws ++ rest) s)
      = Ok order (with_rng rest s).
Proof.
  induction order as [|x order IH]; intros i pool Hlen Hn Hperm.
  - exists []. intros rest s. reflexivity.
  - simpl in Hlen.
    replace (n - i)%nat with (S (n - i - 1)) in Hperm by lia.
    assert (Hx : x ∈ take (S (n - i - 1)) pool)
      by (rewrite <- Hperm; apply elem_of_cons; by left).
    apply list_elem_of_lookup in Hx as [j Hj].
    apply lookup_take_Some in Hj as [Hj Hlt].
    destruct (lookup_lt_is_Some_2 pool (n - i - 1)) as [y Hy]; [lia|].
    pose proof (pool_step pool (n - i - 1) j x y ltac:(lia) Hj Hy) as Hstep.
    rewrite <- Hperm in Hstep. apply Permutation_cons_inv in Hstep.
    destruct (IH (S i) (<[j := y]> pool)) as [draws Hdraws].
    + lia.
    + by rewrite length_insert.
    + replace (n - S i)%nat with (n - i - 1)%nat by lia. by symmetry.
    + exists (j :: draws). intros rest s.
      cbn [sample_loop length]. unfold bind at 1, randbelow.
      replace (rng (with_rng ((j :: draws) ++ rest) s))
        with (j :: (draws ++ rest)) by by destruct s.
      cbv beta iota. rewrite Nat.mod_small by lia.
      replace (with_rng (draws ++ rest) (with_rng ((j :: draws) ++ rest) s))
        with (with_rng (draws ++ rest) s) by by destruct s.
      rewrite Hj, Hy. unfold bind. by rewrite Hdraws.
Qed.

(** A sample of the whole population is a permutation of it. *)
Lemma random_sample_all {A} (population : list A) s :
  wp (random_sample population (Z.min (len population) (len population)))
     (fun res s' => rng_eq s s' /\ res ≡ₚ population)
     (fun _ _ => False) s.
Proof.
  unfold random_sample. rewrite Z.min_id.
  replace ((0 <=? len population) && (len population <=? len population))
    with true
    by (symmetry; rewrite andb_true_iff, !Z.leb_le; unfold len; lia).
  unfold len. rewrite Nat2Z.id.
  eapply wp_mono; [apply (sample_loop_spec (length population)); lia | | done].
  intros res s' (Hs & _ & Hperm). split; [done|].
  rewrite Hperm by lia. by rewrite Nat.sub_0_r, firstn_all.
Qed.

Lemma random_sample_reaches {A} (population order : list A) :
  order ≡ₚ population ->
  exists draws,
    forall s,
      random_sample population (Z.min (len population) (len population))
        (with_rng draws s)
      = Ok order (with_rng [] s).
Proof.
  intros Hperm.
  destruct (sample_loop_reaches (length population) order 0 population)
    as [draws Hdraws].
  - rewrite (Permutation_length Hperm). lia.
  - lia.
  - by rewrite Nat.sub_0_r, firstn_all.
  - exists draws. intros s. unfold random_sample. rewrite Z.min_id.
    replace ((0 <=? len population) && (len population <=? len population))
      with true
      by (symmetry; rewrite andb_true_iff, !Z.leb_le; unfold len; lia).
    unfold len. rewrite Nat2Z.id.
    rewrite (Permutation_length Hperm) in Hdraws.
    specialize (Hdraws [] s). by rewrite app_nil_r in Hdraws.
Qed.

(** A sample of at most 20 raises nothing. *)
Lemma random_sample_20 {A} (population : list A) s :
  wp (random_sample population (Z.min 20 (len population)))
     (fun res s' => rng_eq s s'
                    /\ len res = Z.min 20 (len population))
     (fun _ _ => False) s.
Proof.
  unfold random_sample.
  replace ((0 <=? Z.min 20 (len population))
           && (Z.min 20 (len population) <=? len population))
    with true
    by (symmetry; rewrite andb_true_iff, !Z.leb_le; unfold len; lia).
  eapply wp_mono;
    [apply (sample_loop_spec (length population)); unfold len; lia | | done].
  intros res s' (Hs & Hlen & _). split; [done|]. unfold len in *. lia.
Qed.

Lemma rng_eq_fields s s' :
  rng_eq s s' ->
  questions s' = questions s /\ modules s' = modules s
  /\ current_index s' = current_index s
  /\ quiz_questions s' = quiz_questions s /\ stats s' = stats s
  /\ platform s' = platform s /\ stdin s' = stdin s
  /\ stdout s' = stdout s.
Proof. unfold rng_eq. intros ->. by destruct s. Qed.

(** Lines 189-191 always succeed: the run's order is a permutation of all
    the ids given, the cursor is 0 and the tally is 0, 0 and their number;
    only the generator is otherwise touched. *)
Lemma run_quiz_init_spec question_ids s :
  wp (run_quiz_init question_ids)
     (fun _ s' =>
        quiz_questions s' ≡ₚ question_ids
        /\ current_index s' = 0
        /\ stats s' = mkStats 0 0 (len question_ids)
        /\ questions s' = questions s /\ modules s' = modules s
        /\ platform s' = platform s /\ stdin s' = stdin s
        /\ stdout s' = stdout s)
     (fun _ _ => False) s.
Proof.
  unfold run_quiz_init. apply wp_bind.
  eapply wp_mono; [apply random_sample_all | | done].
  intros res s1 [Hs1 Hperm].
  apply wp_bind, wp_modify, wp_bind, wp_modify, wp_bind, wp_get, wp_modify.
  apply rng_eq_fields in Hs1 as (? & ? & ? & ? & ? & ? & ? & ?).
  destruct s1; simpl in *. repeat split; try done.
  f_equal. unfold len. f_equal. by apply Permutation_length.
Qed.

(** C5. Whatever the generator draws and whatever [self.quiz_questions]
    held before (in [main], a pick of at most 20 ids), lines 189-191 of
    [run_quiz] succeed and leave as the run's order a permutation of the
    whole list of candidate ids, of the same length, with the tally at
    correct 0, wrong 0, total that length, and the cursor at 0. No order
    is excluded: each permutation of the ids is the run's order for some
    draws of the generator. *)
Theorem run_starts_from_a_full_shuffle question_ids s :
  (exists s',
     run_quiz_init question_ids s = Ok tt s'
     /\ quiz_questions s' ≡ₚ question_ids
     /\ length (quiz_questions s') = length question_ids
     /\ stats s' = mkStats 0 0 (len question_ids)
     /\ current_index s' = 0)
  /\ (exists s',
        main_start_init question_ids s = Ok tt s'
        /\ quiz_questions s' ≡ₚ question_ids
        /\ length (quiz_questions s') = length question_ids
        /\ stats s' = mkStats 0 0 (len question_ids)
        /\ current_index s' = 0)
  /\ (forall order,
        order ≡ₚ question_ids ->
        exists draws s',
          run_quiz_init question_ids (with_rng draws s) = Ok tt s'
          /\ quiz_questions s' = order).
Proof.
  assert (Hinit : forall s0, exists s',
     run_quiz_init question_ids s0 = Ok tt s'
     /\ quiz_questions s' ≡ₚ question_ids
     /\ length (quiz_questions s') = length question_ids
     /\ stats s' = mkStats 0 0 (len question_ids)
     /\ current_index s' = 0).
  { intros s0. pose proof (run_quiz_init_spec question_ids s0) as H.
    unfold wp in H. destruct (run_quiz_init question_ids s0) as [[] s'| | |];
      try done.
    destruct H as (Hperm & Hci & Hst & _). exists s'.
    split; [done|]. split; [done|]. split; [|done].
    by apply Permutation_length. }
  split; [apply Hinit|]. split.
  - unfold main_start_init, bind.
    pose proof (random_sample_20 question_ids s) as H. unfold wp in H.
    destruct (random_sample question_ids _ s) as [res s1| | |]; try done.
    unfold modify. apply Hinit.
  - intros order Hperm.
    destruct (random_sample_reaches question_ids order Hperm)
      as [draws Hdraws].
    exists draws. unfold run_quiz_init, bind. rewrite Hdraws.
    eexists. split; reflexivity.
Qed.

(** The pick of 20 made by [main] is gone when the run starts. *)
Example truncation_is_overridden :
  forall ids : list Z, ids = Z.of_nat <$> seq 1 25 ->
  (exists sample s1,
     random_sample ids (Z.min 20 (len ids)) (boot [] []) = Ok sample s1
     /\ length sample = 20%nat)
  /\ (exists s', main_start_init ids (boot [] []) = Ok tt s'
                 /\ length (quiz_questions s') = 25%nat).
Proof.
  intros ids ->. split.
  - eexists _, _. split; [vm_compute; reflexivity | reflexivity].
  - eexists. split; [vm_compute; reflexivity | reflexivity].
Qed.

(* ===================================================================== *)
(** * The run *)
(* ===================================================================== *)

Lemma wp_py_index {A} (l : list A) i Q (E : option exn -> state -> Prop) s :
  0 <= i < len l ->
  (forall x, l !! Z.to_nat i = Some x -> Q x s) ->
  wp (py_index l i) Q E s.
Proof.
  intros Hi HQ. unfold py_index.
  replace (i <? 0) with false by (symmetry; apply Z.ltb_ge; lia).
  replace (i <? 0) with false by (symmetry; apply Z.ltb_ge; lia).
  destruct (lookup_lt_is_Some_2 l (Z.to_nat i)) as [x Hx];
    [unfold len in Hi; lia|].
  rewrite Hx. by apply wp_ret, HQ.
Qed.

Lemma io_eq_same_run s s' : io_eq s s' -> same_run s s'.
Proof.
  intros H. pose proof (io_eq_reads _ _ H).
  apply io_eq_fields in H as (? & ? & ? & ? & Hst & _). unfold same_run.
  by rewrite Hst.
Qed.

Lemma tally_inv_io s s' : io_eq s s' -> tally_inv s -> tally_inv s'.
Proof.
  intros (Hq & _ & Hci & Hqq & Hst & _)%io_eq_fields.
  unfold tally_inv, passed. by rewrite Hq, Hci, Hqq, Hst.
Qed.

Lemma answerable_snoc store l k :
  len (answerable store (l ++ [k]))
  = len (answerable store l) + (if decide (is_Some (store !! k)) then 1 else 0).
Proof.
  unfold answerable, len. rewrite filter_app, length_app.
  rewrite filter_cons, filter_nil.
  destruct (decide (is_Some (store !! k))); simpl; lia.
Qed.

Lemma tally_inv_next s s' q_id :
  tally_inv s ->
  quiz_questions s !! Z.to_nat (current_index s) = Some q_id ->
  same_run s s' ->
  current_index s' = current_index s + 1 ->
  0 <= correct (stats s') -> 0 <= wrong (stats s') ->
  correct (stats s') + wrong (stats s')
  = correct (stats s) + wrong (stats s)
    + (if decide (is_Some (questions s !! q_id)) then 1 else 0) ->
  tally_inv s'.
Proof.
  intros (Ht & Hci & Hc & Hw & Hsum) Hq (Hqs & Hqq & Htot & _)
    Hci' Hc' Hw' Hsum'.
  pose proof (lookup_lt_Some _ _ _ Hq) as Hlt.
  unfold tally_inv, passed in *. rewrite Hqs, Hqq, Htot, Hci'.
  split; [done|]. split; [unfold len; lia|]. split; [done|]. split; [done|].
  rewrite Z2Nat.inj_add, Nat.add_1_r by lia.
  rewrite (take_S_r _ _ _ Hq), answerable_snoc. lia.
Qed.

Lemma wp_show_exit_confirmation Q (E : option exn -> state -> Prop) s :
  (forall s', io_eq s s' -> Q tt s') ->
  (forall s', io_eq s s' -> E None s') ->
  wp show_exit_confirmation Q E s.
Proof.
  intros HQ HE. unfold show_exit_confirmation.
  apply wp_bind, wp_get, wp_bind, wp_print, wp_wait_for_enter.
  - intros s' Hio _ _. apply HQ.
    eapply io_eq_trans; [apply io_eq_stdout | exact Hio].
  - intros s' Hio _. apply HE.
    eapply io_eq_trans; [apply io_eq_stdout | exact Hio].
Qed.

Lemma wp_show_result is_correct question user_answers Q
    (E : option exn -> state -> Prop) s :
  (forall s', io_eq s s' -> Q tt s') ->
  (forall s', io_eq s s' -> E None s') ->
  wp (show_result is_correct question user_answers) Q E s.
Proof.
  intros HQ HE. unfold show_result.
  apply wp_bind, wp_print, wp_wait_for_enter.
  - intros s' Hio _ _. apply HQ.
    eapply io_eq_trans; [apply io_eq_stdout | exact Hio].
  - intros s' Hio _. apply HE.
    eapply io_eq_trans; [apply io_eq_stdout | exact Hio].
Qed.

(** One pass of the run's loop keeps the tally invariant however it ends;
    when the loop goes on, the cursor has advanced by one. *)
Lemma run_quiz_body_spec s :
  tally_inv s ->
  wp run_quiz_body
     (fun c s' =>
        same_run s s' /\ tally_inv s'
        /\ match c with
           | Continue _ =>
               current_index s < len (quiz_questions s)
               /\ current_index s' = current_index s + 1
           | Return _ =>
               current_index s' = current_index s /\ stats s' = stats s
           end)
     (fun _ s' =>
        same_run s s' /\ tally_inv s'
        /\ current_index s' = current_index s /\ stats s' = stats s) s.
Proof.
  intros Hinv. pose proof Hinv as (Ht & Hci & Hc & Hw & Hsum).
  assert (Hio : forall s', io_eq s s' ->
            same_run s s' /\ tally_inv s'
            /\ current_index s' = current_index s /\ stats s' = stats s).
  { intros s' H. split; [by apply io_eq_same_run|].
    split; [by eapply tally_inv_io|].
    by apply io_eq_fields in H as (_ & _ & ? & _ & ? & _). }
  unfold run_quiz_body. apply wp_bind, wp_get.
  destruct (Z.ltb_spec (current_index s) (len (quiz_questions s))) as [Hlt|Hge];
    [|apply wp_ret; split; [done|]; split; done].
  apply wp_bind, wp_py_index; [lia|]. intros q_id Hq.
  destruct (questions s !! q_id) as [question|] eqn:Hstore.
  - apply wp_bind. unfold show_question.
    eapply wp_mono; [apply show_question_from_spec | |].
    + intros r s1 (Hio1 & _ & _). destruct r as [user_answers|].
      * apply wp_bind, wp_show_result.
        -- intros s2 Hio2.
           pose proof (io_eq_trans _ _ _ Hio1 Hio2) as H2.
           destruct (Hio _ H2) as (Hrun & _ & Hci2 & Hst2).
           assert (Hnext : forall s3,
                     same_run s s3 -> current_index s3 = current_index s + 1 ->
                     0 <= correct (stats s3) -> 0 <= wrong (stats s3) ->
                     correct (stats s3) + wrong (stats s3)
                     = correct (stats s) + wrong (stats s) + 1 ->
                     same_run s s3 /\ tally_inv s3
                     /\ current_index s < len (quiz_questions s)
                        /\ current_index s3 = current_index s + 1).
           { intros s3 ? ? ? ? Hs3. split; [done|]. split; [|done].
             eapply tally_inv_next; try done.
             rewrite Hstore, decide_True by done. done. }
           destruct Hrun as (Hr1 & Hr2 & Hr3).
           destruct (check_answers _ _); unfold add_correct, add_wrong, advance;
             apply wp_bind, wp_modify, wp_bind, wp_modify, wp_ret, Hnext;
             destruct s2; simpl in *; rewrite ?Hst2; unfold same_run; simpl;
             auto with lia.
        -- intros s2 Hio2. apply Hio. by eapply io_eq_trans.
      * apply wp_bind, wp_show_exit_confirmation.
        -- intros s2 Hio2. apply wp_ret.
           destruct (Hio s2) as (? & ? & ? & ?); [by eapply io_eq_trans|].
           done.
        -- intros s2 Hio2. apply Hio. by eapply io_eq_trans.
    + intros e s1 [Hio1 _]. by apply Hio.
  - unfold advance. apply wp_bind, wp_modify, wp_ret.
    split; [by destruct s|]. split; [|by destruct s].
    eapply tally_inv_next; try done; try (by destruct s).
    rewrite Hstore, decide_False by (by intros []).
    destruct s; simpl in *. lia.
Qed.

Lemma same_run_trans s1 s2 s3 :
  same_run s1 s2 -> same_run s2 s3 -> same_run s1 s3.
Proof.
  intros (? & ? & ? & ?) (? & ? & ? & ?). unfold same_run.
  repeat split; try congruence. lia.
Qed.

(** With fuel beyond the questions left, the loop of the run never runs
    out of it, and it keeps the invariant however it ends. *)
Lemma run_quiz_loop_spec fuel :
  forall s,
  tally_inv s ->
  (Z.to_nat (len (quiz_questions s) - current_index s) < fuel)%nat ->
  wp (run_quiz_loop fuel)
     (fun _ s' => same_run s s' /\ tally_inv s')
     (fun _ s' => same_run s s' /\ tally_inv s') s.
Proof.
  induction fuel as [|fuel IH]; intros s Hinv Hfuel; [lia|].
  cbn [run_quiz_loop]. apply wp_bind.
  eapply wp_mono; [by apply run_quiz_body_spec | | ].
  - intros c s1 (Hrun & Hinv1 & Hc). destruct c as [[]|[]].
    + destruct Hc as [Hlt Hci]. pose proof Hrun as (_ & Hqq & _).
      eapply wp_mono; [apply (IH s1 Hinv1); rewrite Hqq, Hci; lia | |];
        intros ? s2 [Hrun2 Hinv2]; (split; [by eapply same_run_trans|done]).
    + by apply wp_ret.
  - by intros e s1 (? & ? & _).
Qed.

Lemma run_quiz_passes_spec n :
  forall s,
  tally_inv s ->
  wp (run_quiz_passes n)
     (fun _ s' => same_run s s' /\ tally_inv s')
     (fun _ s' => same_run s s' /\ tally_inv s') s.
Proof.
  induction n as [|n IH]; intros s Hinv; [by apply wp_ret|].
  cbn [run_quiz_passes]. apply wp_bind.
  eapply wp_mono; [by apply run_quiz_body_spec | | ].
  - intros c s1 (Hrun & Hinv1 & Hc). destruct c as [[]|[]].
    + eapply wp_mono; [apply (IH s1 Hinv1) | |];
        intros ? s2 [Hrun2 Hinv2]; (split; [by eapply same_run_trans|done]).
    + by apply wp_ret.
  - by intros e s1 (? & ? & _).
Qed.

(** *** The summary *)

Lemma wp_truediv a b Q (E : option exn -> state -> Prop) s :
  (b <> 0 -> forall x, Q x s) ->
  (b = 0 -> E (Some ZeroDivisionError) s) ->
  wp (PyFloat.truediv a b) Q E s.
Proof.
  intros HQ HE. unfold PyFloat.truediv.
  destruct (Z.eqb_spec b 0); [by apply wp_raise, HE | by apply wp_ret, HQ].
Qed.

Lemma wp_to_int x Q (E : option exn -> state -> Prop) s :
  (forall z, Q z s) -> (forall e, E e s) -> wp (PyFloat.to_int x) Q E s.
Proof.
  intros HQ HE. unfold PyFloat.to_int. destruct x; try apply wp_ret, HQ;
    apply wp_raise, HE.
Qed.

Lemma wp_percent n t Q (E : option exn -> state -> Prop) s :
  (forall z, Q z s) -> (forall e, E e s) -> wp (percent n t) Q E s.
Proof.
  intros HQ HE. unfold percent. destruct (t >? 0); [|by apply wp_ret].
  apply wp_bind, wp_truediv; [|intros _; apply HE].
  intros _ x. by apply wp_to_int.
Qed.

Lemma show_summary_io s :
  wp show_summary (fun _ s' => io_eq s s') (fun _ s' => io_eq s s') s.
Proof.
  unfold show_summary. apply wp_bind, wp_get.
  apply wp_bind, wp_percent; [|intros _; apply io_eq_refl]. intros pc.
  apply wp_bind, wp_percent; [|intros _; apply io_eq_refl]. intros pw.
  apply wp_bind, wp_print. set (s1 := with_stdout _ s).
  assert (H1 : io_eq s s1) by apply io_eq_stdout.
  assert (Hw : forall s2, io_eq s1 s2 ->
                 wp wait_for_enter (fun _ s' => io_eq s s')
                    (fun _ s' => io_eq s s') s2).
  { intros s2 H2. apply wp_wait_for_enter; intros s3 H3 **;
      eapply io_eq_trans; [eapply io_eq_trans| |eapply io_eq_trans|]; done. }
  apply wp_bind, wp_truediv; [|done]. intros _ r. apply wp_bind.
  destruct (PyFloat.ge r PyFloat.lit_0_8).
  - apply wp_print, Hw, io_eq_stdout.
  - apply wp_bind, wp_truediv; [|intros _; apply H1]. intros _ r2.
    destruct (PyFloat.ge r2 PyFloat.lit_0_6);
      apply wp_print, Hw, io_eq_stdout.
Qed.

(** *** The whole run *)

Lemma tally_inv_bound s :
  tally_inv s -> correct (stats s) + wrong (stats s) <= total (stats s).
Proof.
  intros (Ht & Hci & _ & _ & Hsum). rewrite Hsum, Ht.
  unfold answerable, passed, len.
  pose proof (length_filter (fun k => is_Some (questions s !! k))
                (take (Z.to_nat (current_index s)) (quiz_questions s))).
  rewrite length_take in *. lia.
Qed.

Lemma answerable_all store ids :
  len (answerable store ids) = len ids
  <-> Forall (fun k => is_Some (store !! k)) ids.
Proof.
  unfold answerable, len. induction ids as [|k ids IH].
  - split; [constructor | done].
  - rewrite filter_cons.
    pose proof (length_filter (fun k => is_Some (store !! k)) ids).
    destruct (decide (is_Some (store !! k))) as [Hk|Hk]; simpl.
    + split.
      * intros Hl. constructor; [done|]. apply IH. lia.
      * intros [_ Hl%IH]%Forall_cons. lia.
    + split; [lia|]. by intros [? _]%Forall_cons.
Qed.

Lemma run_quiz_init_inv question_ids s :
  wp (run_quiz_init question_ids)
     (fun _ s0 =>
        tally_inv s0 /\ quiz_questions s0 ≡ₚ question_ids
        /\ current_index s0 = 0
        /\ stats s0 = mkStats 0 0 (len question_ids)
        /\ questions s0 = questions s /\ stdin s0 = stdin s)
     (fun _ _ => False) s.
Proof.
  eapply wp_mono; [apply run_quiz_init_spec | | done].
  intros _ s0 (Hperm & Hci & Hst & Hq & _ & _ & Hin & _).
  split; [|done]. unfold tally_inv, passed. rewrite Hci, Hst. simpl.
  unfold len. rewrite (Permutation_length Hperm).
  repeat split; try lia.
Qed.

Lemma percent_state n t s :
  match percent n t s with
  | Ok _ s' | Raised _ s' => s' = s
  | _ => False
  end.
Proof.
  unfold percent. destruct (t >? 0); [|done].
  unfold bind, PyFloat.truediv. destruct (t =? 0); [done|]. unfold ret.
  unfold PyFloat.to_int. by destruct (PyFloat.mul_int _ _).
Qed.

Lemma percent_any_state n t z s s' :
  percent n t s = Ok z s -> percent n t s' = Ok z s'.
Proof.
  unfold percent. destruct (t >? 0); [|by intros [= <-]].
  unfold bind, PyFloat.truediv. destruct (t =? 0); [done|]. unfold ret.
  unfold PyFloat.to_int. destruct (PyFloat.mul_int _ _); try done;
    by intros [= <-].
Qed.

(** When the summary returns, it has printed the counts, with the two
    percentages taken over [total], and a tier. *)
Lemma show_summary_prints s :
  wp show_summary
     (fun _ s' => exists pct_correct pct_wrong tier,
        percent (correct (stats s)) (total (stats s)) s = Ok pct_correct s
        /\ percent (wrong (stats s)) (total (stats s)) s = Ok pct_wrong s
        /\ stdout s'
           = stdout s ++ [ScrSummaryCounts (total (stats s))
                            (correct (stats s)) pct_correct
                            (wrong (stats s)) pct_wrong;
                          ScrSummaryTier tier])
     (fun _ _ => True) s.
Proof.
  unfold show_summary. apply wp_bind, wp_get. apply wp_bind.
  pose proof (percent_state (correct (stats s)) (total (stats s)) s) as Hc.
  unfold wp at 1.
  destruct (percent (correct (stats s)) (total (stats s)) s)
    as [pc ?|? ?| |]; try done. subst. apply wp_bind.
  pose proof (percent_state (wrong (stats s)) (total (stats s)) s) as Hw.
  unfold wp at 1.
  destruct (percent (wrong (stats s)) (total (stats s)) s)
    as [pw ?|? ?| |]; try done. subst.
  apply wp_bind, wp_print. set (s1 := with_stdout _ s).
  assert (Hwait : forall tier,
            wp wait_for_enter
               (fun _ s' => exists pct_correct pct_wrong tier,
                  Ok pc s = Ok pct_correct s /\ Ok pw s = Ok pct_wrong s
                  /\ stdout s'
                     = stdout s ++ [ScrSummaryCounts (total (stats s))
                                      (correct (stats s)) pct_correct
                                      (wrong (stats s)) pct_wrong;
                                    ScrSummaryTier tier])
               (fun _ _ => True)
               (with_stdout (stdout s1 ++ [ScrSummaryTier tier]) s1)).
  { intros tier. apply wp_wait_for_enter; [|done].
    intros s3 _ Hout _. exists pc, pw, tier. rewrite Hout.
    split; [done|]. split; [done|].
    destruct s; simpl. by rewrite <- app_assoc. }
  apply wp_bind, wp_truediv; [|done]. intros _ r. apply wp_bind.
  destruct (PyFloat.ge r PyFloat.lit_0_8).
  - apply wp_print, Hwait.
  - apply wp_bind, wp_truediv; [|done]. intros _ r2.
    destruct (PyFloat.ge r2 PyFloat.lit_0_6); apply wp_print, Hwait.
Qed.

(** A run never exhausts the fuel of the model and types nothing. *)
Lemma run_quiz_reads question_ids s :
  wp (run_quiz question_ids)
     (fun _ s' => (length (stdin s') <= length (stdin s))%nat)
     (fun _ _ => True) s.
Proof.
  unfold run_quiz. apply wp_bind.
  eapply wp_mono; [apply run_quiz_init_inv | | done].
  intros _ s0 (Hinv & _ & _ & _ & _ & Hstdin). apply wp_bind.
  unfold run_quiz_while.
  pose proof (run_quiz_loop_spec
    (S (Z.to_nat (len (quiz_questions s0) - current_index s0))) s0 Hinv)
    as H.
  eapply wp_mono; [apply H; lia | | done].
  intros _ s1 [(_ & _ & _ & Hlen) _].
  eapply wp_mono; [apply show_summary_io | | done].
  intros _ s2 H2%io_eq_reads. rewrite <- Hstdin. lia.
Qed.

(* ===================================================================== *)
(** * The menus and the main loop *)
(* ===================================================================== *)

Lemma wp_py_index_any {A} (l : list A) i Q (E : option exn -> state -> Prop) s :
  (forall x, Q x s) -> E (Some IndexError) s -> wp (py_index l i) Q E s.
Proof.
  intros HQ HE. unfold py_index.
  destruct (_ <? 0); [by apply wp_raise|].
  destruct (l !! _); [by apply wp_ret | by apply wp_raise].
Qed.

(** The new cursor of a menu: the state is left alone. *)
Lemma wp_move_cursor {A} a b (f : Z -> A) s :
  wp (do selected <- py_mod a b; ret (f selected))
     (fun _ s' => s' = s) (fun _ s' => s' = s) s.
Proof. apply wp_bind, wp_py_mod; intros _; [by apply wp_ret | done]. Qed.

Lemma select_mode_on_key_pure key selected s :
  wp (select_mode_on_key key selected)
     (fun _ s' => s' = s) (fun _ s' => s' = s) s.
Proof.
  destruct key; unfold select_mode_on_key;
    first [apply wp_move_cursor | by apply wp_ret].
Qed.

Lemma select_module_on_key_pure module_list key selected s :
  wp (select_module_on_key module_list key selected)
     (fun _ s' => s' = s) (fun _ s' => s' = s) s.
Proof.
  destruct key; unfold select_module_on_key;
    first [apply wp_move_cursor | by apply wp_ret | idtac].
  apply wp_bind, wp_py_index_any; [intros x; by apply wp_ret | done].
Qed.

(** A menu pass: print, read a key, handle it. *)
Lemma menu_pass_spec {A} (x : Screen) (handler : Key -> M A) s :
  (forall key s1, wp (handler key) (fun _ s' => s' = s1)
                     (fun _ s' => s' = s1) s1) ->
  wp (print x;; do key <- get_arrow_key; handler key)
     (fun _ s' => io_eq s s' /\ (length (stdin s') < length (stdin s))%nat)
     (fun _ s' => io_eq s s') s.
Proof.
  intros Hh. apply wp_bind, wp_print. set (s1 := with_stdout _ s).
  assert (H1 : io_eq s s1) by apply io_eq_stdout.
  assert (Hin : stdin s1 = stdin s) by by destruct s.
  apply wp_bind, wp_get_arrow_key.
  - intros key s2 H2 _ Hlen. rewrite Hin in Hlen.
    eapply wp_mono; [apply Hh | |]; intros ? s' Heq; simpl in Heq;
      subst s'; [split; [|done]|]; by eapply io_eq_trans.
  - intros s2 H2 _. by eapply io_eq_trans.
Qed.

Lemma select_mode_loop_spec fuel :
  forall selected s,
  (length (stdin s) < fuel)%nat ->
  wp (select_mode_loop fuel selected)
     (fun _ s' => io_eq s s' /\ (length (stdin s') < length (stdin s))%nat)
     (fun _ s' => io_eq s s') s.
Proof.
  induction fuel as [|fuel IH]; intros selected s Hfuel; [lia|].
  cbn [select_mode_loop]. apply wp_bind. unfold select_mode_body.
  eapply wp_mono;
    [apply menu_pass_spec; intros; apply select_mode_on_key_pure | | done].
  intros c s1 [H1 Hlen]. destruct c as [selected'|r]; [|by apply wp_ret].
  eapply wp_mono; [apply (IH selected' s1); lia | |].
  - intros ? s2 [H2 Hlen2]. split; [by eapply io_eq_trans | lia].
  - intros ? s2 H2. by eapply io_eq_trans.
Qed.

Lemma select_module_loop_spec module_list fuel :
  forall selected s,
  (length (stdin s) < fuel)%nat ->
  wp (select_module_loop fuel module_list selected)
     (fun _ s' => io_eq s s' /\ (length (stdin s') < length (stdin s))%nat)
     (fun _ s' => io_eq s s') s.
Proof.
  induction fuel as [|fuel IH]; intros selected s Hfuel; [lia|].
  cbn [select_module_loop]. apply wp_bind. unfold select_module_body.
  eapply wp_mono;
    [apply menu_pass_spec; intros; apply select_module_on_key_pure | | done].
  intros c s1 [H1 Hlen]. destruct c as [selected'|r]; [|by apply wp_ret].
  eapply wp_mono; [apply (IH selected' s1); lia | |].
  - intros ? s2 [H2 Hlen2]. split; [by eapply io_eq_trans | lia].
  - intros ? s2 H2. by eapply io_eq_trans.
Qed.

(** C9. In every run, [total] is set at the start to the number of all the
    ids given, stale ones included, and stays so; after any number of
    passes of the loop, however the run ends (returning, raising, or
    waiting for a key), [correct + wrong] is the number of questions before
    the cursor that the store holds, hence at most [total]; and when the
    loop ends with the cursor at the end of the order (the run was not
    aborted), [correct + wrong] is the number of ids that the store holds,
    which equals [total] exactly when no id is stale. The summary of a
    run that returns shows that [total] and takes both percentages over
    it. The model's fuel is never exhausted. *)
Theorem tally_never_exceeds_total question_ids s :
  exists s0,
    run_quiz_init question_ids s = Ok tt s0
    /\ total (stats s0) = len question_ids
    /\ (forall n,
          finally (run_quiz_passes n s0) (fun s' =>
            total (stats s') = len question_ids
            /\ correct (stats s') + wrong (stats s')
               = len (answerable (questions s) (passed s'))
            /\ correct (stats s') + wrong (stats s') <= total (stats s')))
    /\ finally (run_quiz_while s0) (fun s' =>
         total (stats s') = len question_ids
         /\ correct (stats s') + wrong (stats s') <= total (stats s')
         /\ (current_index s' = len (quiz_questions s') ->
             correct (stats s') + wrong (stats s')
             = len (answerable (questions s) question_ids)
             /\ (correct (stats s') + wrong (stats s') = total (stats s')
                 <-> Forall (fun k => is_Some (questions s !! k))
                       question_ids)))
    /\ finally (run_quiz question_ids s) (fun s' =>
         total (stats s') = len question_ids
         /\ correct (stats s') + wrong (stats s') <= total (stats s'))
    /\ (forall s',
          run_quiz question_ids s = Ok tt s' ->
          exists before pct_correct pct_wrong tier,
            percent (correct (stats s')) (len question_ids) s'
            = Ok pct_correct s'
            /\ percent (wrong (stats s')) (len question_ids) s'
               = Ok pct_wrong s'
            /\ stdout s'
               = before ++ [ScrSummaryCounts (len question_ids)
                              (correct (stats s')) pct_correct
                              (wrong (stats s')) pct_wrong;
                            ScrSummaryTier tier]).
Proof.
  pose proof (run_quiz_init_inv question_ids s) as Hinit. unfold wp in Hinit.
  destruct (run_quiz_init question_ids s) as [[] s0| | |] eqn:Einit; try done.
  destruct Hinit as (Hinv0 & Hperm & Hci0 & Hst0 & Hq0 & _).
  assert (Htot0 : total (stats s0) = len question_ids) by by rewrite Hst0.
  assert (Hkeep : forall s', same_run s0 s' -> tally_inv s' ->
            total (stats s') = len question_ids
            /\ correct (stats s') + wrong (stats s')
               = len (answerable (questions s) (passed s'))
            /\ correct (stats s') + wrong (stats s') <= total (stats s')).
  { intros s' (Hq & Hqq & Ht & _) Hinv. split; [congruence|].
    split; [|by apply tally_inv_bound].
    destruct Hinv as (_ & _ & _ & _ & Hsum). by rewrite Hsum, Hq, Hq0. }
  assert (Hwhile : finally (run_quiz_while s0)
                     (fun s' => same_run s0 s' /\ tally_inv s')).
  { apply (proj1 (wp_finally _ _ _)). unfold run_quiz_while.
    pose proof (run_quiz_loop_spec
      (S (Z.to_nat (len (quiz_questions s0) - current_index s0))) s0 Hinv0)
      as H.
    unfold wp in *. apply H. lia. }
  exists s0. split; [done|]. split; [done|]. split; [|split; [|split]].
  - intros n. apply (proj1 (wp_finally _ _ _)).
    eapply wp_mono; [by apply run_quiz_passes_spec | |];
      intros ? s' [Hrun Hinv]; by apply Hkeep.
  - apply (proj1 (wp_finally _ _ _)).
    apply (proj2 (wp_finally _ _ _)) in Hwhile.
    eapply wp_mono; [exact Hwhile | |]; intros ? s' [Hrun Hinv];
      destruct (Hkeep s' Hrun Hinv) as (Ht & Hsum & Hle);
      (split; [done|]); (split; [done|]); intros Hend;
      assert (Hall : correct (stats s') + wrong (stats s')
                     = len (answerable (questions s) question_ids))
        by (rewrite Hsum; unfold passed; rewrite Hend; unfold len;
            rewrite Nat2Z.id, firstn_all; destruct Hrun as (_ & -> & _);
            unfold answerable; by rewrite Hperm);
      (split; [done|]); rewrite Hall, Ht; apply answerable_all.
  - unfold run_quiz, bind. rewrite Einit.
    unfold finally in Hwhile.
    destruct (run_quiz_while s0) as [[] s1|e s1|s1|]; try done;
      destruct Hwhile as [Hrun Hinv];
      destruct (Hkeep _ Hrun Hinv) as (Ht & _ & Hle); try done.
    pose proof (proj1 (wp_finally _ _ _) (show_summary_io s1)) as Hsum.
    unfold finally in *.
    destruct (show_summary s1) as [[] s2|e s2|s2|]; try done;
      apply io_eq_fields in Hsum as (_ & _ & _ & _ & -> & _); done.
  - intros s'. unfold run_quiz, bind. rewrite Einit.
    unfold finally in Hwhile.
    destruct (run_quiz_while s0) as [[] s1|e s1|s1|]; try done.
    destruct Hwhile as [Hrun Hinv].
    destruct (Hkeep _ Hrun Hinv) as (Ht & _ & _). intros Hsum.
    pose proof (show_summary_prints s1) as Hp.
    pose proof (show_summary_io s1) as Hio.
    unfold wp in Hp, Hio. rewrite Hsum in Hp, Hio.
    destruct Hp as (pc & pw & tier & Hpc & Hpw & Hout).
    apply io_eq_fields in Hio as (_ & _ & _ & _ & -> & _).
    rewrite Ht in Hpc, Hpw, Hout.
    exists (stdout s1), pc, pw, tier.
    split; [by eapply percent_any_state|].
    split; [by eapply percent_any_state | done].
Qed.

(** A run over a stale id: both stored questions are answered, and
    [correct + wrong] stays below [total]. *)
Example stale_id_counts_in_total :
  final_stats (run_quiz [1; 5; 2]
                 (boot [32; 13; 13; 32; 13; 13; 13]%N [0; 0; 0]%nat))
  = Some (mkStats 1 1 3).
Proof. vm_compute. reflexivity. Qed.

(** C1, on the code. Escape at the first question leaves the tally at
    0 and 0 and prints the interim report, and then the summary is printed
    all the same: [break] leads to the [show_summary] call that follows
    the loop. So it is for every run: one that returns, aborted or not,
    has printed the summary last. *)
Theorem escape_still_reaches_summary :
  final_stats (run_quiz [1; 2] (boot [27; 27; 13; 13]%N [0; 0]%nat))
  = Some (mkStats 0 0 2)
  /\ printed (run_quiz [1; 2] (boot [27; 27; 13; 13]%N [0; 0]%nat))
     = [ScrQuestion 1 2 q1 0 ∅; ScrExit 0 2 0 0;
        ScrSummaryCounts 2 0 0 0 0; ScrSummaryTier Bottom]
  /\ (forall question_ids s s',
        run_quiz question_ids s = Ok tt s' ->
        exists before pct_correct pct_wrong tier,
          stdout s'
          = before ++ [ScrSummaryCounts (total (stats s'))
                         (correct (stats s')) pct_correct
                         (wrong (stats s')) pct_wrong;
                       ScrSummaryTier tier]).
Proof.
  split; [vm_compute; reflexivity|]. split; [vm_compute; reflexivity|].
  intros question_ids s s'. unfold run_quiz, bind.
  destruct (run_quiz_init question_ids s) as [[] s0| | |]; try done.
  destruct (run_quiz_while s0) as [[] s1| | |]; try done.
  intros Hsum.
  pose proof (show_summary_prints s1) as Hp.
  pose proof (show_summary_io s1) as Hio.
  unfold wp in Hp, Hio. rewrite Hsum in Hp, Hio.
  destruct Hp as (pc & pw & tier & _ & _ & Hout).
  apply io_eq_fields in Hio as (_ & _ & _ & _ & -> & _).
  by exists (stdout s1), pc, pw, tier.
Qed.

(** C2, on the code: with [total = 0], as on a fresh [Quiz] or in a run
    over no ids, the summary prints 0% and 0% and then raises
    [ZeroDivisionError] in the tier computation, which divides by [total]
    without the guard of the two percentages. With a positive
    total the percentages are floats truncated: 33 and 66 for 1 and 2 of
    3, and 28 for 29 of 100, where [29/100*100] is just below 29. *)
Theorem summary_of_empty_run_raises :
  (forall c w s,
     show_summary (with_stats (mkStats c w 0) s)
     = Raised ZeroDivisionError
         (with_stdout (stdout s ++ [ScrSummaryCounts 0 c 0 w 0])
            (with_stats (mkStats c w 0) s)))
  /\ show_summary (Quiz_init bank ∅ Posix [13]%N [])
     = Raised ZeroDivisionError
         (with_stdout [ScrSummaryCounts 0 0 0 0 0]
            (Quiz_init bank ∅ Posix [13]%N []))
  /\ run_quiz [] (boot [13]%N [])
     = Raised ZeroDivisionError
         (with_stdout [ScrSummaryCounts 0 0 0 0 0] (boot [13]%N []))
  /\ (forall n s, percent n 0 s = Ok 0 s)
  /\ (forall s, percent 1 3 s = Ok 33 s)
  /\ (forall s, percent 2 3 s = Ok 66 s)
  /\ (forall s, percent 29 100 s = Ok 28 s).
Proof.
  split; [|split; [|split; [|split; [|split; [|split]]]]]; done.
Qed.


(* ===================================================================== *)
(** * Further properties of the parser *)
(* ===================================================================== *)

Lemma split_at_sep sep before after :
  sep ∉ before ->
  PyStr.split sep (before ++ sep :: after) = before :: PyStr.split sep after.
Proof.
  induction before as [|c s IH]; simpl.
  - by rewrite N.eqb_refl.
  - intros H. apply not_elem_of_cons in H as [Hc Hs].
    destruct (N.eqb_spec c sep); [congruence|].
    by rewrite IH.
Qed.

Lemma split_record_text prompt segs :
  42%N ∉ prompt -> Forall (fun seg => 42%N ∉ seg) segs ->
  PyStr.split 42 (record_text prompt segs) = prompt :: segs.
Proof.
  unfold record_text. revert prompt.
  induction segs as [|seg segs IH]; intros prompt Hp Hs; simpl.
  - rewrite app_nil_r. by apply split_no_sep.
  - apply Forall_cons in Hs as [Hseg Hs].
    rewrite split_at_sep by done. f_equal. by apply IH.
Qed.

Lemma parse_segments_fold segs : forall opts corr,
  fold_left parse_segment segs (opts, corr)
  = (opts ++ (unmark <$> segs), corr ++ marked_from (len opts) segs).
Proof.
  induction segs as [|seg segs IH]; intros opts corr.
  - simpl. by rewrite !app_nil_r.
  - cbn [fold_left fmap list_fmap marked_from]. unfold parse_segment at 2.
    unfold unmark at 1.
    assert (Hlen : forall x : str, len (opts ++ [x]) = len opts + 1)
      by (intros x; unfold len; rewrite length_app; simpl; lia).
    destruct (PyStr.startswith _ seg); rewrite IH, Hlen, <- !app_assoc.
    + simpl. unfold len. rewrite length_app. simpl.
      by replace (Z.of_nat (length opts + 1) - 1) with (Z.of_nat (length opts))
        by lia.
    + done.
Qed.

(** What the parser does with a line in the format. *)
Lemma parse_line_formatted int qs line k prompt segs :
  Formatted int line k prompt segs ->
  parse_line int qs line = <[k := question_of k prompt segs]> qs.
Proof.
  intros (idstr & Hs & Hid & Hint & Hp & Hsegs & Hne). unfold parse_line.
  rewrite Hs. rewrite bool_decide_eq_false_2 by by destruct idstr.
  rewrite split1_at_sep by done. simpl. rewrite Hint.
  rewrite split_record_text by done.
  destruct segs as [|seg segs]; [done|]. cbn [length tail nth].
  rewrite (parse_segments_fold (seg :: segs) [] []).
  rewrite !app_nil_l. change (len []) with 0.
  by rewrite bool_decide_eq_false_2 by done.
Qed.

Lemma parse_questions_snoc int before line :
  parse_questions int (before ++ [line])
  = parse_line int (parse_questions int before) line.
Proof. unfold parse_questions. by rewrite fold_left_app. Qed.

(** Every question that a line stores is the question of its prompt and
    its option segments, under the id of the line. *)
Lemma parse_line_builds int qs line k q :
  parse_line int qs line !! k = Some q ->
  qs !! k = Some q
  \/ exists prompt segs, segs <> [] /\ q = question_of k prompt segs.
Proof.
  unfold parse_line.
  case_bool_decide; [by left|].
  destruct (_ <? _)%nat; [by left|].
  destruct (int _) as [q_id|]; [|by left].
  destruct (PyStr.split 42 _) as [|prompt segs] eqn:Hsplit; [by left|].
  cbn [length tail nth].
  destruct segs as [|seg segs]; [by left|]. cbn [length Nat.ltb Nat.leb].
  rewrite (parse_segments_fold (seg :: segs) [] []), !app_nil_l.
  change (len []) with 0.
  rewrite bool_decide_eq_false_2 by done.
  destruct (decide (q_id = k)) as [->|Hk].
  - rewrite lookup_insert_eq. intros [= <-]. right. by exists prompt, (seg :: segs).
  - rewrite lookup_insert_ne by done. by left.
Qed.

Lemma parse_questions_builds int lines k q :
  parse_questions int lines !! k = Some q ->
  exists prompt segs, segs <> [] /\ q = question_of k prompt segs.
Proof.
  induction lines as [|line lines IH] using rev_ind.
  - unfold parse_questions. simpl. by rewrite lookup_empty.
  - rewrite parse_questions_snoc. intros [H|H]%parse_line_builds; auto.
Qed.

Lemma marked_from_sorted segs : forall i,
  StronglySorted Z.lt (marked_from i segs)
  /\ Forall (fun j => i <= j) (marked_from i segs).
Proof.
  induction segs as [|seg segs IH]; intros i; cbn [marked_from];
    [by split; constructor|].
  destruct (IH (i + 1)) as [Hs Hf].
  assert (Hf' : Forall (fun j => i <= j) (marked_from (i + 1) segs))
    by (eapply Forall_impl; [exact Hf|]; simpl; lia).
  destruct (PyStr.startswith (lit "[X]") seg); [|done].
  split.
  - constructor; [done|]. eapply Forall_impl; [exact Hf|]. simpl. lia.
  - constructor; [lia | done].
Qed.

(** X1. A line in the format of the bank, parsed alone, is stored under
    its id as the question of its prompt and option segments: the options
    are the segments in order, each without its [[X]] marker, and the
    correct indices are the rows of the segments that carry the marker. *)
Theorem formatted_line_is_read_back int line k prompt segs :
  Formatted int line k prompt segs ->
  parse_questions int [line] !! k
  = Some (mkQuestion k prompt (unmark <$> segs) (marked_from 0 segs)).
Proof.
  intros Hf. change [line] with ([] ++ [line]).
  rewrite parse_questions_snoc, (parse_line_formatted _ _ _ _ _ _ Hf).
  by rewrite lookup_insert_eq.
Qed.

Lemma formatted_demo :
  Formatted PyStr.int (lit "  12 Which?*[X]yes*no*[X]maybe  ") 12
    (lit "Which?") [lit "[X]yes"; lit "no"; lit "[X]maybe"].
Proof.
  exists (lit "12"). split; [vm_compute; reflexivity|].
  split; [apply (bool_decide_unpack _); vm_compute; exact I|].
  split; [vm_compute; reflexivity|].
  split; [apply (bool_decide_unpack _); vm_compute; exact I|].
  split; [|discriminate].
  repeat constructor; apply (bool_decide_unpack _); vm_compute; exact I.
Defined.

Lemma formatted_line_is_read_back_witness :
  Formatted PyStr.int (lit "  12 Which?*[X]yes*no*[X]maybe  ") 12
    (lit "Which?") [lit "[X]yes"; lit "no"; lit "[X]maybe"]
  /\ parse_questions PyStr.int [lit "  12 Which?*[X]yes*no*[X]maybe  "] !! 12
     = Some (mkQuestion 12 (lit "Which?")
               [lit "yes"; lit "no"; lit "maybe"] [0; 2]).
Proof.
  split; [exact formatted_demo|].
  exact (formatted_line_is_read_back PyStr.int _ 12 _ _ formatted_demo).
Defined.

(** X2. Duplicate ids: a formatted line at the end of the file replaces
    whatever an earlier line stored under its id, and leaves the entries
    of all other ids as they were. *)
Theorem last_line_wins int before line k prompt segs :
  Formatted int line k prompt segs ->
  parse_questions int (before ++ [line]) !! k
  = Some (question_of k prompt segs)
  /\ (forall k', k' <> k ->
        parse_questions int (before ++ [line]) !! k'
        = parse_questions int before !! k').
Proof.
  intros Hf. rewrite parse_questions_snoc, (parse_line_formatted _ _ _ _ _ _ Hf).
  split; [by rewrite lookup_insert_eq|].
  intros k' Hk. by rewrite lookup_insert_ne.
Qed.

Lemma last_line_wins_witness :
  Formatted PyStr.int (lit "  12 Which?*[X]yes*no*[X]maybe  ") 12
    (lit "Which?") [lit "[X]yes"; lit "no"; lit "[X]maybe"]
  /\ parse_questions PyStr.int
       ([lit "12 Old*[X]a"; lit "3 Other*b"]
        ++ [lit "  12 Which?*[X]yes*no*[X]maybe  "]) !! 12
     = Some (question_of 12 (lit "Which?")
               [lit "[X]yes"; lit "no"; lit "[X]maybe"]).
Proof.
  split; [exact formatted_demo|].
  exact (proj1 (last_line_wins PyStr.int [lit "12 Old*[X]a"; lit "3 Other*b"]
                  _ 12 _ _ formatted_demo)).
Defined.

(** X3. Every question in the mapping that the parser returns is stored
    under its own id, has at least one option, and lists its correct
    indices in strictly increasing order, so none twice. *)
Theorem stored_question_shape int lines k q :
  parse_questions int lines !! k = Some q ->
  id q = k /\ (0 < length (options q))%nat
  /\ StronglySorted Z.lt (correct_indices q) /\ NoDup (correct_indices q).
Proof.
  intros (prompt & segs & Hne & ->)%parse_questions_builds. simpl.
  destruct (marked_from_sorted segs 0) as [Hs _].
  split; [done|]. split; [|split; [done|]].
  - rewrite length_fmap. destruct segs; [done | simpl; lia].
  - clear -Hs. induction Hs as [|x l Hl IH Hx]; constructor; [|done].
    intros Hin. rewrite Forall_forall in Hx. specialize (Hx x Hin). lia.
Qed.

Lemma stored_question_shape_witness :
  parse_questions PyStr.int [lit "7 Q*a*[X]b*[X]c"] !! 7
  = Some (mkQuestion 7 (lit "Q") [lit "a"; lit "b"; lit "c"] [1; 2])
  /\ (7 = 7 /\ (0 < 3)%nat
      /\ StronglySorted Z.lt [1; 2] /\ NoDup [1; 2]).
Proof.
  split; [vm_compute; reflexivity|].
  apply (stored_question_shape PyStr.int [lit "7 Q*a*[X]b*[X]c"] 7
           (mkQuestion 7 (lit "Q") [lit "a"; lit "b"; lit "c"] [1; 2])).
  vm_compute. reflexivity.
Defined.

Lemma lstrip_app_space ws l :
  Forall (fun c => PyStr.isspace c = true) ws ->
  PyStr.lstrip (ws ++ l) = PyStr.lstrip l.
Proof.
  induction 1 as [|c ws Hc _ IH]; [done|]. simpl. by rewrite Hc.
Qed.

Lemma lstrip_app_kept l r :
  PyStr.lstrip l <> [] -> PyStr.lstrip (l ++ r) = PyStr.lstrip l ++ r.
Proof.
  induction l as [|c l IH]; simpl; [done|].
  destruct (PyStr.isspace c); [exact IH | done].
Qed.

Lemma rstrip_app_space l ws :
  Forall (fun c => PyStr.isspace c = true) ws ->
  PyStr.rstrip (l ++ ws) = PyStr.rstrip l.
Proof.
  intros Hws. unfold PyStr.rstrip. rewrite rev_app_distr.
  rewrite lstrip_app_space; [done|].
  apply Forall_forall. intros x Hx. rewrite Forall_forall in Hws.
  apply Hws. by apply list_elem_of_In, in_rev, list_elem_of_In.
Qed.

Lemma strip_padded ws1 l ws2 :
  Forall (fun c => PyStr.isspace c = true) ws1 ->
  Forall (fun c => PyStr.isspace c = true) ws2 ->
  PyStr.strip (ws1 ++ l ++ ws2) = PyStr.strip l.
Proof.
  intros H1 H2. unfold PyStr.strip. rewrite lstrip_app_space by done.
  destruct (PyStr.lstrip l) as [|c r] eqn:Hl.
  - apply lstrip_nil in Hl.
    assert (Hall : PyStr.lstrip (l ++ ws2) = [])
      by (apply lstrip_nil, Forall_app; by split).
    by rewrite Hall.
  - rewrite lstrip_app_kept by (by rewrite Hl). rewrite Hl.
    by apply rstrip_app_space.
Qed.

(** X4. White space around a line does not matter to the parser: a line
    gives the same mapping with any white space before and after it, so
    the lines of a file give the same mapping with or without the newline
    that ends each of them. *)
Theorem surrounding_space_is_ignored int :
  (forall ws1 ws2 line qs,
     Forall (fun c => PyStr.isspace c = true) ws1 ->
     Forall (fun c => PyStr.isspace c = true) ws2 ->
     parse_line int qs (ws1 ++ line ++ ws2) = parse_line int qs line)
  /\ (forall lines,
        parse_questions int ((fun line => line ++ [10%N]) <$> lines)
        = parse_questions int lines).
Proof.
  assert (Hline : forall ws1 ws2 line qs,
     Forall (fun c => PyStr.isspace c = true) ws1 ->
     Forall (fun c => PyStr.isspace c = true) ws2 ->
     parse_line int qs (ws1 ++ line ++ ws2) = parse_line int qs line).
  { intros ws1 ws2 line qs H1 H2. unfold parse_line.
    by rewrite strip_padded. }
  split; [exact Hline|].
  intros lines. unfold parse_questions. generalize (∅ : gmap Z Question).
  induction lines as [|line lines IH]; intros qs; [done|].
  cbn [fmap list_fmap fold_left]. rewrite <- IH. f_equal.
  apply (Hline [] [10%N] line qs); repeat constructor.
Qed.

(* ===================================================================== *)
(** * The module loader *)
(* ===================================================================== *)

Lemma load_module_inr acc m mods :
  load_module acc m = inr mods ->
  exists k name description questions,
    raw_id m = Some k /\ raw_name m = Some name
    /\ raw_description m = Some description
    /\ raw_questions m = Some questions
    /\ mods = <[k := mkModule name description questions]> acc.
Proof.
  unfold load_module.
  destruct (raw_name m) as [name|], (raw_description m) as [description|],
    (raw_questions m) as [questions|], (raw_id m) as [k|]; try done.
  intros [= <-]. by exists k, name, description, questions.
Qed.

Lemma load_module_inl acc m e :
  load_module acc m = inl e ->
  e = KeyError
  /\ ~ (is_Some (raw_id m) /\ is_Some (raw_name m)
        /\ is_Some (raw_description m) /\ is_Some (raw_questions m)).
Proof.
  unfold load_module.
  destruct (raw_name m) as [name|], (raw_description m) as [description|],
    (raw_questions m) as [questions|], (raw_id m) as [k|]; try done;
    intros [= <-]; (split; [done|]);
    intros (H1 & H2 & H3 & H4); by (destruct H1 || destruct H2
                                     || destruct H3 || destruct H4).
Qed.

Lemma load_module_list_app acc l1 l2 :
  load_module_list acc (l1 ++ l2)
  = match load_module_list acc l1 with
    | inr mods => load_module_list mods l2
    | inl e => inl e
    end.
Proof.
  revert acc. induction l1 as [|m l1 IH]; intros acc; [done|]. simpl.
  destruct (load_module acc m); [done | apply IH].
Qed.

Lemma load_module_list_other l : forall acc mods k,
  load_module_list acc l = inr mods ->
  Forall (fun m => raw_id m <> Some k) l ->
  mods !! k = acc !! k.
Proof.
  induction l as [|m l IH]; intros acc mods k; simpl; [by intros [= <-]|].
  destruct (load_module acc m) as [|acc'] eqn:Hm; [done|].
  intros Hl [Hk Hrest]%Forall_cons. rewrite (IH _ _ _ Hl Hrest).
  apply load_module_inr in Hm as (k' & ? & ? & ? & Hid & _ & _ & _ & ->).
  apply lookup_insert_ne. congruence.
Qed.

Lemma load_module_list_keys l : forall acc mods k,
  load_module_list acc l = inr mods ->
  is_Some (mods !! k)
  <-> is_Some (acc !! k) \/ exists m, m ∈ l /\ raw_id m = Some k.
Proof.
  induction l as [|m l IH]; intros acc mods k; simpl.
  - intros [= <-]. split; [by left|]. intros [?|(m & Hm & _)]; [done|].
    by apply elem_of_nil in Hm.
  - destruct (load_module acc m) as [|acc'] eqn:Hm; [done|].
    intros Hl. rewrite (IH _ _ _ Hl).
    apply load_module_inr in Hm as (k' & ? & ? & ? & Hid & _ & _ & _ & ->).
    split.
    + intros [Hin|(m' & Hm' & Hk)].
      * destruct (decide (k' = k)) as [->|Hne].
        -- right. exists m. split; [by left | done].
        -- rewrite lookup_insert_ne in Hin by done. by left.
      * right. exists m'. split; [by right | done].
    + intros [Hin|(m' & Hm' & Hk)].
      * left. destruct (decide (k' = k)) as [->|Hne].
        -- by rewrite lookup_insert_eq.
        -- by rewrite lookup_insert_ne.
      * apply elem_of_cons in Hm' as [->|Hm'].
        -- left. assert (k' = k) as -> by congruence.
           by rewrite lookup_insert_eq.
        -- right. by exists m'.
Qed.

Lemma load_module_list_result l : forall acc,
  match load_module_list acc l with
  | inr _ =>
      Forall (fun m => is_Some (raw_id m) /\ is_Some (raw_name m)
                       /\ is_Some (raw_description m)
                       /\ is_Some (raw_questions m)) l
  | inl e =>
      e = KeyError
      /\ ~ Forall (fun m => is_Some (raw_id m) /\ is_Some (raw_name m)
                            /\ is_Some (raw_description m)
                            /\ is_Some (raw_questions m)) l
  end.
Proof.
  induction l as [|m l IH]; intros acc; simpl; [constructor|].
  destruct (load_module acc m) as [e|acc'] eqn:Hm.
  - apply load_module_inl in Hm as [-> Hm]. split; [done|].
    by intros [? _]%Forall_cons.
  - apply load_module_inr in Hm as (k & ? & ? & ? & Hk & Hn & Hd & Hq & _).
    specialize (IH acc'). destruct (load_module_list acc' l).
    + destruct IH as [-> IH]. split; [done|]. by intros [_ ?]%Forall_cons.
    + constructor; [|done]. rewrite Hk, Hn, Hd, Hq. by repeat split.
Qed.

(** *** The loader on any decoded document *)

Lemma load_entry_inr modules module d :
  load_entry modules module = inr d -> complete module.
Proof.
  unfold load_entry, subscript, complete.
  destruct module as [| | | | |items|members]; try done.
  destruct (member (lit "name") members) as [name|] eqn:Hn; [|done].
  destruct (member (lit "description") members) as [description|] eqn:Hd;
    [|done].
  destruct (member (lit "questions") members) as [questions|] eqn:Hq;
    [|done].
  destruct (member (lit "id") members) as [id|] eqn:Hi; [|done].
  destruct (hashable id) eqn:Hid; [|done].
  intros _. exists members, id. rewrite Hn, Hd, Hq.
  split; [done|]. split; [by eexists|]. split; [by eexists|].
  split; [by eexists|]. by split.
Qed.

Lemma load_entry_complete modules module :
  complete module -> exists d, load_entry modules module = inr d.
Proof.
  intros (members & id & -> & [name Hn] & [description Hd] & [questions Hq]
          & Hi & Hh).
  unfold load_entry, subscript. rewrite Hn, Hd, Hq, Hi, Hh. by eexists.
Qed.

Lemma load_entry_inl modules module e :
  load_entry modules module = inl e ->
  (e = KeyError /\ lacks_a_key module) \/ e = TypeError.
Proof.
  unfold load_entry, subscript, lacks_a_key.
  destruct module as [| | | | |items|members];
    try (intros [= <-]; by right).
  destruct (member (lit "name") members) as [name|] eqn:Hn;
    [|intros [= <-]; left; split; [done|]; exists members; by auto].
  destruct (member (lit "description") members) as [description|] eqn:Hd;
    [|intros [= <-]; left; split; [done|]; exists members; by auto].
  destruct (member (lit "questions") members) as [questions|] eqn:Hq;
    [|intros [= <-]; left; split; [done|]; exists members; by auto].
  destruct (member (lit "id") members) as [id|] eqn:Hi;
    [|intros [= <-]; left; split; [done|]; exists members; by auto 6].
  destruct (hashable id); [done|]. intros [= <-]. by right.
Qed.

Lemma load_entries_result l : forall modules,
  match load_entries modules l with
  | inr _ => Forall complete l
  | inl e =>
      ((e = KeyError /\ Exists lacks_a_key l) \/ e = TypeError)
      /\ ~ Forall complete l
  end.
Proof.
  induction l as [|module l IH]; intros modules; simpl; [constructor|].
  destruct (load_entry modules module) as [e|d] eqn:Hm.
  - split.
    + apply load_entry_inl in Hm as [[-> Hm] | ->]; [left | by right].
      split; [done|]. by constructor.
    + intros [Hc _]%Forall_cons.
      destruct (load_entry_complete modules _ Hc) as [d Hd]. congruence.
  - apply load_entry_inr in Hm. specialize (IH d).
    destruct (load_entries d l) as [e|d'].
    + destruct IH as [IH Hnot]. split.
      * destruct IH as [[-> IH] | ->]; [left | by right].
        split; [done|]. by apply Exists_cons_tl.
      * by intros [_ ?]%Forall_cons.
    + by constructor.
Qed.

(** X5. The loader, once the file is decoded, gives all the modules or
    none. It returns a mapping exactly when the document is a dict with
    the 'modules' key, what is under that key can be gone through (a
    list; a dict or a string too, which pass only when empty), and every
    record in it is a dict with the four keys whose id can be a key.
    Otherwise it raises [KeyError] or [TypeError]: [KeyError] only when
    the document has no 'modules' key or a record is a dict without one
    of its four keys, [TypeError] for every other shape, among them an id
    that is a list or a dict in a record that has all four keys. *)
Theorem load_modules_json_outcome data :
  ((exists modules, load_modules_json data = inr modules)
   <-> exists members v records,
         data = JObj members
         /\ member (lit "modules") members = Some v
         /\ iterate v = inr records
         /\ Forall complete records)
  /\ (forall e,
        load_modules_json data = inl e -> e = KeyError \/ e = TypeError)
  /\ (load_modules_json data = inl KeyError ->
      exists members,
        data = JObj members
        /\ (member (lit "modules") members = None
            \/ exists v records,
                 member (lit "modules") members = Some v
                 /\ iterate v = inr records
                 /\ Exists lacks_a_key records))
  /\ (forall members name description questions id,
        member (lit "name") members = Some name ->
        member (lit "description") members = Some description ->
        member (lit "questions") members = Some questions ->
        member (lit "id") members = Some id ->
        hashable id = false ->
        load_modules_json
          (JObj [(lit "modules", JArr [JObj members])])
        = inl TypeError).
Proof.
  split; [|split; [|split]].
  - split.
    + intros [modules H]. unfold load_modules_json, subscript in H.
      destruct data as [| | | | |items|members]; try done.
      destruct (member (lit "modules") members) as [v|] eqn:Hv; [|done].
      destruct (iterate v) as [e|records] eqn:Hit; [done|].
      pose proof (load_entries_result records []) as Hr. rewrite H in Hr.
      by exists members, v, records.
    + intros (members & v & records & -> & Hv & Hit & Hall).
      unfold load_modules_json, subscript. rewrite Hv, Hit.
      pose proof (load_entries_result records []) as Hr.
      destruct (load_entries [] records) as [e|d]; [|by eexists].
      by destruct Hr as [_ Hr].
  - intros e. unfold load_modules_json, subscript.
    destruct data as [| | | | |items|members];
      try (intros [= <-]; by right).
    destruct (member (lit "modules") members) as [v|];
      [|intros [= <-]; by left].
    destruct (iterate v) as [e'|records] eqn:Hit.
    + intros [= <-]. right.
      by destruct v; try discriminate Hit; injection Hit as <-.
    + pose proof (load_entries_result records []) as Hr.
      intros H. rewrite H in Hr.
      destruct Hr as [[[-> _] | ->] _]; [by left | by right].
  - unfold load_modules_json, subscript.
    destruct data as [| | | | |items|members]; try done.
    intros H. exists members. split; [done|].
    destruct (member (lit "modules") members) as [v|]; [|by left].
    right. destruct (iterate v) as [e'|records] eqn:Hit.
    + destruct v; simpl in *; simplify_eq.
    + pose proof (load_entries_result records []) as Hr. rewrite H in Hr.
      destruct Hr as [[[_ Hr] | ?] _]; [|done]. by exists v, records.
  - intros members name description questions id Hn Hd Hq Hi Hh.
    unfold load_modules_json. simpl.
    unfold load_entry, subscript. by rewrite Hn, Hd, Hq, Hi, Hh.
Qed.

(** *** The typed loader is the loader on documents of its shape *)

Lemma dict_get_set_int {V} (k : Z) (v : V) (d : list (json * V)) (z : Z) :
  Forall (fun kv => exists i, fst kv = JInt i) d ->
  dict_get (JInt z) (dict_set (JInt k) v d)
  = if decide (z = k) then Some v else dict_get (JInt z) d.
Proof.
  induction d as [|[k' v'] d IH]; intros Hd.
  - simpl. destruct (Z.eqb_spec k z), (decide (z = k)); congruence.
  - apply Forall_cons in Hd as [[i Hi] Hd]. simpl in Hi. subst k'.
    specialize (IH Hd). simpl.
    destruct (Z.eqb_spec i k) as [->|Hik]; simpl.
    + destruct (Z.eqb_spec k z), (decide (z = k)); congruence.
    + rewrite IH.
      destruct (Z.eqb_spec i z), (decide (z = k)); congruence.
Qed.

Lemma dict_set_int_keys {V} (k : Z) (v : V) (d : list (json * V)) :
  Forall (fun kv => exists i, fst kv = JInt i) d ->
  Forall (fun kv => exists i, fst kv = JInt i) (dict_set (JInt k) v d).
Proof.
  induction d as [|[k' v'] d IH]; intros Hd; simpl.
  - constructor; [by exists k | done].
  - apply Forall_cons in Hd as [Hk Hd].
    destruct (py_eq k' (JInt k)); constructor; auto.
Qed.

Lemma load_entry_of_module d m :
  load_entry d (json_of_module m)
  = match raw_name m, raw_description m, raw_questions m, raw_id m with
    | Some n, Some de, Some q, Some k =>
        inr (dict_set (JInt k)
               (mkEntry (JStr n) (JStr de) (JArr (JInt <$> q))) d)
    | _, _, _, _ => inl KeyError
    end.
Proof. destruct m as [[k|] [n|] [de|] [q|]]; reflexivity. Qed.

Lemma load_entries_of_modules l : forall acc d,
  Forall (fun kv => exists i, fst kv = JInt i) d ->
  (forall k, dict_get (JInt k) d = entry_of_module <$> acc !! k) ->
  match load_module_list acc l with
  | inr mods =>
      exists d',
        load_entries d (json_of_module <$> l) = inr d'
        /\ Forall (fun kv => exists i, fst kv = JInt i) d'
        /\ forall k, dict_get (JInt k) d' = entry_of_module <$> mods !! k
  | inl e =>
      e = KeyError
      /\ load_entries d (json_of_module <$> l) = inl KeyError
  end.
Proof.
  induction l as [|m l IH]; intros acc d Hkeys Hget; simpl.
  - by exists d.
  - rewrite load_entry_of_module. unfold load_module.
    destruct (raw_name m) as [n|], (raw_description m) as [de|],
      (raw_questions m) as [q|], (raw_id m) as [k|]; try done.
    apply IH; [by apply dict_set_int_keys|].
    intros z. rewrite dict_get_set_int by done.
    destruct (decide (z = k)) as [->|Hne].
    + by rewrite lookup_insert_eq.
    + by rewrite lookup_insert_ne.
Qed.

(** On a document of the expected shape the loader never raises
    [TypeError], and what it does is what the typed loader does: it
    raises [KeyError] when the typed loader does, and else returns a dict
    with int keys that holds under each id the entry of the typed
    mapping. *)
Lemma load_modules_json_of_document data :
  match load_modules data with
  | inr mods =>
      exists d,
        load_modules_json (json_of_document data) = inr d
        /\ Forall (fun kv => exists i, fst kv = JInt i) d
        /\ forall k, dict_get (JInt k) d = entry_of_module <$> mods !! k
  | inl e =>
      e = KeyError
      /\ load_modules_json (json_of_document data) = inl KeyError
  end.
Proof.
  destruct data as [l|]; [|done].
  apply (load_entries_of_modules l ∅ []); [constructor|].
  intros k. by rewrite lookup_empty.
Qed.

(** X6. When the loader returns, the ids of the mapping are the ids of
    the records, and an id that several records share holds the name, the
    description and the question ids of the last of them. *)
Theorem load_modules_last_record_wins l mods :
  load_modules (Some l) = inr mods ->
  (forall k, is_Some (mods !! k) <-> exists m, m ∈ l /\ raw_id m = Some k)
  /\ (forall l1 m l2 k,
        l = l1 ++ m :: l2 -> raw_id m = Some k ->
        Forall (fun m' => raw_id m' <> Some k) l2 ->
        exists name description questions,
          raw_name m = Some name /\ raw_description m = Some description
          /\ raw_questions m = Some questions
          /\ mods !! k = Some (mkModule name description questions)).
Proof.
  simpl. intros Hl. split.
  - intros k. rewrite (load_module_list_keys _ _ _ k Hl).
    rewrite lookup_empty. split; [|by right].
    intros [[? ?]|?]; done.
  - intros l1 m l2 k -> Hk Hl2.
    rewrite load_module_list_app in Hl.
    destruct (load_module_list ∅ l1) as [|acc1]; [done|]. simpl in Hl.
    destruct (load_module acc1 m) as [|acc2] eqn:Hm; [done|].
    apply load_module_inr in Hm as (k' & name & d & q & Hid & ? & ? & ? & ->).
    assert (k' = k) as -> by congruence.
    exists name, d, q. split; [done|]. split; [done|]. split; [done|].
    rewrite (load_module_list_other _ _ _ _ Hl Hl2).
    apply lookup_insert_eq.
Qed.

Lemma load_modules_last_record_wins_witness :
  load_modules
    (Some [mkRawModule (Some 2) (Some (lit "old")) (Some (lit "d")) (Some [1]);
           mkRawModule (Some 5) (Some (lit "five")) (Some (lit "e")) (Some []);
           mkRawModule (Some 2) (Some (lit "new")) (Some (lit "f"))
             (Some [3; 4])])
  = inr (<[2 := mkModule (lit "new") (lit "f") [3; 4]]>
           (<[5 := mkModule (lit "five") (lit "e") []]>
              (<[2 := mkModule (lit "old") (lit "d") [1]]> ∅)))
  /\ is_Some
       ((<[2 := mkModule (lit "new") (lit "f") [3; 4]]>
           (<[5 := mkModule (lit "five") (lit "e") []]>
              (<[2 := mkModule (lit "old") (lit "d") [1]]> ∅))
         : gmap Z Module_) !! 5).
Proof.
  split; [reflexivity|].
  match goal with
  | |- is_Some (?M !! 5) =>
      assert (H : load_modules
        (Some [mkRawModule (Some 2) (Some (lit "old")) (Some (lit "d"))
                 (Some [1]);
               mkRawModule (Some 5) (Some (lit "five")) (Some (lit "e"))
                 (Some []);
               mkRawModule (Some 2) (Some (lit "new")) (Some (lit "f"))
                 (Some [3; 4])]) = inr M) by reflexivity
  end.
  apply (proj1 (load_modules_last_record_wins _ _ H) 5).
  exists (mkRawModule (Some 5) (Some (lit "five")) (Some (lit "e")) (Some [])).
  split; [|reflexivity]. apply elem_of_cons. right.
  apply elem_of_cons. by left.
Defined.

(* ===================================================================== *)
(** * Further properties of the input reader *)
(* ===================================================================== *)

(** X7. [get_arrow_key] raises nothing. When it returns it has read one,
    two or three characters from the front of the input and changed
    nothing else; it waits for ever only when fewer than three characters
    were left. *)
Theorem get_arrow_key_reads_up_to_three s :
  match get_arrow_key s with
  | Ok _ s' =>
      exists read,
        stdin s = read ++ stdin s'
        /\ (1 <= length read <= 3)%nat
        /\ s' = with_stdin (stdin s') s
  | Blocked _ => (length (stdin s) <= 2)%nat
  | Raised _ _ => False
  | OutOfFuel => False
  end.
Proof.
  destruct s as [qs ms ci qq st pf input draws out].
  unfold get_arrow_key, bind, get, read1, ret. cbn [platform stdin].
  destruct pf; destruct input as [|a [|b [|c r]]]; cbn [stdin with_stdin];
    try (simpl; lia);
    repeat (match goal with
            | |- context [if ?t then _ else _] => destruct t
            end; cbn [stdin with_stdin]);
    cbn [stdin with_stdin length];
    try lia;
    first [ exists [a]; split; [reflexivity|]; split;
              [simpl; lia | reflexivity]
          | exists [a; b]; split; [reflexivity|]; split;
              [simpl; lia | reflexivity]
          | exists [a; b; c]; split; [reflexivity|]; split;
              [simpl; lia | reflexivity] ].
Qed.

Lemma skip_to_enter_split input :
  match skip_to_enter input with
  | Some after =>
      exists before, input = before ++ 13%N :: after /\ (13%N ∉ before)
  | None => 13%N ∉ input
  end.
Proof.
  induction input as [|c input IH]; simpl; [apply not_elem_of_nil|].
  destruct (N.eqb_spec c 13) as [->|Hc].
  - exists []. split; [done | apply not_elem_of_nil].
  - destruct (skip_to_enter input) as [after|].
    + destruct IH as (before & -> & Hb). exists (c :: before).
      split; [done|]. apply not_elem_of_cons. by split.
    + apply not_elem_of_cons. by split.
Qed.

Lemma skip_to_enter_at before after :
  13%N ∉ before -> skip_to_enter (before ++ 13%N :: after) = Some after.
Proof.
  induction before as [|c before IH]; simpl; [done|].
  intros [Hc Hb]%not_elem_of_cons.
  destruct (N.eqb_spec c 13); [done | by apply IH].
Qed.

(** X8. [wait_for_enter] returns exactly when a carriage return is still
    to come; everything typed before it, escape included, is read and
    dropped, what follows it is left to be read, and nothing else
    changes. Without a carriage return to come it waits for ever. *)
Theorem wait_for_enter_drops_until_return s :
  (forall s',
     wait_for_enter s = Ok tt s'
     <-> exists before after,
           stdin s = before ++ 13%N :: after /\ (13%N ∉ before)
           /\ s' = with_stdin after s)
  /\ ((exists s', wait_for_enter s = Blocked s') <-> 13%N ∉ stdin s)
  /\ (forall e s', wait_for_enter s <> Raised e s').
Proof.
  unfold wait_for_enter. pose proof (skip_to_enter_split (stdin s)) as H.
  destruct (skip_to_enter (stdin s)) as [after|] eqn:Hskip.
  - destruct H as (before & Hin & Hb). split; [|split; [|done]].
    + intros s'. split.
      * intros [= <-]. by exists before, after.
      * intros (before' & after' & Hin' & Hb' & ->).
        rewrite Hin', skip_to_enter_at in Hskip by done. by injection Hskip as ->.
    + split; [by intros [? ?]|]. intros Hno. exfalso. apply Hno.
      rewrite Hin. apply elem_of_app. right. by left.
  - split; [|split; [|done]].
    + intros s'. split; [done|].
      intros (before & after & Hin & _). exfalso. apply H. rewrite Hin.
      apply elem_of_app. right. by left.
    + split; [done | by eexists].
Qed.

(** X9. On a terminal that is not win32, escape counts only once a
    further character has been read, and that character is lost unless it
    opens an arrow sequence: in the per-question loop, escape followed by
    any character but [[] ends the loop with the absent answer and both
    characters read, and escape with nothing after it leaves the loop
    waiting. *)
Theorem posix_escape_takes_the_next_character
    question number s c rest :
  platform s = Posix ->
  stdin s = 27%N :: c :: rest -> c <> 91%N ->
  show_question question number s
  = Ok None (with_stdin rest
               (with_stdout (stdout s ++ [ScrQuestion number
                                            (len (quiz_questions s))
                                            question 0 ∅]) s))
  /\ show_question question number (with_stdin [27%N] s)
     = Blocked (with_stdin []
                  (with_stdout (stdout s ++ [ScrQuestion number
                                               (len (quiz_questions s))
                                               question 0 ∅]) s)).
Proof.
  intros Hp Hin Hc. split.
  - unfold show_question. rewrite show_question_from_unfold. unfold bind.
    rewrite (show_question_body_key _ _ _ _ _ Esc
               (with_stdin rest
                  (with_stdout (stdout s ++ [ScrQuestion number
                     (len (quiz_questions s)) question 0 ∅]) s))); [done|].
    destruct s as [qs ms ci qq st pf input draws out]. simpl in *. subst.
    unfold get_arrow_key, bind, get, read1, ret. simpl.
    by destruct (N.eqb_spec c 91).
  - destruct s as [qs ms ci qq st pf input draws out]. simpl in *. subst.
    reflexivity.
Qed.

Lemma posix_escape_takes_the_next_character_witness :
  platform (boot [27; 13; 13]%N []) = Posix
  /\ show_question q1 1 (boot [27; 13; 13]%N [])
     = Ok None (with_stdin [13]%N
                  (with_stdout [ScrQuestion 1 0 q1 0 ∅]
                     (boot [27; 13; 13]%N []))).
Proof.
  split; [reflexivity|].
  apply (posix_escape_takes_the_next_character q1 1 (boot [27; 13; 13]%N [])
           13%N [13%N]); [reflexivity | reflexivity | discriminate].
Defined.

(** X10. The letters j and k, which the menus offer beside the arrows,
    are keys only on win32, where j is down and k is up; elsewhere each is
    read and ignored, and a pass of any of the three loops leaves the
    cursor where it was. *)
Theorem letters_move_only_on_win32 s c rest :
  stdin s = c :: rest -> (c = 106 \/ c = 107)%N ->
  (platform s = Win32 ->
   get_arrow_key s = Ok (if (c =? 106)%N then Down else Up) (with_stdin rest s))
  /\ (platform s = Posix ->
      get_arrow_key s = Ok NoKey (with_stdin rest s))
  /\ (forall question module_list selected checked s1,
        show_question_on_key question NoKey selected checked s1
        = Ok (Continue (selected, checked)) s1
        /\ select_mode_on_key NoKey selected s1 = Ok (Continue selected) s1
        /\ select_module_on_key module_list NoKey selected s1
           = Ok (Continue selected) s1).
Proof.
  intros Hin Hc.
  destruct s as [qs ms ci qq st pf input draws out]. simpl in *. subst.
  split; [|split]; [intros -> | intros -> | done];
    unfold get_arrow_key, bind, get, read1, ret; simpl;
    by destruct Hc as [-> | ->].
Qed.

Lemma letters_move_only_on_win32_witness :
  stdin (boot [106; 13]%N []) = [106; 13]%N
  /\ get_arrow_key (boot [106; 13]%N [])
     = Ok NoKey (with_stdin [13]%N (boot [106; 13]%N [])).
Proof.
  split; [reflexivity|].
  apply (letters_move_only_on_win32 (boot [106; 13]%N []) 106%N [13%N]);
    [reflexivity | by left | reflexivity].
Defined.

(* ===================================================================== *)
(** * Further properties of the menus *)
(* ===================================================================== *)

(** A menu pass whose handler leaves the state alone and establishes [P]
    of its result, raising only what [R] allows. *)
Lemma menu_pass_post {A} (x : Screen) (handler : Key -> M A)
    (P : A -> Prop) (R : exn -> Prop) s :
  (forall key s1,
     wp (handler key) (fun a s' => s' = s1 /\ P a)
        (fun e s' => s' = s1 /\ exists e', e = Some e' /\ R e') s1) ->
  wp (print x;; do key <- get_arrow_key; handler key)
     (fun a s' => io_eq s s' /\ (length (stdin s') < length (stdin s))%nat
                  /\ P a)
     (fun e s' => io_eq s s' /\ (e = None \/ exists e', e = Some e' /\ R e'))
     s.
Proof.
  intros Hh. apply wp_bind, wp_print. set (s1 := with_stdout _ s).
  assert (H1 : io_eq s s1) by apply io_eq_stdout.
  assert (Hin : stdin s1 = stdin s) by by destruct s.
  apply wp_bind, wp_get_arrow_key.
  - intros key s2 H2 _ Hlen. rewrite Hin in Hlen.
    eapply wp_mono; [apply Hh | |]; simpl.
    + intros a s' [-> Ha]. split; [by eapply io_eq_trans|]. by split.
    + intros e s' [-> He]. split; [by eapply io_eq_trans|]. by right.
  - intros s2 H2 _. split; [by eapply io_eq_trans|]. by left.
Qed.

Lemma select_mode_on_key_rows key selected s :
  0 <= selected < 3 ->
  wp (select_mode_on_key key selected)
     (fun c s' => s' = s /\
        match c with
        | Continue selected' => 0 <= selected' < 3
        | Return (Some row) => 0 <= row < 3
        | Return None => True
        end)
     (fun e s' => s' = s /\ exists e', e = Some e' /\ False) s.
Proof.
  intros Hsel. destruct key; unfold select_mode_on_key;
    try (by apply wp_ret);
    apply wp_bind, wp_py_mod; try done; intros _; apply wp_ret;
    (split; [done|]); change (len mode_options) with 3;
    apply Z.mod_pos_bound; lia.
Qed.

(** The top-level menu raises nothing and returns one of its three rows. *)
Lemma select_mode_loop_rows fuel :
  forall selected s,
  0 <= selected < 3 ->
  (length (stdin s) < fuel)%nat ->
  wp (select_mode_loop fuel selected)
     (fun r s' => io_eq s s' /\ (length (stdin s') < length (stdin s))%nat
                  /\ forall row, r = Some row -> 0 <= row < 3)
     (fun e s' => io_eq s s' /\ e = None) s.
Proof.
  induction fuel as [|fuel IH]; intros selected s Hsel Hfuel; [lia|].
  cbn [select_mode_loop]. apply wp_bind. unfold select_mode_body.
  eapply wp_mono;
    [apply (menu_pass_post _ _
              (fun c => match c with
                        | Continue selected' => 0 <= selected' < 3
                        | Return (Some row) => 0 <= row < 3
                        | Return None => True
                        end)
              (fun _ => False)); intros;
     by apply select_mode_on_key_rows | |].
  - intros c s1 (H1 & Hlen & Hc). destruct c as [selected'|r].
    + eapply wp_mono; [apply (IH selected' s1); [done | lia] | |].
      * intros r s2 (H2 & Hlen2 & Hr).
        split; [by eapply io_eq_trans|]. split; [lia | done].
      * intros e s2 [H2 ->]. split; [by eapply io_eq_trans | done].
    + apply wp_ret. split; [done|]. split; [done|].
      intros row ->. done.
  - intros e s1 [H1 [->|(e' & _ & [])]]. by split.
Qed.

Lemma wp_py_index_elem {A} (l : list A) i Q
    (E : option exn -> state -> Prop) s :
  (forall x, x ∈ l -> Q x s) -> E (Some IndexError) s ->
  wp (py_index l i) Q E s.
Proof.
  intros HQ HE. unfold py_index.
  destruct (_ <? 0); [by apply wp_raise|].
  destruct (l !! _) as [x|] eqn:Hx; [|by apply wp_raise].
  apply wp_ret, HQ. by eapply list_elem_of_lookup_2.
Qed.

(** A key in the module menu: what is returned is a row of the menu; with
    the cursor on a row nothing is raised and the cursor stays on a row;
    otherwise only a division by zero or an index out of range. *)
Lemma select_module_on_key_rows module_list key selected s :
  wp (select_module_on_key module_list key selected)
     (fun c s' => s' = s /\
        match c with
        | Continue selected' =>
            0 <= selected < len module_list ->
            0 <= selected' < len module_list
        | Return (Some m) => m ∈ module_list
        | Return None => True
        end)
     (fun e s' => s' = s /\ exists e',
        e = Some e'
        /\ ~ 0 <= selected < len module_list
        /\ (e' = ZeroDivisionError \/ e' = IndexError)) s.
Proof.
  destruct key; unfold select_module_on_key; try (by apply wp_ret).
  - apply wp_bind, wp_py_mod.
    + intros Hn. apply wp_ret. split; [done|]. intros Hsel.
      apply Z.mod_pos_bound. lia.
    + intros Hn. split; [done|]. exists ZeroDivisionError.
      split; [done|]. split; [lia | by left].
  - apply wp_bind, wp_py_mod.
    + intros Hn. apply wp_ret. split; [done|]. intros Hsel.
      apply Z.mod_pos_bound. lia.
    + intros Hn. split; [done|]. exists ZeroDivisionError.
      split; [done|]. split; [lia | by left].
  - destruct (decide (0 <= selected < len module_list)) as [Hsel|Hsel].
    + apply wp_bind, wp_py_index; [done|]. intros m Hm. apply wp_ret.
      split; [done|]. by eapply list_elem_of_lookup_2.
    + apply wp_bind, wp_py_index_elem.
      * intros m Hm. by apply wp_ret.
      * split; [done|]. exists IndexError. split; [done|].
        split; [done | by right].
Qed.

Lemma select_module_loop_rows module_list fuel :
  forall selected s,
  (length (stdin s) < fuel)%nat ->
  wp (select_module_loop fuel module_list selected)
     (fun r s' => io_eq s s' /\ (length (stdin s') < length (stdin s))%nat
                  /\ forall m, r = Some m -> m ∈ module_list)
     (fun e s' =>
        io_eq s s'
        /\ (e = None
            \/ exists e', e = Some e'
                 /\ ~ 0 <= selected < len module_list
                 /\ (e' = ZeroDivisionError \/ e' = IndexError))) s.
Proof.
  induction fuel as [|fuel IH]; intros selected s Hfuel; [lia|].
  cbn [select_module_loop]. apply wp_bind. unfold select_module_body.
  eapply wp_mono;
    [apply (menu_pass_post _ _
              (fun c => match c with
                        | Continue selected' =>
                            0 <= selected < len module_list ->
                            0 <= selected' < len module_list
                        | Return (Some m) => m ∈ module_list
                        | Return None => True
                        end)
              (fun e' => ~ 0 <= selected < len module_list
                         /\ (e' = ZeroDivisionError \/ e' = IndexError)));
     intros; apply select_module_on_key_rows | |].
  - intros c s1 (H1 & Hlen & Hc). destruct c as [selected'|r].
    + eapply wp_mono; [apply (IH selected' s1); lia | |].
      * intros r s2 (H2 & Hlen2 & Hr).
        split; [by eapply io_eq_trans|]. split; [lia | done].
      * intros e s2 [H2 He]. split; [by eapply io_eq_trans|].
        destruct He as [->|(e' & -> & Hout & He')]; [by left|].
        right. exists e'. split; [done|]. split; [|done].
        intros Hsel. by apply Hout, Hc.
    + apply wp_ret. split; [done|]. split; [done|].
      intros m ->. done.
  - intros e s1 [H1 He]. by split.
Qed.

Lemma module_list_members (ms : gmap Z Module_) m :
  m ∈ merge_sort Z.le (elements (dom ms)) <-> is_Some (ms !! m).
Proof. by rewrite merge_sort_Permutation, elem_of_elements, elem_of_dom. Qed.

Lemma module_list_empty (ms : gmap Z Module_) :
  merge_sort Z.le (elements (dom ms)) = [] <-> ms = ∅.
Proof.
  split.
  - intros Hl. apply map_eq. intros k. rewrite lookup_empty.
    destruct (ms !! k) eqn:Hk; [|done].
    assert (Hin : k ∈ merge_sort Z.le (elements (dom ms)))
      by (apply module_list_members; by rewrite Hk).
    rewrite Hl in Hin. by apply elem_of_nil in Hin.
  - intros ->. by rewrite dom_empty_L, elements_empty.
Qed.

(** [select_mode] call by call: what it returns, and what it can raise. *)
Lemma select_mode_post keys limit :
  forall s,
  wp (select_mode keys limit)
     (fun r s' =>
        io_eq s s' /\ (length (stdin s') < length (stdin s))%nat
        /\ match r with
           | None => True
           | Some (ids, mode) =>
               (ids = keys /\ mode = ModeRandom)
               \/ exists m md,
                    modules s !! m = Some md
                    /\ ids = mquestions md /\ mode = ModeModule (name md)
           end)
     (fun e s' =>
        io_eq s s'
        /\ (e = None
            \/ modules s = ∅
               /\ (e = Some ZeroDivisionError \/ e = Some IndexError)
            \/ e = Some RecursionError
               /\ (length (stdin s') + 2 * limit <= length (stdin s))%nat)) s.
Proof.
  induction limit as [|limit IH]; intros s.
  { apply wp_raise. split; [apply io_eq_refl|]. right. right.
    split; [done | lia]. }
  cbn [select_mode]. apply wp_bind.
  eapply wp_mono;
    [apply (select_mode_loop_rows (S (length (stdin s)))); lia | |].
  2:{ intros e s1 [H1 ->]. split; [done | by left]. }
  intros choice s1 (H1 & Hlen1 & Hrow).
  pose proof (io_eq_fields _ _ H1) as (Hq1 & Hm1 & _).
  destruct choice as [selected|]; [|by apply wp_ret].
  destruct (selected =? 0).
  { apply wp_ret. split; [done|]. split; [done|]. by left. }
  destruct (selected =? 1); [|by apply wp_ret].
  apply wp_bind. unfold select_module.
  eapply wp_mono;
    [apply (select_module_loop_rows _ (S (length (stdin s1)))); lia | |].
  - intros module_id s2 (H2 & Hlen2 & Hmem).
    assert (H12 : io_eq s s2) by by eapply io_eq_trans.
    pose proof (io_eq_fields _ _ H12) as (_ & Hm2 & _).
    destruct module_id as [module_id|].
    + apply wp_bind, wp_get.
      specialize (Hmem module_id eq_refl).
      apply module_list_members in Hmem as [md Hmd].
      rewrite Hm1 in Hmd.
      assert (Hlook : modules s2 !! module_id = Some md) by by rewrite Hm2.
      rewrite Hlook. apply wp_ret. split; [done|]. split; [lia|].
      right. by exists module_id, md.
    + eapply wp_mono; [apply (IH s2) | |].
      * intros r s3 (H3 & Hlen3 & Hr). split; [by eapply io_eq_trans|].
        split; [lia|].
        destruct r as [[ids mode]|]; [|done]. by rewrite Hm2 in Hr.
      * intros e s3 [H3 He]. split; [by eapply io_eq_trans|].
        destruct He as [-> | [He | [-> Hl]]]; [by left | |].
        -- right. left. by rewrite Hm2 in He.
        -- right. right. split; [done | lia].
  - intros e s2 [H2 He]. split; [by eapply io_eq_trans|].
    destruct He as [->|(e' & -> & Hout & He')]; [by left|]. right. left.
    split.
    + rewrite <- Hm1. apply module_list_empty.
      destruct (merge_sort Z.le (elements (dom (modules s1)))) eqn:Hl;
        [done|].
      exfalso. apply Hout. unfold len. simpl. lia.
    + by destruct He' as [-> | ->]; [left | right].
Qed.


Lemma select_module_unfold s :
  select_module s
  = (do c <- select_module_body
               (merge_sort Z.le (elements (dom (modules s)))) 0;
     match c with
     | Continue selected =>
         select_module_loop (length (stdin s))
           (merge_sort Z.le (elements (dom (modules s)))) selected
     | Return a => ret a
     end) s.
Proof. reflexivity. Qed.

Lemma select_module_body_key module_list selected s key s1 :
  get_arrow_key
    (with_stdout (stdout s ++ [ScrModuleMenu module_list selected]) s)
  = Ok key s1 ->
  select_module_body module_list selected s
  = select_module_on_key module_list key selected s1.
Proof.
  intros Hk. unfold select_module_body, bind, print, modify. by rewrite Hk.
Qed.

(** X12. The module menu with at least one module raises nothing, and
    the id it returns is the id of a module. Without any module, the
    first key decides: up or down raises [ZeroDivisionError], enter
    raises [IndexError], and escape returns the absent result. *)
Theorem module_menu_outcome s :
  (modules s <> ∅ ->
   match select_module s with
   | Ok (Some m) s' => io_eq s s' /\ is_Some (modules s !! m)
   | Ok None s' => io_eq s s'
   | Raised _ _ => False
   | Blocked s' => io_eq s s'
   | OutOfFuel => False
   end)
  /\ (modules s = ∅ ->
      forall key s1,
        get_arrow_key (with_stdout (stdout s ++ [ScrModuleMenu [] 0]) s)
        = Ok key s1 ->
        (key = Up \/ key = Down ->
         select_module s = Raised ZeroDivisionError s1)
        /\ (key = Enter -> select_module s = Raised IndexError s1)
        /\ (key = Esc -> select_module s = Ok None s1)).
Proof.
  split.
  - intros Hne.
    pose proof (select_module_loop_rows
                  (merge_sort Z.le (elements (dom (modules s))))
                  (S (length (stdin s))) 0 s) as H.
    unfold wp in H. unfold select_module.
    assert (Hrow : 0 <= 0 < len (merge_sort Z.le (elements (dom (modules s))))).
    { destruct (merge_sort Z.le (elements (dom (modules s)))) eqn:Hl.
      - by apply module_list_empty in Hl.
      - unfold len. simpl. lia. }
    destruct (select_module_loop _ _ _ s) as [[m|] s'|e s'|s'|];
      try (apply H; lia).
    + destruct H as (Hio & _ & Hm); [lia|]. split; [done|].
      by apply module_list_members, Hm.
    + destruct H as [_ [?|(e' & _ & Hout & _)]]; [lia|done|]. by apply Hout.
  - intros Hempty key s1 Hkey.
    assert (Hl : merge_sort Z.le (elements (dom (modules s))) = [])
      by by apply module_list_empty.
    rewrite select_module_unfold, Hl. unfold bind.
    rewrite (select_module_body_key _ _ _ _ _ Hkey).
    split; [|split].
    + by intros [-> | ->].
    + by intros ->.
    + by intros ->.
Qed.

Lemma module_menu_outcome_witness :
  modules (boot [13]%N []) = ∅
  /\ select_module (boot [13]%N [])
     = Raised IndexError
         (with_stdin [] (with_stdout [ScrModuleMenu [] 0] (boot [13]%N []))).
Proof.
  split; [reflexivity|].
  apply (proj2 (module_menu_outcome (boot [13]%N [])) eq_refl Enter);
    reflexivity.
Defined.

(** X13. Up and down undo each other: with the cursor on a row of a menu
    of [n] rows, up then down, and down then up, bring the cursor back to
    that row, in each of the three cursor loops. *)
Theorem up_and_down_undo_each_other
    (n selected : Z) question module_list checked s :
  0 <= selected < n ->
  (n = len mode_options ->
   (do c <- select_mode_on_key Up selected;
    match c with
    | Continue selected' => select_mode_on_key Down selected'
    | Return a => ret (Return a)
    end) s = Ok (Continue selected) s
   /\ (do c <- select_mode_on_key Down selected;
       match c with
       | Continue selected' => select_mode_on_key Up selected'
       | Return a => ret (Return a)
       end) s = Ok (Continue selected) s)
  /\ (n = len module_list ->
      (do c <- select_module_on_key module_list Up selected;
       match c with
       | Continue selected' => select_module_on_key module_list Down selected'
       | Return a => ret (Return a)
       end) s = Ok (Continue selected) s
      /\ (do c <- select_module_on_key module_list Down selected;
          match c with
          | Continue selected' => select_module_on_key module_list Up selected'
          | Return a => ret (Return a)
          end) s = Ok (Continue selected) s)
  /\ (n = len (options question) ->
      (do c <- show_question_on_key question Up selected checked;
       match c with
       | Continue (selected', checked') =>
           show_question_on_key question Down selected' checked'
       | Return a => ret (Return a)
       end) s = Ok (Continue (selected, checked)) s
      /\ (do c <- show_question_on_key question Down selected checked;
          match c with
          | Continue (selected', checked') =>
              show_question_on_key question Up selected' checked'
          | Return a => ret (Return a)
          end) s = Ok (Continue (selected, checked)) s).
Proof.
  intros Hsel.
  assert (Hud : ((selected - 1) mod n + 1) mod n = selected).
  { rewrite Z.add_mod_idemp_l by lia.
    replace (selected - 1 + 1) with selected by lia. apply Z.mod_small. lia. }
  assert (Hdu : ((selected + 1) mod n - 1) mod n = selected).
  { rewrite <- Zminus_mod_idemp_l.
    rewrite Zmod_mod, Zminus_mod_idemp_l.
    replace (selected + 1 - 1) with selected by lia. apply Z.mod_small. lia. }
  assert (Hn : (n =? 0) = false) by (apply Z.eqb_neq; lia).
  split; [|split]; intros Hlen;
    unfold select_mode_on_key, select_module_on_key, show_question_on_key;
    rewrite <- Hlen; unfold py_mod, bind, ret;
    rewrite Hn, Hud, Hdu; split; reflexivity.
Qed.

Lemma up_and_down_undo_each_other_witness :
  0 <= 0 < 3
  /\ (do c <- show_question_on_key q2 Up 0 ∅;
      match c with
      | Continue (selected', checked') =>
          show_question_on_key q2 Down selected' checked'
      | Return a => ret (Return a)
      end) (boot [] []) = Ok (Continue (0, ∅)) (boot [] []).
Proof.
  split; [lia|].
  apply (up_and_down_undo_each_other 3 0 q2 [] ∅ (boot [] []));
    [lia | reflexivity].
Defined.

(** X14. The rows of the module menu are the ids of the modules, each
    once, in ascending order; and enter on the menu as it opens, with at
    least one module, returns the smallest id. *)
Theorem module_menu_is_sorted s :
  (forall m, m ∈ merge_sort Z.le (elements (dom (modules s)))
             <-> is_Some (modules s !! m))
  /\ NoDup (merge_sort Z.le (elements (dom (modules s))))
  /\ StronglySorted Z.le (merge_sort Z.le (elements (dom (modules s))))
  /\ (forall s1,
        modules s <> ∅ ->
        get_arrow_key
          (with_stdout
             (stdout s ++ [ScrModuleMenu
                             (merge_sort Z.le (elements (dom (modules s)))) 0])
             s) = Ok Enter s1 ->
        exists m,
          select_module s = Ok (Some m) s1
          /\ is_Some (modules s !! m)
          /\ forall m', is_Some (modules s !! m') -> m <= m').
Proof.
  split; [intros m; apply module_list_members|].
  split; [rewrite merge_sort_Permutation; apply NoDup_elements|].
  assert (Hsorted : StronglySorted Z.le
                      (merge_sort Z.le (elements (dom (modules s)))))
    by (apply StronglySorted_merge_sort; apply _).
  split; [done|].
  intros s1 Hne Hkey. rewrite select_module_unfold. unfold bind.
  rewrite (select_module_body_key _ _ _ _ _ Hkey).
  pose proof (fun m => module_list_members (modules s) m) as Hmem.
  destruct (merge_sort Z.le (elements (dom (modules s)))) as [|m rows] eqn:Hl.
  - by apply module_list_empty in Hl.
  - exists m. split; [reflexivity|]. split; [apply Hmem; by left|].
    intros m' Hm'. apply Hmem in Hm'.
    apply StronglySorted_inv in Hsorted as [_ Hall].
    apply elem_of_cons in Hm' as [->|Hm']; [lia|].
    rewrite Forall_forall in Hall. by apply Hall.
Qed.

Lemma module_menu_is_sorted_witness :
  exists m,
    select_module
      (Quiz_init bank (<[7 := mkModule (lit "b") [] [2]]>
                         (<[3 := mkModule (lit "a") [] [1]]> ∅))
         Posix [13]%N [])
    = Ok (Some m)
         (with_stdin []
            (with_stdout [ScrModuleMenu [3; 7] 0]
               (Quiz_init bank (<[7 := mkModule (lit "b") [] [2]]>
                                  (<[3 := mkModule (lit "a") [] [1]]> ∅))
                  Posix [13]%N [])))
    /\ m = 3.
Proof.
  destruct (proj2 (proj2 (proj2 (module_menu_is_sorted
              (Quiz_init bank (<[7 := mkModule (lit "b") [] [2]]>
                                 (<[3 := mkModule (lit "a") [] [1]]> ∅))
                 Posix [13]%N []))))
              (with_stdin []
                 (with_stdout [ScrModuleMenu [3; 7] 0]
                    (Quiz_init bank (<[7 := mkModule (lit "b") [] [2]]>
                                       (<[3 := mkModule (lit "a") [] [1]]> ∅))
                       Posix [13]%N []))))
    as (m & Hm & _ & _).
  - apply (bool_decide_unpack _). vm_compute. exact I.
  - vm_compute. reflexivity.
  - exists m. split; [exact Hm|].
    vm_compute in Hm. by injection Hm as <-.
Defined.

(* ===================================================================== *)
(** * Further properties of the per-question loop and of the feedback *)
(* ===================================================================== *)

(** X15. Space twice on the same row leaves the checked set as it was,
    whatever the row and the set. *)
Theorem space_twice_restores question selected checked s :
  (do c <- show_question_on_key question Space selected checked;
   match c with
   | Continue (selected', checked') =>
       show_question_on_key question Space selected' checked'
   | Return a => ret (Return a)
   end) s = Ok (Continue (selected, checked)) s.
Proof.
  unfold show_question_on_key, bind, ret.
  destruct (decide (selected ∈ checked)) as [Hin|Hout].
  - rewrite decide_False
      by (intros [_ H]%elem_of_difference; apply H; by apply elem_of_singleton).
    replace (checked ∖ {[selected]} ∪ {[selected]}) with checked; [done|].
    apply set_eq. intros x. rewrite elem_of_union, elem_of_difference,
      elem_of_singleton.
    split.
    + intros Hx. destruct (decide (x = selected)); [by right | by left].
    + intros [[Hx _]| ->]; done.
  - rewrite decide_True
      by (apply elem_of_union; right; by apply elem_of_singleton).
    replace ((checked ∪ {[selected]}) ∖ {[selected]}) with checked; [done|].
    apply set_eq. intros x. rewrite elem_of_difference, elem_of_union,
      elem_of_singleton.
    split.
    + intros Hx. split; [by left|]. by intros ->.
    + intros [[Hx| ->] Hne]; done.
Qed.

(** X16. A question stored without a correct index cannot be answered
    correctly: whatever answer the loop returns for it is judged wrong. *)
Theorem unmarked_question_is_never_right question number s answer s' :
  correct_indices question = [] ->
  show_question question number s = Ok (Some answer) s' ->
  check_answers answer (correct_indices question) = false.
Proof.
  intros Hc Hr. rewrite Hc.
  pose proof (show_question_from_spec question number 0 ∅ s) as H.
  unfold wp in H. fold (show_question question number) in H.
  rewrite Hr in H. destruct H as (_ & _ & H).
  destruct (H answer eq_refl) as (Hne & _).
  unfold check_answers. apply bool_decide_eq_false. intros Heq.
  destruct answer as [|x answer]; [done|].
  assert (Hx : x ∈ (list_to_set (x :: answer) : gset Z))
    by (apply elem_of_list_to_set; by left).
  rewrite Heq in Hx. apply elem_of_list_to_set in Hx.
  by apply elem_of_nil in Hx.
Qed.

Lemma unmarked_question_is_never_right_witness :
  correct_indices (mkQuestion 5 (lit "Q") [lit "yes"; lit "no"] []) = []
  /\ show_question (mkQuestion 5 (lit "Q") [lit "yes"; lit "no"] []) 1
       (boot [32; 13]%N [])
     = Ok (Some [0])
          (with_stdin []
             (with_stdout
                [ScrQuestion 1 0
                   (mkQuestion 5 (lit "Q") [lit "yes"; lit "no"] []) 0 ∅;
                 ScrQuestion 1 0
                   (mkQuestion 5 (lit "Q") [lit "yes"; lit "no"] []) 0 {[0]}]
                (boot [] [])))
  /\ check_answers [0] [] = false.
Proof.
  split; [reflexivity|]. split; [vm_compute; reflexivity|].
  apply (unmarked_question_is_never_right
           (mkQuestion 5 (lit "Q") [lit "yes"; lit "no"] []) 1
           (boot [32; 13]%N []) [0]
           (with_stdin []
             (with_stdout
                [ScrQuestion 1 0
                   (mkQuestion 5 (lit "Q") [lit "yes"; lit "no"] []) 0 ∅;
                 ScrQuestion 1 0
                   (mkQuestion 5 (lit "Q") [lit "yes"; lit "no"] []) 0 {[0]}]
                (boot [] [])))); [reflexivity|].
  vm_compute. reflexivity.
Defined.

Lemma check_answers_true user_answers correct_indices :
  check_answers user_answers correct_indices = true
  <-> (forall i, i ∈ user_answers <-> i ∈ correct_indices).
Proof.
  unfold check_answers. rewrite bool_decide_eq_true.
  rewrite set_eq. by setoid_rewrite elem_of_list_to_set.
Qed.

Lemma result_markers_lookup question user_answers i :
  result_markers question user_answers !! i
  = (fun _ => marker_of
                (bool_decide (Z.of_nat i ∈ correct_indices question))
                (bool_decide (user_answers <> [])
                 && bool_decide (Z.of_nat i ∈ user_answers)))
    <$> options question !! i.
Proof. unfold result_markers. by rewrite list_lookup_imap. Qed.

(** X17. The feedback screen agrees with the verdict. It shows one marker
    for each option; and when the answer and the correct indices are
    option indices of the question, the answer is judged correct exactly
    when no option is marked as missed or as wrongly chosen, that is when
    every marker is the double mark or the blank. *)
Theorem feedback_agrees_with_verdict question user_answers :
  Forall (fun i => 0 <= i < len (options question)) user_answers ->
  Forall (fun i => 0 <= i < len (options question))
    (correct_indices question) ->
  length (result_markers question user_answers)
  = length (options question)
  /\ (check_answers user_answers (correct_indices question) = true
      <-> Forall (fun m => m = MarkBoth \/ m = MarkBlank)
            (result_markers question user_answers)).
Proof.
  intros Hua Hci. split; [unfold result_markers; apply length_imap|].
  rewrite check_answers_true, Forall_lookup. split.
  - intros Heq i m. rewrite result_markers_lookup.
    destruct (options question !! i); [|done]. simpl. intros [= <-].
    unfold marker_of.
    destruct (decide (Z.of_nat i ∈ correct_indices question)) as [Hin|Hout].
    + assert (Hu : Z.of_nat i ∈ user_answers) by by apply Heq.
      rewrite !bool_decide_eq_true_2; [by left|done| |done].
      intros ->. by apply elem_of_nil in Hu.
    + rewrite (bool_decide_eq_false_2 (_ ∈ correct_indices _)) by done.
      rewrite (bool_decide_eq_false_2 (_ ∈ user_answers))
        by (intros Hu; by apply Hout, Heq).
      rewrite andb_false_r. by right.
  - intros Hm x.
    assert (Hrow : 0 <= x < len (options question) ->
              exists m, result_markers question user_answers !! Z.to_nat x
                        = Some m
                   /\ m = marker_of
                            (bool_decide (x ∈ correct_indices question))
                            (bool_decide (user_answers <> [])
                             && bool_decide (x ∈ user_answers))).
    { intros Hx. rewrite result_markers_lookup.
      destruct (lookup_lt_is_Some_2 (options question) (Z.to_nat x))
        as [o Ho]; [unfold len in Hx; lia|].
      rewrite Ho. simpl. rewrite Z2Nat.id by lia. by eexists. }
    split.
    + intros Hu. rewrite Forall_forall in Hua.
      destruct (Hrow (Hua x Hu)) as (m & Hlook & ->).
      specialize (Hm _ _ Hlook). unfold marker_of in Hm.
      rewrite (bool_decide_eq_true_2 (user_answers <> [])) in Hm
        by (intros ->; by apply elem_of_nil in Hu).
      rewrite (bool_decide_eq_true_2 (x ∈ user_answers)) in Hm by done.
      destruct (decide (x ∈ correct_indices question)) as [|Hout]; [done|].
      rewrite bool_decide_eq_false_2 in Hm by done. simpl in Hm.
      by destruct Hm.
    + intros Hc. rewrite Forall_forall in Hci.
      destruct (Hrow (Hci x Hc)) as (m & Hlook & ->).
      specialize (Hm _ _ Hlook). unfold marker_of in Hm.
      rewrite (bool_decide_eq_true_2 (x ∈ correct_indices question)) in Hm
        by done.
      destruct (decide (x ∈ user_answers)) as [|Hout]; [done|].
      rewrite (bool_decide_eq_false_2 (x ∈ user_answers)) in Hm by done.
      rewrite andb_false_r in Hm. simpl in Hm. by destruct Hm.
Qed.

Lemma feedback_agrees_with_verdict_witness :
  Forall (fun i => 0 <= i < len (options q2)) [2; 1]
  /\ Forall (fun i => 0 <= i < len (options q2)) (correct_indices q2)
  /\ length (result_markers q2 [2; 1]) = 3%nat
  /\ result_markers q2 [2; 1] = [MarkBlank; MarkBoth; MarkBoth].
Proof.
  assert (H1 : Forall (fun i => 0 <= i < len (options q2)) [2; 1])
    by (repeat constructor; vm_compute; done).
  assert (H2 : Forall (fun i => 0 <= i < len (options q2))
                 (correct_indices q2))
    by (repeat constructor; vm_compute; done).
  split; [exact H1|]. split; [exact H2|].
  split; [exact (proj1 (feedback_agrees_with_verdict q2 [2; 1] H1 H2))|].
  reflexivity.
Defined.

(* ===================================================================== *)
(** * Further properties of the summary *)
(* ===================================================================== *)

Lemma for_all_tallies_spec bound test n total :
  for_all_tallies bound test = true ->
  1 <= total <= bound -> 0 <= n <= total -> test n total = true.
Proof.
  unfold for_all_tallies. rewrite forallb_forall. intros H Ht Hn.
  assert (Hin : In total (seqZ 1 bound))
    by (apply list_elem_of_In, elem_of_seqZ; lia).
  specialize (H total Hin). rewrite forallb_forall in H. apply H.
  apply list_elem_of_In, elem_of_seqZ. lia.
Qed.

Lemma tier_exact_to_200 :
  for_all_tallies 200
    (fun c t => bool_decide (float_tier c t = exact_tier c t)) = true.
Proof. vm_compute. reflexivity. Qed.

Lemma percent_near_floor_to_200 :
  for_all_tallies 200 percent_near_floor = true.
Proof. vm_compute. reflexivity. Qed.

(** With a positive total, the percentage is the float one. *)
Lemma percent_float n total s p :
  0 < total -> float_percent n total = Some p -> percent n total s = Ok p s.
Proof.
  intros Ht. unfold percent, float_percent.
  replace (total >? 0) with true by (symmetry; by apply Z.gtb_lt).
  unfold bind, PyFloat.truediv.
  replace (total =? 0) with false by (symmetry; apply Z.eqb_neq; lia).
  unfold ret, PyFloat.to_int.
  destruct (PyFloat.mul_int _ _); intros H; simplify_eq; reflexivity.
Qed.

(** What the summary prints when the total is positive and both
    percentages are finite: the counts, then the tier; it raises nothing,
    and then waits for Return. *)
Lemma show_summary_float s pct_correct pct_wrong :
  0 < total (stats s) ->
  float_percent (correct (stats s)) (total (stats s)) = Some pct_correct ->
  float_percent (wrong (stats s)) (total (stats s)) = Some pct_wrong ->
  wp show_summary
     (fun _ s' =>
        stdout s'
        = stdout s ++ [ScrSummaryCounts (total (stats s))
                         (correct (stats s)) pct_correct
                         (wrong (stats s)) pct_wrong;
                       ScrSummaryTier
                         (float_tier (correct (stats s))
                            (total (stats s)))])
     (fun e s' =>
        e = None
        /\ stdout s'
           = stdout s ++ [ScrSummaryCounts (total (stats s))
                            (correct (stats s)) pct_correct
                            (wrong (stats s)) pct_wrong;
                          ScrSummaryTier
                            (float_tier (correct (stats s))
                               (total (stats s)))])
     s.
Proof.
  intros Ht Hc Hw. unfold show_summary. apply wp_bind, wp_get. apply wp_bind.
  unfold wp at 1. rewrite (percent_float _ _ s _ Ht Hc). apply wp_bind.
  unfold wp at 1. rewrite (percent_float _ _ s _ Ht Hw).
  apply wp_bind, wp_print. set (s1 := with_stdout _ s).
  set (out := stdout s ++ _).
  assert (Hwait : forall tier,
            tier = float_tier (correct (stats s)) (total (stats s)) ->
            wp wait_for_enter
               (fun _ s' => stdout s' = out)
               (fun e s' => e = None /\ stdout s' = out)
               (with_stdout (stdout s1 ++ [ScrSummaryTier tier]) s1)).
  { intros tier ->.
    assert (Hout : stdout s1 ++ [ScrSummaryTier
                     (float_tier (correct (stats s)) (total (stats s)))]
                   = out)
      by (subst out s1; destruct s; simpl; by rewrite <- app_assoc).
    apply wp_wait_for_enter.
    - intros s3 _ H3 _. by rewrite H3.
    - intros s3 _ H3. split; [done|]. by rewrite H3. }
  assert (Hdiv : forall Q E s2,
            Q (SFdiv PyFloat.prec PyFloat.emax
                 (PyFloat.of_int (correct (stats s)))
                 (PyFloat.of_int (total (stats s)))) s2 ->
            wp (PyFloat.truediv (correct (stats s)) (total (stats s)))
               Q E s2).
  { intros Q E s2 HQ. unfold PyFloat.truediv.
    replace (total (stats s) =? 0) with false
      by (symmetry; apply Z.eqb_neq; lia).
    by apply wp_ret. }
  apply wp_bind, Hdiv, wp_bind.
  destruct (PyFloat.ge _ PyFloat.lit_0_8) eqn:H8.
  - apply wp_print, Hwait. unfold float_tier. cbv zeta. by rewrite H8.
  - apply wp_bind, Hdiv.
    destruct (PyFloat.ge _ PyFloat.lit_0_6) eqn:H6;
      apply wp_print, Hwait; unfold float_tier; cbv zeta;
      by rewrite H8, H6.
Qed.

Lemma percent_near_floor_spec n total :
  percent_near_floor n total = true ->
  exists p, float_percent n total = Some p
            /\ (p = 100 * n / total
                \/ (100 * n) mod total = 0 /\ p = 100 * n / total - 1).
Proof.
  unfold percent_near_floor. destruct (float_percent n total) as [p|]; [|done].
  intros H. exists p. split; [done|].
  apply orb_true_iff in H as [H | H].
  - left. by apply Z.eqb_eq.
  - right. apply andb_true_iff in H as [H1 H2].
    split; by apply Z.eqb_eq.
Qed.

(** X18. A summary of a tally of at most 200 questions raises nothing and
    names the tier of the exact quotient: the top one from 80% right, the
    middle one from 60%, the bottom one below, although the code compares
    floats. *)
Theorem summary_tier_is_exact (s : state) :
  1 <= total (stats s) <= 200 ->
  0 <= correct (stats s) <= total (stats s) ->
  0 <= wrong (stats s) <= total (stats s) ->
  exists pct_correct pct_wrong,
    wp show_summary
       (fun _ s' =>
          stdout s'
          = stdout s ++ [ScrSummaryCounts (total (stats s))
                           (correct (stats s)) pct_correct
                           (wrong (stats s)) pct_wrong;
                         ScrSummaryTier
                           (exact_tier (correct (stats s))
                              (total (stats s)))])
       (fun e s' =>
          e = None
          /\ stdout s'
             = stdout s ++ [ScrSummaryCounts (total (stats s))
                              (correct (stats s)) pct_correct
                              (wrong (stats s)) pct_wrong;
                            ScrSummaryTier
                              (exact_tier (correct (stats s))
                                 (total (stats s)))])
       s.
Proof.
  intros Ht Hc Hw.
  destruct (percent_near_floor_spec _ _
              (for_all_tallies_spec _ _ _ _ percent_near_floor_to_200 Ht Hc))
    as (pc & Hpc & _).
  destruct (percent_near_floor_spec _ _
              (for_all_tallies_spec _ _ _ _ percent_near_floor_to_200 Ht Hw))
    as (pw & Hpw & _).
  exists pc, pw.
  pose proof (for_all_tallies_spec _ _ _ _ tier_exact_to_200 Ht Hc) as Htier.
  apply bool_decide_eq_true in Htier. rewrite <- Htier.
  apply show_summary_float; [lia | done | done].
Qed.

Lemma summary_tier_is_exact_witness :
  exists pct_correct pct_wrong,
    wp show_summary
       (fun _ s' =>
          stdout s'
          = [ScrSummaryCounts 5 4 pct_correct 1 pct_wrong;
             ScrSummaryTier Top])
       (fun e s' =>
          e = None
          /\ stdout s'
             = [ScrSummaryCounts 5 4 pct_correct 1 pct_wrong;
                ScrSummaryTier Top])
       (with_stats (mkStats 4 1 5) (boot [13]%N [])).
Proof.
  apply (summary_tier_is_exact (with_stats (mkStats 4 1 5) (boot [13]%N [])));
    simpl; lia.
Defined.

(** X19. In a summary of a tally of at most 200 questions, each printed
    percentage is the floor of the exact percentage, or one less than it
    where the exact percentage is a whole number; so it is never above
    the exact one and less than 2 below it. *)
Theorem summary_percentages_near_floor (s : state) :
  1 <= total (stats s) <= 200 ->
  0 <= correct (stats s) <= total (stats s) ->
  0 <= wrong (stats s) <= total (stats s) ->
  exists pct_correct pct_wrong tier,
    finally (show_summary s)
      (fun s' =>
         stdout s'
         = stdout s ++ [ScrSummaryCounts (total (stats s))
                          (correct (stats s)) pct_correct
                          (wrong (stats s)) pct_wrong;
                        ScrSummaryTier tier])
    /\ (pct_correct = 100 * correct (stats s) / total (stats s)
        \/ (100 * correct (stats s)) mod total (stats s) = 0
           /\ pct_correct = 100 * correct (stats s) / total (stats s) - 1)
    /\ (pct_wrong = 100 * wrong (stats s) / total (stats s)
        \/ (100 * wrong (stats s)) mod total (stats s) = 0
           /\ pct_wrong = 100 * wrong (stats s) / total (stats s) - 1).
Proof.
  intros Ht Hc Hw.
  destruct (percent_near_floor_spec _ _
              (for_all_tallies_spec _ _ _ _ percent_near_floor_to_200 Ht Hc))
    as (pc & Hpc & Hnc).
  destruct (percent_near_floor_spec _ _
              (for_all_tallies_spec _ _ _ _ percent_near_floor_to_200 Ht Hw))
    as (pw & Hpw & Hnw).
  exists pc, pw, (float_tier (correct (stats s)) (total (stats s))).
  split; [|done].
  assert (H0 : 0 < total (stats s)) by lia.
  pose proof (show_summary_float s pc pw H0 Hpc Hpw) as H.
  unfold wp in H. unfold finally.
  destruct (show_summary s); [done | by destruct H | by destruct H | done].
Qed.

Lemma summary_percentages_near_floor_witness :
  exists pct_correct pct_wrong tier,
    finally (show_summary (with_stats (mkStats 29 21 50) (boot [13]%N [])))
      (fun s' =>
         stdout s'
         = [ScrSummaryCounts 50 29 pct_correct 21 pct_wrong;
            ScrSummaryTier tier])
    /\ (pct_correct = 58 \/ 0 = 0 /\ pct_correct = 57)
    /\ (pct_wrong = 42 \/ 0 = 0 /\ pct_wrong = 41).
Proof.
  apply (summary_percentages_near_floor
           (with_stats (mkStats 29 21 50) (boot [13]%N [])));
    simpl; lia.
Defined.

(* ===================================================================== *)
(** * Further properties of the run *)
(* ===================================================================== *)

(** One pass of the run's loop over a store whose questions all have an
    option raises nothing; and no pass touches the modules. *)
Lemma run_quiz_body_no_raise s :
  tally_inv s -> store_ok (questions s) ->
  wp run_quiz_body (fun _ s' => modules s' = modules s)
     (fun e _ => e = None) s.
Proof.
  intros (_ & Hci & _) Hok. unfold run_quiz_body. apply wp_bind, wp_get.
  destruct (Z.ltb_spec (current_index s) (len (quiz_questions s)));
    [|by apply wp_ret].
  apply wp_bind, wp_py_index; [lia|]. intros q_id Hq.
  destruct (questions s !! q_id) as [question|] eqn:Hstore.
  - apply wp_bind. unfold show_question.
    eapply wp_mono; [apply show_question_from_spec | |].
    + intros r s1 (Hio1 & _). destruct r as [user_answers|].
      * apply wp_bind, wp_show_result; [|done]. intros s2 Hio2.
        pose proof (io_eq_trans _ _ _ Hio1 Hio2) as Hio.
        apply io_eq_fields in Hio as (_ & Hm & _).
        destruct (check_answers _ _); unfold add_correct, add_wrong, advance;
          apply wp_bind, wp_modify, wp_bind, wp_modify, wp_ret;
          rewrite <- Hm; by destruct s2.
      * apply wp_bind, wp_show_exit_confirmation; [|done].
        intros s2 Hio2. apply wp_ret.
        pose proof (io_eq_trans _ _ _ Hio1 Hio2) as Hio.
        by apply io_eq_fields in Hio as (_ & Hm & _).
    + intros e s1 [_ He]. apply He, first_row. exact (Hok q_id question Hstore).
  - unfold advance. apply wp_bind, wp_modify, wp_ret. by destruct s.
Qed.

Lemma run_quiz_loop_no_raise fuel :
  forall s,
  tally_inv s -> store_ok (questions s) ->
  (Z.to_nat (len (quiz_questions s) - current_index s) < fuel)%nat ->
  wp (run_quiz_loop fuel)
     (fun _ s' => same_run s s' /\ tally_inv s' /\ modules s' = modules s)
     (fun e _ => e = None) s.
Proof.
  induction fuel as [|fuel IH]; intros s Hinv Hok Hfuel; [lia|].
  cbn [run_quiz_loop]. apply wp_bind.
  eapply wp_mono;
    [exact (wp_and _ _ _ _ _ _ (run_quiz_body_spec s Hinv)
              (run_quiz_body_no_raise s Hinv Hok)) | |].
  - intros c s1 [(Hrun & Hinv1 & Hc) Hm]. destruct c as [[]|[]].
    + destruct Hc as [Hlt Hci]. pose proof Hrun as (Hq & Hqq & _).
      eapply wp_mono;
        [apply (IH s1 Hinv1); [by rewrite Hq | rewrite Hqq, Hci; lia] | |].
      * intros ? s2 (Hrun2 & Hinv2 & Hm2).
        split; [by eapply same_run_trans|]. split; [done | congruence].
      * by intros e s2 ->.
    + by apply wp_ret.
  - by intros e s1 [_ ->].
Qed.

(** X20. A run over at least one and at most 200 ids, on a store in which
    every question has an option (as in every store the parser builds),
    raises no exception, whatever is typed and whatever the generator
    draws: it returns after the summary, or it is waiting for a key. *)
Theorem run_raises_nothing (question_ids : list Z) (s : state) :
  store_ok (questions s) ->
  1 <= len question_ids <= 200 ->
  wp (run_quiz question_ids)
     (fun _ s' =>
        exists before pct_correct pct_wrong,
          stdout s'
          = before ++ [ScrSummaryCounts (len question_ids)
                         (correct (stats s')) pct_correct
                         (wrong (stats s')) pct_wrong;
                       ScrSummaryTier
                         (exact_tier (correct (stats s'))
                            (len question_ids))])
     (fun e _ => e = None) s.
Proof.
  intros Hok Hlen. unfold run_quiz. apply wp_bind.
  eapply wp_mono; [apply run_quiz_init_inv | | done].
  intros _ s0 (Hinv & _ & _ & Hst & Hq & _). apply wp_bind.
  unfold run_quiz_while.
  pose proof (run_quiz_loop_no_raise
    (S (Z.to_nat (len (quiz_questions s0) - current_index s0))) s0 Hinv)
    as H.
  eapply wp_mono; [apply H; [by rewrite Hq | lia] | | done].
  intros _ s1 ((_ & _ & Htot & _) & Hinv1 & _).
  pose proof (tally_inv_bound s1 Hinv1) as Hb.
  destruct Hinv1 as (_ & _ & Hc & Hw & _).
  rewrite Hst in Htot. simpl in Htot.
  assert (Ht : 1 <= total (stats s1) <= 200) by lia.
  assert (Hc' : 0 <= correct (stats s1) <= total (stats s1)) by lia.
  assert (Hw' : 0 <= wrong (stats s1) <= total (stats s1)) by lia.
  destruct (percent_near_floor_spec _ _
              (for_all_tallies_spec _ _ _ _ percent_near_floor_to_200 Ht Hc'))
    as (pc & Hpc & _).
  destruct (percent_near_floor_spec _ _
              (for_all_tallies_spec _ _ _ _ percent_near_floor_to_200 Ht Hw'))
    as (pw & Hpw & _).
  pose proof (for_all_tallies_spec _ _ _ _ tier_exact_to_200 Ht Hc') as Htier.
  apply bool_decide_eq_true in Htier.
  assert (H0 : 0 < total (stats s1)) by lia.
  pose proof (wp_and _ _ _ _ _ _ (show_summary_float s1 pc pw H0 Hpc Hpw)
                (show_summary_io s1)) as Hsum.
  eapply wp_mono; [exact Hsum | |].
  - intros _ s2 [Hout Hio].
    apply io_eq_fields in Hio as (_ & _ & _ & _ & Hst2 & _).
    exists (stdout s1), pc, pw. rewrite Hout, Hst2, Htier, Htot. done.
  - by intros e s2 [[-> _] _].
Qed.

Lemma run_raises_nothing_witness :
  wp (run_quiz [1; 2])
     (fun _ s' =>
        exists before pct_correct pct_wrong,
          stdout s'
          = before ++ [ScrSummaryCounts 2
                         (correct (stats s')) pct_correct
                         (wrong (stats s')) pct_wrong;
                       ScrSummaryTier
                         (exact_tier (correct (stats s')) 2)])
     (fun e _ => e = None) (boot [27; 13; 13]%N [0; 0]%nat).
Proof.
  apply (run_raises_nothing [1; 2] (boot [27; 13; 13]%N [0; 0]%nat)).
  - unfold store_ok, boot, Quiz_init, bank. simpl.
    apply map_Forall_insert_2; [done|].
    apply map_Forall_insert_2; [done|]. apply map_Forall_empty.
  - unfold len. simpl. lia.
Defined.

(** The loop over ids that the store does not hold only moves the cursor
    to the end. *)
Lemma run_quiz_loop_stale fuel :
  forall s,
  0 <= current_index s <= len (quiz_questions s) ->
  Forall (fun k => questions s !! k = None) (quiz_questions s) ->
  (Z.to_nat (len (quiz_questions s) - current_index s) < fuel)%nat ->
  wp (run_quiz_loop fuel)
     (fun _ s' => s' = with_current_index (len (quiz_questions s)) s)
     (fun _ _ => False) s.
Proof.
  induction fuel as [|fuel IH]; intros s Hci Hstale Hfuel; [lia|].
  cbn [run_quiz_loop]. apply wp_bind. unfold run_quiz_body.
  apply wp_bind, wp_get.
  destruct (Z.ltb_spec (current_index s) (len (quiz_questions s))) as [Hlt|Hge].
  - apply wp_bind, wp_py_index; [lia|]. intros q_id Hq.
    rewrite Forall_forall in Hstale.
    rewrite (Hstale q_id) by (by eapply list_elem_of_lookup_2).
    unfold advance. apply wp_bind, wp_modify, wp_ret.
    set (s1 := with_current_index (current_index s + 1) s).
    assert (Hqq : quiz_questions s1 = quiz_questions s) by by destruct s.
    assert (Hq1 : questions s1 = questions s) by by destruct s.
    assert (Hci1 : current_index s1 = current_index s + 1) by by destruct s.
    eapply wp_mono; [apply (IH s1) | | done].
    + rewrite Hqq, Hci1. lia.
    + rewrite Hqq, Hq1. by apply Forall_forall.
    + rewrite Hqq, Hci1. lia.
    + intros _ s2 ->. rewrite Hqq. by destruct s.
  - apply wp_ret, wp_ret.
    assert (current_index s = len (quiz_questions s)) as <- by lia.
    by destruct s.
Qed.

Lemma zero_tally_to_200 :
  forallb (fun total =>
             bool_decide (float_percent 0 total = Some 0
                          /\ float_tier 0 total = Bottom))
    (seqZ 1 200) = true.
Proof. vm_compute. reflexivity. Qed.

(** X21. A run over ids none of which the store holds (1 to 200 of them)
    shows no question and no feedback: the first thing printed is the
    summary, which reports all the ids as the total, 0 right (0%), 0 wrong
    (0%) and the bottom tier; the tally is left at 0, 0 and the number of
    ids, and the cursor at the end. *)
Theorem stale_ids_run_is_silent (question_ids : list Z) (s : state) :
  Forall (fun k => questions s !! k = None) question_ids ->
  1 <= len question_ids <= 200 ->
  finally (run_quiz question_ids s)
    (fun s' =>
       stdout s'
       = stdout s ++ [ScrSummaryCounts (len question_ids) 0 0 0 0;
                      ScrSummaryTier Bottom]
       /\ stats s' = mkStats 0 0 (len question_ids)
       /\ current_index s' = len question_ids)
  /\ wp (run_quiz question_ids) (fun _ _ => True) (fun e _ => e = None) s.
Proof.
  intros Hstale Hlen.
  cut (wp (run_quiz question_ids)
         (fun _ s' =>
            stdout s'
            = stdout s ++ [ScrSummaryCounts (len question_ids) 0 0 0 0;
                           ScrSummaryTier Bottom]
            /\ stats s' = mkStats 0 0 (len question_ids)
            /\ current_index s' = len question_ids)
         (fun e s' =>
            e = None
            /\ stdout s'
               = stdout s ++ [ScrSummaryCounts (len question_ids) 0 0 0 0;
                              ScrSummaryTier Bottom]
            /\ stats s' = mkStats 0 0 (len question_ids)
            /\ current_index s' = len question_ids) s).
  { unfold wp, finally.
    destruct (run_quiz question_ids s) as [[] s'|e s'|s'|];
      [intros H; split; [exact H | exact I] | intros [[=] _]
      | intros [_ H]; split; [exact H | reflexivity] | done]. }
  unfold run_quiz. apply wp_bind.
  eapply wp_mono; [apply run_quiz_init_spec | | done].
  intros _ s0 (Hperm & Hci & Hst & Hq & _ & _ & _ & Hout). apply wp_bind.
  unfold run_quiz_while.
  assert (Hl : len (quiz_questions s0) = len question_ids)
    by (unfold len; by rewrite (Permutation_length Hperm)).
  eapply wp_mono; [apply run_quiz_loop_stale | | done].
  - rewrite Hci. unfold len. lia.
  - rewrite Hq. by rewrite Hperm.
  - lia.
  - intros _ s1 ->. rewrite Hl. set (s1 := with_current_index _ s0).
    assert (Hst1 : stats s1 = mkStats 0 0 (len question_ids))
      by (rewrite <- Hst; by destruct s0).
    assert (Hout1 : stdout s1 = stdout s) by (rewrite <- Hout; by destruct s0).
    assert (Hci1 : current_index s1 = len question_ids) by by destruct s0.
    pose proof zero_tally_to_200 as Hz. rewrite forallb_forall in Hz.
    specialize (Hz (len question_ids)).
    rewrite bool_decide_eq_true in Hz. destruct Hz as [Hp Htier].
    { apply list_elem_of_In, elem_of_seqZ. lia. }
    assert (H0 : 0 < total (stats s1)) by (rewrite Hst1; simpl; lia).
    pose proof (wp_and _ _ _ _ _ _
                  (show_summary_float s1 0 0 H0
                     ltac:(by rewrite Hst1) ltac:(by rewrite Hst1))
                  (show_summary_io s1)) as Hsum.
    rewrite Hst1, Hout1 in Hsum. simpl in Hsum. rewrite Htier in Hsum.
    eapply wp_mono; [exact Hsum | |].
    + intros _ s2 [Hout2 Hio].
      apply io_eq_fields in Hio as (_ & _ & Hci2 & _ & Hst2 & _).
      by rewrite Hout2, Hst2, Hci2.
    + intros e s2 [[-> Hout2] Hio].
      apply io_eq_fields in Hio as (_ & _ & Hci2 & _ & Hst2 & _).
      by rewrite Hout2, Hst2, Hci2.
Qed.

Lemma stale_ids_run_is_silent_witness :
  finally (run_quiz [7; 8; 9] (boot [13]%N [0; 0; 0]%nat))
    (fun s' =>
       stdout s' = [ScrSummaryCounts 3 0 0 0 0; ScrSummaryTier Bottom]
       /\ stats s' = mkStats 0 0 3
       /\ current_index s' = 3)
  /\ wp (run_quiz [7; 8; 9]) (fun _ _ => True) (fun e _ => e = None)
        (boot [13]%N [0; 0; 0]%nat).
Proof.
  apply (stale_ids_run_is_silent [7; 8; 9] (boot [13]%N [0; 0; 0]%nat)).
  - repeat constructor.
  - unfold len. simpl. lia.
Defined.

(* ===================================================================== *)
(** * Further properties of the main loop *)
(* ===================================================================== *)

(** A run as in X20 also leaves the store and the modules as they were. *)
Lemma run_quiz_safe (question_ids : list Z) (s : state) :
  store_ok (questions s) ->
  1 <= len question_ids <= 200 ->
  wp (run_quiz question_ids)
     (fun _ s' =>
        questions s' = questions s /\ modules s' = modules s
        /\ (length (stdin s') <= length (stdin s))%nat)
     (fun e _ => e = None) s.
Proof.
  intros Hok Hlen. unfold run_quiz. apply wp_bind.
  eapply wp_mono;
    [exact (wp_and _ _ _ _ _ _ (run_quiz_init_inv question_ids s)
              (run_quiz_init_spec question_ids s)) | | by intros ? ? [[] _]].
  intros _ s0 [(Hinv & _ & _ & Hst & Hq & Hin) (_ & _ & _ & _ & Hm & _)].
  apply wp_bind. unfold run_quiz_while.
  pose proof (run_quiz_loop_no_raise
    (S (Z.to_nat (len (quiz_questions s0) - current_index s0))) s0 Hinv)
    as H.
  eapply wp_mono; [apply H; [by rewrite Hq | lia] | | done].
  intros _ s1 ((Hq1 & _ & Htot & Hin1) & Hinv1 & Hm1).
  pose proof (tally_inv_bound s1 Hinv1) as Hb.
  destruct Hinv1 as (_ & _ & Hc & Hw & _).
  rewrite Hst in Htot. simpl in Htot.
  assert (Ht : 1 <= total (stats s1) <= 200) by lia.
  assert (Hc' : 0 <= correct (stats s1) <= total (stats s1)) by lia.
  assert (Hw' : 0 <= wrong (stats s1) <= total (stats s1)) by lia.
  destruct (percent_near_floor_spec _ _
              (for_all_tallies_spec _ _ _ _ percent_near_floor_to_200 Ht Hc'))
    as (pc & Hpc & _).
  destruct (percent_near_floor_spec _ _
              (for_all_tallies_spec _ _ _ _ percent_near_floor_to_200 Ht Hw'))
    as (pw & Hpw & _).
  assert (H0 : 0 < total (stats s1)) by lia.
  pose proof (wp_and _ _ _ _ _ _ (show_summary_float s1 pc pw H0 Hpc Hpw)
                (show_summary_io s1)) as Hsum.
  eapply wp_mono; [exact Hsum | |].
  - intros _ s2 [_ Hio]. pose proof (io_eq_reads _ _ Hio) as Hin2.
    apply io_eq_fields in Hio as (Hq2 & Hm2 & _).
    split; [congruence|]. split; [congruence | rewrite <- Hin; lia].
  - by intros e s2 [[-> _] _].
Qed.

Lemma session_ok_same keys s s' :
  questions s' = questions s -> modules s' = modules s ->
  session_ok keys s -> session_ok keys s'.
Proof. unfold session_ok. by intros -> ->. Qed.

(** A pick of at most 20 out of at most 85 takes the pool. *)
Lemma sample_of_20_small {A} (population : list A) :
  len population <= 85 ->
  Random.sample population (Z.min 20 (len population))
  = random_sample population (Z.min 20 (len population)).
Proof.
  intros Hlen. unfold Random.sample, random_sample.
  destruct ((0 <=? Z.min 20 (len population))
            && (Z.min 20 (len population) <=? len population)); [|done].
  replace (len population <=? Random.setsize (Z.min 20 (len population)))
    with true; [done|].
  symmetry. apply Z.leb_le. unfold Random.setsize.
  destruct (Z.ltb_spec 5 (Z.min 20 (len population))) as [Hk|Hk]; [|lia].
  assert (Hlog : 5 <= Z.log2_up (3 * Z.min 20 (len population))).
  { change 5 with (Z.log2_up 18). apply Z.log2_up_le_mono. lia. }
  assert (Hexp : 3 <= (Z.log2_up (3 * Z.min 20 (len population)) + 1) / 2).
  { apply Z.div_le_lower_bound; lia. }
  pose proof (Z.pow_le_mono_r 4 _ _ ltac:(lia) Hexp) as Hpow.
  change (4 ^ 3) with 64 in Hpow. lia.
Qed.

(** X22. A session on data that is fit for it raises no exception,
    whatever is typed and whatever the generator draws, as long as fewer
    characters are typed than twice the number of nested calls of
    [select_mode] that the interpreter admits: with a module loaded, an
    option in every stored question, and at most 85 ids in the store and
    in each module, the main loop ends (when the menu is left) or waits
    for a key. A module without questions starts no run: the loop reports
    it and shows the menu again, so the summary never divides by a total
    of zero. *)
Theorem session_raises_nothing (keys : list Z) (limit fuel : nat) :
  forall s,
  session_ok keys s ->
  (length (stdin s) < 2 * limit)%nat ->
  (length (stdin s) < fuel)%nat ->
  wp (main_loop keys limit fuel) (fun _ _ => True) (fun e _ => e = None) s.
Proof.
  induction fuel as [|fuel IH]; intros s Hok Hlimit Hfuel; [lia|].
  cbn [main_loop]. apply wp_bind.
  eapply wp_mono; [apply select_mode_post | |].
  - intros result s1 (Hio & Hlen1 & Hres).
    destruct result as [[question_ids mode]|]; [|by apply wp_ret].
    apply io_eq_fields in Hio as (Hq1 & Hm1 & _).
    pose proof (session_ok_same keys s s1 Hq1 Hm1 Hok) as Hok1.
    destruct Hok as (_ & _ & Hsize & Hmods).
    assert (Hids : len question_ids <= 85).
    { destruct Hres as [[-> _] | (m & md & Hmd & -> & _)]; [done|].
      exact (Hmods m md Hmd). }
    case_bool_decide as Hnil.
    + apply wp_bind, wp_print. apply IH.
      * apply (session_ok_same keys s1); [by destruct s1 | by destruct s1 | done].
      * destruct s1; simpl in *. lia.
      * destruct s1; simpl in *. lia.
    + apply wp_bind. unfold main_start. apply wp_bind.
      rewrite sample_of_20_small by done.
      eapply wp_mono; [apply random_sample_20 | | done].
      intros sample s2 [Hrng _].
      apply rng_eq_fields in Hrng as (Hq2 & Hm2 & _ & _ & _ & _ & Hin2 & _).
      apply wp_bind, wp_modify.
      set (s3 := with_quiz_questions sample s2).
      assert (Hq3 : questions s3 = questions s1)
        by (rewrite <- Hq2; by destruct s2).
      assert (Hm3 : modules s3 = modules s1)
        by (rewrite <- Hm2; by destruct s2).
      assert (Hin3 : stdin s3 = stdin s1)
        by (rewrite <- Hin2; by destruct s2).
      pose proof (session_ok_same keys s1 s3 Hq3 Hm3 Hok1) as Hok3.
      eapply wp_mono; [apply run_quiz_safe | |].
      * apply Hok3.
      * split; [|lia]. unfold len in *.
        destruct question_ids; [done | simpl; lia].
      * intros _ s4 (Hq4 & Hm4 & Hin4). rewrite Hin3 in Hin4. apply IH.
        -- by apply (session_ok_same keys s3).
        -- lia.
        -- lia.
      * done.
  - intros e s1 [_ [-> | [[Hm _] | [_ Hl]]]]; [done | | lia].
    by destruct Hok as (_ & Hne & _).
Qed.

Lemma session_raises_nothing_witness :
  wp (main_loop [1; 2] 5 4) (fun _ _ => True) (fun e _ => e = None)
     (Quiz_init bank (<[1 := mkModule (lit "M") (lit "d") [1; 2]]> ∅)
        Posix [27; 27; 13]%N []).
Proof.
  apply (session_raises_nothing [1; 2] 5 4
           (Quiz_init bank (<[1 := mkModule (lit "M") (lit "d") [1; 2]]> ∅)
              Posix [27; 27; 13]%N [])).
  - unfold session_ok, Quiz_init, bank. simpl. split; [|split; [|split]].
    + apply map_Forall_insert_2; [done|].
      apply map_Forall_insert_2; [done|]. apply map_Forall_empty.
    + apply insert_non_empty.
    + unfold len. simpl. lia.
    + apply map_Forall_insert_2; [unfold len; simpl; lia|].
      apply map_Forall_empty.
  - simpl. lia.
  - simpl. lia.
Defined.
